(** * Client-side auth session manager: rate limiter, token lifecycle,
      session operations and HTTP interceptors.

    Shallow embedding of
      - src/lib/rateLimiter.ts      (module [RateLimiter])
      - stores/useAuthStore.ts      (section [Store])
      - src/lib/axios.ts            (section [Interceptors])
      - constants/auth.ts, constants/routes.ts

    The repository holds two versions of the store.  The one embedded is
    the richer one: the session has a [confirmEmailToken],
    [resendConfirmationEmail] is rate limited and answers
    ['sent' | 'in_progress' | 'error'], and [logIn] keeps the loading flag
    up while it resends.  [getAccessToken] is the same in both.

    Conventions.
      - JavaScript numbers that hold millisecond timestamps, counters and
        configuration values are integers well inside the exactly
        representable range of a double; they are modelled as [Z].
      - [Date.now()] is an explicit argument ([now]) of the rate limiter
        methods and a field ([clock]) of the world the store runs in.
      - [Map<string, AttemptRecord>] and [localStorage] are [gmap string _].
      - Every request of the store goes through the intercepted client
        of src/lib/axios.ts.  On a route of [NO_AUTH_REQUIRED_API_ROUTES]
        the request interceptor passes the request on untouched and the
        rejection handler never resubmits it, so what the backend does
        with that one request is an [Exchange] (time in flight, resolve
        or reject) given as an argument to the operation ([post]); the
        handler still starts a [logOut()] when the rejection is a 401
        with a logout code.  [logOut] and [changePassword] call routes
        outside that list: they run the whole pipeline ([api]) against a
        [Server].
      - A [logOut()] called without [await] runs up to its request and is
        left there ([detached]).  A statement about an operation holds at
        the moment the operation returns, and [trace] holds what the
        operation itself did; what a [logOut()] left behind does later
        is [logOut_dispatch] and the rest of [logOut].
      - [toast], [logger], the limiter calls, every [set] and every request
        leave an [Event] in the world's [trace], so that what an operation
        did, and in which order, can be stated. *)

From Stdlib Require Import ZArith QArith Qminmax Qpower Lia.
From stdpp Require Import base strings list gmap.

Local Open Scope string_scope.
Local Open Scope list_scope.
Local Open Scope Z_scope.

(** ** JavaScript helpers *)

(** [Math.ceil(a / b)] for integers [a] and a positive integer [b]. *)
Definition Math_ceil_div (a b : Z) : Z := - ((- a) / b).

(** [x || d] where [x] is a possibly missing number: [undefined] and [0]
    are falsy. *)
Definition num_or (x : option Z) (d : Z) : Z :=
  match x with
  | Some v => if v =? 0 then d else v
  | None => d
  end.

(** Truthiness of a possibly missing string: [null], [undefined] and the
    empty string are falsy. *)
Definition truthy_str (x : option string) : bool :=
  match x with
  | Some s => negb (String.eqb s "")
  | None => false
  end.

(** [arr.includes(x)] on an array of strings. *)
Definition includes (arr : list string) (x : string) : bool :=
  existsb (String.eqb x) arr.

(** ** src/lib/rateLimiter.ts *)

Module RateLimiter.

Record RateLimitConfig := {
  maxAttempts : Z;
  windowMs : Z;
  blockDurationMs : Z;
}.

Record AttemptRecord := {
  count : Z;
  firstAttemptTime : Z;
  blockedUntil : option Z;
}.

(** The class instance: its private [attempts] map and its [config]. *)
Record t := {
  attempts : gmap string AttemptRecord;
  config : RateLimitConfig;
}.

(** [Partial<RateLimitConfig>] as the constructor receives it. *)
Record PartialConfig := {
  p_maxAttempts : option Z;
  p_windowMs : option Z;
  p_blockDurationMs : option Z;
}.

Definition constructor (cfg : option PartialConfig) : t :=
  {| attempts := ∅;
     config :=
       {| maxAttempts := num_or (cfg ≫= p_maxAttempts) 5;
          windowMs := num_or (cfg ≫= p_windowMs) (15 * 60 * 1000);
          blockDurationMs := num_or (cfg ≫= p_blockDurationMs) (15 * 60 * 1000) |} |}.

Definition with_attempts (rl : t) (m : gmap string AttemptRecord) : t :=
  {| attempts := m; config := config rl |}.

Record CheckResult := {
  isAllowed : bool;
  retryAfter : option Z;
  attemptsRemaining : option Z;
}.

(** [record.blockedUntil && record.blockedUntil > now] *)
Definition currently_blocked (record : AttemptRecord) (now : Z) : bool :=
  match blockedUntil record with
  | Some b => negb (b =? 0) && (b >? now)
  | None => false
  end.

Definition checkLimit (now : Z) (identifier : string) (rl : t) : CheckResult * t :=
  match attempts rl !! identifier with
  | None =>
      ({| isAllowed := true; retryAfter := None;
          attemptsRemaining := Some (maxAttempts (config rl) - 1) |}, rl)
  | Some record =>
      if currently_blocked record now then
        ({| isAllowed := false;
            retryAfter :=
              Some (Math_ceil_div (default 0 (blockedUntil record) - now) 1000);
            attemptsRemaining := None |}, rl)
      else
        let timeSinceFirst := now - firstAttemptTime record in
        if timeSinceFirst >? windowMs (config rl) then
          ({| isAllowed := true; retryAfter := None;
              attemptsRemaining := Some (maxAttempts (config rl) - 1) |},
           with_attempts rl (delete identifier (attempts rl)))
        else if count record >=? maxAttempts (config rl) then
          let blockedUntil' := now + blockDurationMs (config rl) in
          ({| isAllowed := false;
              retryAfter := Some (Math_ceil_div (blockDurationMs (config rl)) 1000);
              attemptsRemaining := None |},
           with_attempts rl
             (<[identifier :=
                  {| count := count record;
                     firstAttemptTime := firstAttemptTime record;
                     blockedUntil := Some blockedUntil' |}]> (attempts rl)))
        else
          ({| isAllowed := true; retryAfter := None;
              attemptsRemaining :=
                Some (maxAttempts (config rl) - count record - 1) |}, rl)
  end.

(** [!record || (now - record.firstAttemptTime) > this.config.windowMs] *)
Definition starts_new_window (now : Z) (rl : t) (record : option AttemptRecord) : bool :=
  match record with
  | None => true
  | Some r => now - firstAttemptTime r >? windowMs (config rl)
  end.

Definition recordAttempt (now : Z) (identifier : string) (rl : t) : t :=
  let record := attempts rl !! identifier in
  if starts_new_window now rl record then
    with_attempts rl
      (<[identifier :=
           {| count := 1; firstAttemptTime := now; blockedUntil := None |}]>
         (attempts rl))
  else
    match record with
    | Some r =>
        with_attempts rl
          (<[identifier :=
               {| count := count r + 1;
                  firstAttemptTime := firstAttemptTime r;
                  blockedUntil := blockedUntil r |}]> (attempts rl))
    | None => rl
    end.

Definition reset (identifier : string) (rl : t) : t :=
  with_attempts rl (delete identifier (attempts rl)).

Definition clearAll (rl : t) : t := with_attempts rl ∅.

(** The two exported singletons. *)
Definition authRateLimiter : t :=
  constructor (Some {| p_maxAttempts := Some 5;
                       p_windowMs := Some (15 * 60 * 1000);
                       p_blockDurationMs := Some (15 * 60 * 1000) |}).

Definition apiRateLimiter : t :=
  constructor (Some {| p_maxAttempts := Some 100;
                       p_windowMs := Some (60 * 1000);
                       p_blockDurationMs := Some (60 * 1000) |}).

(** Several [recordAttempt] calls in a row, at the given times. *)
Definition recordAttempts (times : list Z) (identifier : string) (rl : t) : t :=
  foldl (fun acc now => recordAttempt now identifier acc) rl times.

(** Several [checkLimit] calls in a row, with nothing recorded in
    between; the answers come back in call order. *)
Fixpoint checkLimits (times : list Z) (identifier : string) (rl : t)
  : list CheckResult * t :=
  match times with
  | [] => ([], rl)
  | now :: rest =>
      let '(r, rl1) := checkLimit now identifier rl in
      let '(rs, rl2) := checkLimits rest identifier rl1 in
      (r :: rs, rl2)
  end.

(** A check answer that denies with a positive wait. *)
Definition denied (r : CheckResult) : Prop :=
  isAllowed r = false ∧ ∃ s, retryAfter r = Some s ∧ 0 < s.

End RateLimiter.

(** ** constants/auth.ts and constants/routes.ts *)

Module STORAGE_KEYS.
Definition ACCESS_TOKEN : string := "access_token".
Definition REFRESH_TOKEN : string := "refresh_token".
Definition USER : string := "user".
End STORAGE_KEYS.

Definition TOKEN_REFRESH_THRESHOLD_MS : Z := 10 * 60 * 1000.

Definition LOGOUT_ERROR_CODES : list string :=
  ["user_not_found"; "user_inactive"; "token_not_valid"].

Definition AUTH_MESSAGES : list (string * string) :=
  [ ("register_success", "Registration successful! Please check your email.");
    ("resent_code", "Confirmation code resent.");
    ("email_confirmed", "Email confirmed successfully.");
    ("email_confirmed_and_logged_in", "Email confirmed. You are now logged in.");
    ("email_sent", "Email sent successfully.");
    ("password_reset_success", "Password changed successfully.");
    ("password_reset_request_success", "Password reset successful.");
    ("error", "An error occurred. Please try again.");
    ("passwords_mismatch", "Passwords do not match.");
    ("bad_email", "Invalid email address.");
    ("bad_data", "Invalid data provided.");
    ("invalid_data", "Invalid or expired link.");
    ("wrong_data", "Incorrect email or password.");
    ("reset_psw", "Please reset your password.");
    ("account_block", "Your account has been blocked.");
    ("invalid", "Invalid credentials.") ].

(** [AUTH_MESSAGES[key]]: [None] stands for [undefined]. *)
Fixpoint table_get (table : list (string * string)) (key : string) : option string :=
  match table with
  | [] => None
  | (k, v) :: rest => if String.eqb k key then Some v else table_get rest key
  end.

(** [AUTH_MESSAGES[key] || AUTH_MESSAGES.error] *)
Definition auth_message_or_error (key : option string) : string :=
  let found := key ≫= table_get AUTH_MESSAGES in
  if truthy_str found then default "" found
  else default "" (table_get AUTH_MESSAGES "error").

Definition auth_message (key : string) : string :=
  default "" (table_get AUTH_MESSAGES key).

Module API_ROUTES.
Definition login : string := "/auth/login/".
Definition logout : string := "/auth/logout/".
Definition refresh : string := "/auth/token/refresh/".
Definition signup : string := "/auth/registration/".
Definition resendEmail : string := "/resend-email-confirmation/".
Definition confirmEmail : string := "/auth/registration/account-confirm-email/".
Definition changePassword : string := "/auth/password/change/".
Definition resetPassword : string := "/auth/password/reset/".
Definition resetPasswordConfirm : string := "/auth/password/reset/confirm/".
Definition profile : string := "/api/auth/profile/".
End API_ROUTES.

Definition NO_AUTH_REQUIRED_API_ROUTES : list string :=
  [ API_ROUTES.login; API_ROUTES.refresh; API_ROUTES.signup;
    API_ROUTES.resendEmail; API_ROUTES.confirmEmail;
    API_ROUTES.resetPassword; API_ROUTES.resetPasswordConfirm ].

(** ** Platform libraries the store calls into

    [jwt-decode] and [JSON] are not part of the repository.  [jwtDecode]
    returns [None] where the library throws.  The store reads the [exp]
    claim only through the product [exp * 1000], and [exp] of a decoded
    payload is the number JavaScript takes the claim for in that product:
    [Some e] when it is the integer [e] (a number; also [null] and
    [false], taken for 0, [true] for 1, a numeric string or a one-element
    array for the number it holds), [None] when the product is NaN (no
    [exp] claim, [undefined], any other string, an object), in which case
    every comparison is false.  Claims that are fractional or infinite
    are not modelled.  [JSON_parse] returns [None] where [JSON.parse]
    throws. *)

Record JwtPayload := { exp : option Z }.

Class Platform := {
  User : Type;
  JSON_stringify : User → string;
  JSON_parse : string → option User;
  jwtDecode : string → option JwtPayload;
}.

(** ** Wire types (types/auth.ts, as the store uses them) *)

Record LoginRequest := {
  email : string;
  password : string;
  googlecode : option string;
}.

Record SignupRequest := {
  su_email : string;
  password1 : string;
  password2 : string;
}.

Record ResetPasswordRequest := { rp_email : string }.

Record ResetPasswordConfirmRequest := {
  uid : string;
  rpc_token : string;
  rpc_new_password1 : string;
  rpc_new_password2 : string;
}.

Record ChangePasswordRequest := {
  old_password : string;
  new_password1 : string;
  new_password2 : string;
}.

Inductive RequestBody :=
| NoBody
| LoginBody (credentials : LoginRequest)
| RefreshBody (refresh : string)
| ResendBody (token : string)
| ConfirmBody (key : string)
| SignupBody (data : SignupRequest)
| ResetBody (data : ResetPasswordRequest)
| ResetConfirmBody (data : ResetPasswordConfirmRequest)
| ChangePasswordBody (data : ChangePasswordRequest).

Record LoginResponse `{Platform} := {
  lr_access : string;
  lr_refresh : string;
  lr_user : User;
}.

Record TokenResponse := {
  tr_access : string;
  tr_refresh : string;
}.

(** Body of the resend endpoint's answer, read as [data?.Status] and
    [data?.code]. *)
Record ResendResponse := {
  Status : option bool;
  rs_code : option string;
}.

Record ConfirmEmailResponse `{Platform} := {
  detail : string;
  ce_access : option string;
  ce_refresh : option string;
  ce_user : option User;
}.

(** The [code] member of an error body: a plain string (change-password
    errors) or an object with a [message] (401 bodies the interceptor
    inspects). *)
Inductive CodeField :=
| CodeStr (s : string)
| CodeObj (message : option string).

(** An error body [error.response.data], with the members the client
    reads; arrays are [list string]. *)
Record ErrorData := {
  e_token : option (list string);
  e_type : option (list string);
  e_message : option (list string);
  e_email : option (list string);
  e_non_field_errors : option (list string);
  e_uid : option (list string);
  e_code : option CodeField;
}.

Record ErrorResponse := {
  status : Z;
  data : option ErrorData;
}.

Record RequestConfig := {
  url : option string;
  Authorization : option string;
  body : RequestBody;
}.

Record AxiosError := {
  response : option ErrorResponse;
  config : option RequestConfig;
}.

(** One awaited HTTP exchange as the store sees it: the time that passes
    while the call is in flight, and whether the promise resolves with the
    response body or rejects. *)
Inductive Reply (A : Type) :=
| Resolve (payload : A)
| Reject (err : AxiosError).
Arguments Resolve {A} payload.
Arguments Reject {A} err.

Record Exchange (A : Type) := {
  elapsed : Z;
  reply : Reply A;
}.
Arguments elapsed {A} _.
Arguments reply {A} _.

(** ** Session state and the world the store runs in *)

Record AuthState := {
  isLogged : bool;
  isLoading : bool;
  confirmEmailToken : option string;
}.

(** The argument of zustand's [set]: the members to overwrite. *)
Record Patch := {
  set_isLogged : option bool;
  set_isLoading : option bool;
  set_confirmEmailToken : option (option string);
}.

Definition merge (s : AuthState) (p : Patch) : AuthState :=
  {| isLogged := default (isLogged s) (set_isLogged p);
     isLoading := default (isLoading s) (set_isLoading p);
     confirmEmailToken := default (confirmEmailToken s) (set_confirmEmailToken p) |}.

Inductive AuthResult :=
| success | confirm_email | go2fa | otp_fail
| wrong_data | reset_psw | account_block | invalid | error.

(** ['sent' | 'in_progress' | 'error'] *)
Inductive ResendResult := resend_sent | resend_in_progress | resend_error.

Inductive Message :=
| Text (s : string)
(** [`Too many ${what} attempts. Please try again in ${minutes} minute(s).`] *)
| TooMany (what : string) (minutes : Z).

Inductive Toast :=
| toast_dismiss
| toast_error (m : Message)
| toast_success (m : Message).

(** What an observer of the store can see, newest first in [trace]. *)
Inductive Event :=
| EvSet (after : AuthState)
| EvPost (route : string) (payload : RequestBody)
| EvWire (request : RequestConfig)
| EvToast (t : Toast)
| EvLog (level message : string)
| EvCheckLimit (identifier : string)
| EvRecordAttempt (identifier : string)
| EvReset (identifier : string)
| EvCallback (name : string).

Record World := {
  session : AuthState;
  localStorage : gmap string string;
  limiter : RateLimiter.t;
  clock : Z;
  trace : list Event;
  (** [logOut()] calls that were started without [await] and have not
      gone on since: each one is suspended at its [api.post], before the
      request interceptor has seen its request *)
  detached : nat;
}.

(** ** Async functions as a state-and-exception monad

    An awaited async call either returns, throws (its promise rejects), or
    never settles; code after an unsettled [await] does not run. *)

Inductive Completion (A : Type) :=
| Returned (a : A)
| Thrown (e : AxiosError)
| Unsettled.
Arguments Returned {A} a.
Arguments Thrown {A} e.
Arguments Unsettled {A}.

Definition M (A : Type) : Type := World → Completion A * World.

Definition ret {A} (a : A) : M A := fun w => (Returned a, w).

Definition bind {A B} (m : M A) (k : A → M B) : M B :=
  fun w =>
    match m w with
    | (Returned a, w1) => k a w1
    | (Thrown e, w1) => (Thrown e, w1)
    | (Unsettled, w1) => (Unsettled, w1)
    end.

Definition throw {A} (e : AxiosError) : M A := fun w => (Thrown e, w).

Definition unsettled {A} : M A := fun w => (Unsettled, w).

Definition try_catch {A} (m : M A) (handler : AxiosError → M A) : M A :=
  fun w =>
    match m w with
    | (Thrown e, w1) => handler e w1
    | other => other
    end.

Definition try_finally {A} (m : M A) (finalizer : M unit) : M A :=
  fun w =>
    match m w with
    | (Unsettled, w1) => (Unsettled, w1)
    | (c, w1) =>
        match finalizer w1 with
        | (Returned _, w2) => (c, w2)
        | (Thrown e, w2) => (Thrown e, w2)
        | (Unsettled, w2) => (Unsettled, w2)
        end
    end.

Notation "x <- m ;; k" := (bind m (fun x => k))
  (at level 100, m at next level, right associativity).
Notation "m ;; k" := (bind m (fun _ => k))
  (at level 100, right associativity).

Definition emit (e : Event) : M unit :=
  fun w =>
    (Returned tt,
     {| session := session w; localStorage := localStorage w;
        limiter := limiter w; clock := clock w;
        trace := e :: trace w; detached := detached w |}).

(** zustand's [set(patch)] *)
Definition set (p : Patch) : M unit :=
  fun w =>
    let s := merge (session w) p in
    (Returned tt,
     {| session := s; localStorage := localStorage w;
        limiter := limiter w; clock := clock w;
        trace := EvSet s :: trace w; detached := detached w |}).

Definition with_storage (w : World) (ls : gmap string string) : World :=
  {| session := session w; localStorage := ls;
     limiter := limiter w; clock := clock w;
     trace := trace w; detached := detached w |}.

Definition with_limiter (w : World) (rl : RateLimiter.t) : World :=
  {| session := session w; localStorage := localStorage w;
     limiter := rl; clock := clock w;
     trace := trace w; detached := detached w |}.

Definition with_clock (w : World) (now : Z) : World :=
  {| session := session w; localStorage := localStorage w;
     limiter := limiter w; clock := now;
     trace := trace w; detached := detached w |}.

Definition with_detached (w : World) (n : nat) : World :=
  {| session := session w; localStorage := localStorage w;
     limiter := limiter w; clock := clock w;
     trace := trace w; detached := n |}.

Definition Date_now : M Z := fun w => (Returned (clock w), w).

Definition toast (t : Toast) : M unit := emit (EvToast t).

Definition logger_error (message : string) : M unit := emit (EvLog "error" message).
Definition logger_warn (message : string) : M unit := emit (EvLog "warn" message).

(** The request leaves ([issue]); the caller is suspended until the
    exchange settles ([await]). *)
Definition issue (route : string) (payload : RequestBody) : M unit :=
  emit (EvPost route payload).

Definition await {A} (x : Exchange A) : M A :=
  fun w =>
    let w1 := with_clock w (clock w + elapsed x) in
    match reply x with
    | Resolve a => (Returned a, w1)
    | Reject e => (Thrown e, w1)
    end.

(** [authRateLimiter], the instance the store shares. *)
Definition limiter_checkLimit (identifier : string) : M RateLimiter.CheckResult :=
  fun w =>
    let '(r, rl) := RateLimiter.checkLimit (clock w) identifier (limiter w) in
    (emit (EvCheckLimit identifier) ;; ret r) (with_limiter w rl).

Definition limiter_recordAttempt (identifier : string) : M unit :=
  fun w =>
    emit (EvRecordAttempt identifier)
      (with_limiter w (RateLimiter.recordAttempt (clock w) identifier (limiter w))).

Definition limiter_reset (identifier : string) : M unit :=
  fun w =>
    emit (EvReset identifier)
      (with_limiter w (RateLimiter.reset identifier (limiter w))).

(** ** stores/useAuthStore.ts *)

Section Store.
Context `{Platform}.

(** *** Helpers *)

Definition storage_getAccessToken : M (option string) :=
  fun w => (Returned (localStorage w !! STORAGE_KEYS.ACCESS_TOKEN), w).

Definition storage_getRefreshToken : M (option string) :=
  fun w => (Returned (localStorage w !! STORAGE_KEYS.REFRESH_TOKEN), w).

Definition storage_removeUser : M unit :=
  fun w => (Returned tt, with_storage w (delete STORAGE_KEYS.USER (localStorage w))).

Definition storage_getUser : M (option User) :=
  fun w =>
    let item := localStorage w !! STORAGE_KEYS.USER in
    if negb (truthy_str item) then (Returned None, w)
    else
      match JSON_parse (default "" item) with
      | Some user => (Returned (Some user), w)
      | None => (storage_removeUser ;; ret None) w
      end.

Definition storage_setTokens (access refresh : string) : M unit :=
  fun w =>
    (Returned tt,
     with_storage w
       (<[STORAGE_KEYS.REFRESH_TOKEN := refresh]>
          (<[STORAGE_KEYS.ACCESS_TOKEN := access]> (localStorage w)))).

Definition storage_setUser (user : User) : M unit :=
  fun w =>
    (Returned tt,
     with_storage w (<[STORAGE_KEYS.USER := JSON_stringify user]> (localStorage w))).

Definition storage_clear : M unit :=
  fun w =>
    (Returned tt,
     with_storage w
       (delete STORAGE_KEYS.USER
          (delete STORAGE_KEYS.REFRESH_TOKEN
             (delete STORAGE_KEYS.ACCESS_TOKEN (localStorage w))))).

Definition isTokenValid (token : option string) (now : Z) : bool :=
  if negb (truthy_str token) then false
  else
    match jwtDecode (default "" token) with
    | Some {| exp := Some exp |} => exp * 1000 >? now
    | Some {| exp := None |} => false
    | None => false
    end.

Definition isTokenExpiringSoon (token : string) (now : Z) : bool :=
  match jwtDecode token with
  | Some {| exp := Some exp |} =>
      let timeToExpire := exp * 1000 - now in
      timeToExpire <=? TOKEN_REFRESH_THRESHOLD_MS
  | Some {| exp := None |} => false
  | None => true
  end.

(** The store's initial state. *)
Definition initial_session (ls : gmap string string) (now : Z) : AuthState :=
  {| isLogged := isTokenValid (ls !! STORAGE_KEYS.REFRESH_TOKEN) now;
     isLoading := false;
     confirmEmailToken := None |}.

(** [Math.ceil((rateLimitCheck.retryAfter || 0) / 60)] *)
Definition wait_minutes (check : RateLimiter.CheckResult) : Z :=
  Math_ceil_div (num_or (RateLimiter.retryAfter check) 0) 60.

(** [arr?.[0]] *)
Definition first (arr : option (list string)) : option string := arr ≫= head.

(** [a || b] on possibly missing strings *)
Definition str_or (a b : option string) : option string :=
  if truthy_str a then a else b.

Definition str_is (a : option string) (s : string) : bool :=
  match a with
  | Some v => String.eqb v s
  | None => false
  end.

(** An array member of an error body is truthy as soon as it is there. *)
Definition present {A} (x : option A) : bool :=
  match x with Some _ => true | None => false end.

(** [error?.response?.data] *)
Definition error_data (err : AxiosError) : option ErrorData :=
  response err ≫= data.

Definition knownErrors : list string :=
  ["wrong_data"; "reset_psw"; "account_block"; "invalid"].

(** [errorType as AuthResult], for a member of [knownErrors] *)
Definition as_AuthResult (errorType : string) : AuthResult :=
  if String.eqb errorType "wrong_data" then wrong_data
  else if String.eqb errorType "reset_psw" then reset_psw
  else if String.eqb errorType "account_block" then account_block
  else if String.eqb errorType "invalid" then invalid
  else error.

Definition loading (b : bool) : Patch :=
  {| set_isLogged := None; set_isLoading := Some b; set_confirmEmailToken := None |}.

(** *** A [logOut()] that is not awaited *)

(** [logOut] up to its [await]: the logout request has been handed to the
    client. *)
Definition logOut_start : M unit :=
  set (loading true) ;;
  toast toast_dismiss ;;
  issue API_ROUTES.logout NoBody.

(** [get().logOut()] and [logOut()] without [await]: the call runs up to
    its first suspension point and the caller goes on. *)
Definition logOut_detached : M unit :=
  logOut_start ;;
  fun w => (Returned tt, with_detached w (S (detached w))).

(** *** Requests to the routes of [NO_AUTH_REQUIRED_API_ROUTES] *)

(** [(response.data as any)?.code?.message || ''] *)
Definition errorCode (response : ErrorResponse) : string :=
  match data response ≫= e_code with
  | Some (CodeObj (Some message)) => message
  | _ => ""
  end.

(** What the rejection handler of the response interceptor
    (src/lib/axios.ts) does before it rejects with the error it was
    given, when the request went to a route of
    [NO_AUTH_REQUIRED_API_ROUTES]: [shouldAttemptRefresh] is false there,
    so all that is left of the handler is the [logOut()] it starts on a
    401 whose [code.message] is one of [LOGOUT_ERROR_CODES]. *)
Definition rejected_open (error : AxiosError) : M unit :=
  match response error, config error with
  | Some response, Some _ =>
      if status response =? 503 then ret tt
      else if status response =? 401 then
        if includes LOGOUT_ERROR_CODES (errorCode response) then logOut_detached
        else ret tt
      else ret tt
  | _, _ => ret tt
  end.

(** [await api.post(route, payload)] for a [route] of
    [NO_AUTH_REQUIRED_API_ROUTES]: the request interceptor returns the
    request at once, the exchange [x] is what the backend does with it,
    and a rejection passes the rejection handler on its way to the
    caller. *)
Definition post {A} (route : string) (payload : RequestBody) (x : Exchange A) : M A :=
  issue route payload ;;
  try_catch (await x) (fun error => rejected_open error ;; throw error).

(** *** resendConfirmationEmail *)

Definition resend_key (token : string) : string := "resend:" +:+ token.

Definition resendConfirmationEmail (token : string) (x : Exchange ResendResponse)
  : M ResendResult :=
  rateLimitCheck <- limiter_checkLimit (resend_key token) ;;
  if negb (RateLimiter.isAllowed rateLimitCheck) then
    toast (toast_error (TooMany "resend" (wait_minutes rateLimitCheck))) ;;
    ret resend_error
  else
    try_catch
      (data <- post API_ROUTES.resendEmail (ResendBody token) x ;;
       if default false (Status data) then
         limiter_recordAttempt (resend_key token) ;;
         toast (toast_success (Text (auth_message "resent_code"))) ;;
         ret resend_sent
       else if str_is (rs_code data) "Email confirmation in progress" then
         toast (toast_error (Text
           "A confirmation email was recently sent. Please wait 5 minutes before requesting another one.")) ;;
         ret resend_in_progress
       else
         limiter_recordAttempt (resend_key token) ;;
         toast (toast_error (Text (auth_message "error"))) ;;
         ret resend_error)
      (fun _ =>
         limiter_recordAttempt (resend_key token) ;;
         logger_error "Failed to resend confirmation" ;;
         ret resend_error).

(** *** logIn *)

(** The [catch] block of [logIn], after the failed attempt was recorded
    and the one-time-code case was ruled out. *)
Definition logIn_classify (errorData : ErrorData) (x_resend : Exchange ResendResponse)
  : M AuthResult :=
  if truthy_str (first (e_token errorData)) then
    let token0 := default "" (first (e_token errorData)) in
    set {| set_isLogged := None; set_isLoading := None;
           set_confirmEmailToken := Some (Some token0) |} ;;
    sent <- resendConfirmationEmail token0 x_resend ;;
    set (loading false) ;;
    ret (match sent with resend_error => error | _ => confirm_email end)
  else
    let errorType := str_or (first (e_type errorData)) (first (e_message errorData)) in
    if str_is errorType "two_fa_failed" then
      set (loading false) ;;
      emit (EvCallback "onRequire2FA") ;;
      ret go2fa
    else if truthy_str errorType && includes knownErrors (default "" errorType) then
      set (loading false) ;;
      toast (toast_error (Text (auth_message_or_error errorType))) ;;
      ret (as_AuthResult (default "" errorType))
    else
      set (loading false) ;;
      ret error.

Definition logIn (credentials : LoginRequest)
    (x_login : Exchange LoginResponse) (x_resend : Exchange ResendResponse)
  : M AuthResult :=
  rateLimitCheck <- limiter_checkLimit (email credentials) ;;
  if negb (RateLimiter.isAllowed rateLimitCheck) then
    toast (toast_error (TooMany "login" (wait_minutes rateLimitCheck))) ;;
    ret error
  else
    set (loading true) ;;
    toast toast_dismiss ;;
    try_catch
      (data <- post API_ROUTES.login (LoginBody credentials) x_login ;;
       limiter_reset (email credentials) ;;
       storage_setTokens (lr_access data) (lr_refresh data) ;;
       storage_setUser (lr_user data) ;;
       set {| set_isLogged := Some true; set_isLoading := Some false;
              set_confirmEmailToken := Some None |} ;;
       ret success)
      (fun err =>
         limiter_recordAttempt (email credentials) ;;
         if truthy_str (googlecode credentials) then
           set (loading false) ;;
           ret otp_fail
         else
           match error_data err with
           | None =>
               set (loading false) ;;
               ret error
           | Some errorData => logIn_classify errorData x_resend
           end).

(** *** getAccessToken *)

Definition getAccessToken (x_refresh : Exchange TokenResponse) : M (option string) :=
  accessToken <- storage_getAccessToken ;;
  refreshToken <- storage_getRefreshToken ;;
  if negb (truthy_str accessToken) then ret None
  else
    now <- Date_now ;;
    if negb (isTokenExpiringSoon (default "" accessToken) now) then ret accessToken
    else if negb (truthy_str refreshToken) then
      logOut_detached ;;
      ret None
    else
      try_catch
        (data <- post API_ROUTES.refresh (RefreshBody (default "" refreshToken)) x_refresh ;;
         storage_setTokens (tr_access data) (tr_refresh data) ;;
         ret (Some (tr_access data)))
        (fun _ =>
           logger_error "Token refresh failed" ;;
           logOut_detached ;;
           ret None).

Definition getUser : M (option User) := storage_getUser.

(** *** Registration *)

Definition register (data : SignupRequest) (x : Exchange unit) : M bool :=
  if negb (String.eqb (password1 data) (password2 data)) then
    toast (toast_error (Text (auth_message "passwords_mismatch"))) ;;
    ret false
  else
    set (loading true) ;;
    toast toast_dismiss ;;
    try_finally
      (try_catch
         (post API_ROUTES.signup (SignupBody data) x ;;
          toast (toast_success (Text (auth_message "register_success"))) ;;
          ret true)
         (fun err =>
            let errorData := error_data err in
            (if present (errorData ≫= e_email) then
               toast (toast_error (Text (auth_message "bad_email")))
             else if present (errorData ≫= e_non_field_errors) then
               toast (toast_error (Text (auth_message "bad_data")))
             else
               toast (toast_error (Text (auth_message "error")))) ;;
            ret false))
      (set (loading false)).

Definition verify_key (code : string) : string := "verify:" +:+ code.

Definition confirmEmail (code : string) (x : Exchange ConfirmEmailResponse) : M bool :=
  rateLimitCheck <- limiter_checkLimit (verify_key code) ;;
  if negb (RateLimiter.isAllowed rateLimitCheck) then
    toast (toast_error (TooMany "verification" (wait_minutes rateLimitCheck))) ;;
    ret false
  else
    set (loading true) ;;
    toast toast_dismiss ;;
    try_finally
      (try_catch
         (data <- post API_ROUTES.confirmEmail (ConfirmBody code) x ;;
          limiter_reset (verify_key code) ;;
          set {| set_isLogged := None; set_isLoading := None;
                 set_confirmEmailToken := Some None |} ;;
          (if truthy_str (ce_access data) && truthy_str (ce_refresh data) then
             storage_setTokens (default "" (ce_access data)) (default "" (ce_refresh data)) ;;
             match ce_user data with
             | Some user =>
                 storage_setUser user ;;
                 set {| set_isLogged := Some true; set_isLoading := Some false;
                        set_confirmEmailToken := None |} ;;
                 toast (toast_success (Text (auth_message "email_confirmed_and_logged_in")))
             | None =>
                 logger_warn "No user data in confirmation response. Setting logged in but user may need to fetch profile." ;;
                 set {| set_isLogged := Some true; set_isLoading := Some false;
                        set_confirmEmailToken := None |} ;;
                 toast (toast_success (Text (auth_message "email_confirmed_and_logged_in")))
             end
           else
             logger_warn "No tokens in confirmation response" ;;
             toast (toast_success (Text (auth_message "email_confirmed")))) ;;
          ret true)
         (fun _ =>
            limiter_recordAttempt (verify_key code) ;;
            logger_error "Email confirmation failed" ;;
            toast (toast_error (Text (auth_message "error"))) ;;
            ret false))
      (set (loading false)).

(** *** Password management *)

Definition requestPasswordReset (data : ResetPasswordRequest) (x : Exchange unit) : M bool :=
  set (loading true) ;;
  toast toast_dismiss ;;
  try_finally
    (try_catch
       (post API_ROUTES.resetPassword (ResetBody data) x ;;
        toast (toast_success (Text (auth_message "email_sent"))) ;;
        ret true)
       (fun err =>
          (if present (error_data err ≫= e_email) then
             toast (toast_error (Text (auth_message "bad_email")))
           else ret tt) ;;
          ret false))
    (set (loading false)).

Definition resetPassword (data : ResetPasswordConfirmRequest) (x : Exchange unit) : M bool :=
  set (loading true) ;;
  toast toast_dismiss ;;
  try_finally
    (try_catch
       (post API_ROUTES.resetPasswordConfirm (ResetConfirmBody data) x ;;
        toast (toast_success (Text (auth_message "password_reset_request_success"))) ;;
        ret true)
       (fun err =>
          let errorData := error_data err in
          (if present (errorData ≫= e_uid) || present (errorData ≫= e_token) then
             toast (toast_error (Text (auth_message "invalid_data")))
           else
             toast (toast_error (Text (auth_message "error")))) ;;
          ret false))
    (set (loading false)).

(** [error?.response?.data?.code] used as a key of [AUTH_MESSAGES] *)
Definition error_code_key (err : AxiosError) : option string :=
  match error_data err ≫= e_code with
  | Some (CodeStr s) => Some s
  | Some (CodeObj _) => Some "[object Object]"
  | None => None
  end.

End Store.

(** ** src/lib/axios.ts *)

(** What the backend does with one request that reaches the wire: a 2xx
    response (the promise resolves), or a failure, with the error response
    when the server produced one. *)
Inductive Outcome :=
| Ok (payload : string)
| Fail (response : option ErrorResponse).

Record Answer := {
  took : Z;
  outcome : Outcome;
}.

(** The backend: its answer to the [k]-th submission of a request, and to
    the refresh calls the interceptors may make around submission [k]
    (index [2k] before it, [2k+1] after it). *)
Record Server := {
  answer : nat → RequestConfig → Answer;
  refreshes : nat → Exchange TokenResponse;
}.

Section Interceptors.
Context `{Platform}.

(** [config.headers.Authorization = `Bearer ${token}`] *)
Definition with_bearer (request : RequestConfig) (token : string) : RequestConfig :=
  {| url := url request;
     Authorization := Some ("Bearer " +:+ token);
     body := body request |}.

Definition requestInterceptor (request : RequestConfig)
    (x_refresh : Exchange TokenResponse) : M RequestConfig :=
  if includes NO_AUTH_REQUIRED_API_ROUTES (default "" (url request)) then ret request
  else
    token <- getAccessToken x_refresh ;;
    if truthy_str token then ret (with_bearer request (default "" token))
    else ret request.

Definition shouldAttemptRefresh (originalRequest : RequestConfig) : bool :=
  negb (includes NO_AUTH_REQUIRED_API_ROUTES (default "" (url originalRequest)))
  && negb (str_is (url originalRequest) API_ROUTES.refresh).

(** The rejection handler of the response interceptor.  [resubmit] is
    [api] itself: [return api(originalRequest)] hands the request back to
    the same intercepted client, and the promise it returns is the
    handler's result (a rejection of the resubmission is not caught by
    the surrounding [try]). *)
Definition responseRejected (resubmit : RequestConfig → M string)
    (x_refresh : Exchange TokenResponse) (error : AxiosError) : M string :=
  match response error, config error with
  | Some response, Some originalRequest =>
      if status response =? 503 then throw error
      else if status response =? 401 then
        if includes LOGOUT_ERROR_CODES (errorCode response) then
          logOut_detached ;;
          throw error
        else if shouldAttemptRefresh originalRequest then
          retry <- try_catch
                     (newToken <- getAccessToken x_refresh ;;
                      if truthy_str newToken then
                        ret (Some (with_bearer originalRequest (default "" newToken)))
                      else ret None)
                     (fun _ => logOut_detached ;; ret None) ;;
          match retry with
          | Some request => resubmit request
          | None => throw error
          end
        else throw error
      else throw error
  | _, _ => throw error
  end.

Definition advance (ms : Z) : M unit :=
  fun w => (Returned tt, with_clock w (clock w + ms)).

(** A call through the intercepted client, the way axios runs the
    interceptors registered on an instance for every request made through
    it: request interceptor, the wire, and on failure the rejection handler
    of the response interceptor, which may hand the request back to the
    client.  [fuel] bounds the number of submissions followed; a call that
    needs more is [Unsettled]. *)
Fixpoint api (fuel : nat) (srv : Server) (k : nat) (request : RequestConfig) : M string :=
  match fuel with
  | O => unsettled
  | S fuel' =>
      sent <- requestInterceptor request (refreshes srv (2 * k)) ;;
      emit (EvWire sent) ;;
      advance (took (answer srv k sent)) ;;
      match outcome (answer srv k sent) with
      | Ok payload => ret payload
      | Fail resp =>
          responseRejected (api fuel' srv (S k)) (refreshes srv (2 * k + 1))
            {| response := resp; config := Some sent |}
      end
  end.

End Interceptors.

(** ** stores/useAuthStore.ts: the operations that call protected routes

    [API_ROUTES.logout] and [API_ROUTES.changePassword] are not in
    [NO_AUTH_REQUIRED_API_ROUTES]: the request interceptor asks
    [getAccessToken] for a bearer before the request leaves, and the
    rejection handler may refresh and resubmit.  These two operations
    therefore run [api]; the backend is a [Server] and [fuel] bounds the
    submissions followed. *)

Section Protected.
Context `{Platform}.

(** The request [api.post(API_ROUTES.logout)] hands to the client. *)
Definition logout_request : RequestConfig :=
  {| url := Some API_ROUTES.logout; Authorization := None; body := NoBody |}.

(** [logOut] from its [await] on. *)
Definition logOut_resume (fuel : nat) (srv : Server) : M unit :=
  try_catch
    (api fuel srv 0 logout_request ;; ret tt)
    (fun _ => logger_error "Logout request failed") ;;
  storage_clear ;;
  set {| set_isLogged := Some false; set_isLoading := Some false;
         set_confirmEmailToken := Some None |}.

(** [await logOut()] *)
Definition logOut (fuel : nat) (srv : Server) : M unit :=
  logOut_start ;; logOut_resume fuel srv.



Definition changePassword_request (data : ChangePasswordRequest) : RequestConfig :=
  {| url := Some API_ROUTES.changePassword; Authorization := None;
     body := ChangePasswordBody data |}.

Definition changePassword (fuel : nat) (srv : Server) (data : ChangePasswordRequest)
  : M bool :=
  set (loading true) ;;
  toast toast_dismiss ;;
  try_finally
    (try_catch
       (issue API_ROUTES.changePassword (ChangePasswordBody data) ;;
        api fuel srv 0 (changePassword_request data) ;;
        toast (toast_success (Text (auth_message "password_reset_success"))) ;;
        ret true)
       (fun err =>
          toast (toast_error (Text (auth_message_or_error (error_code_key err)))) ;;
          ret false))
    (set (loading false)).

End Protected.

(** ** Reading a trace *)

Definition is_wire (e : Event) : bool :=
  match e with EvWire _ => true | _ => false end.

Definition is_post_to (route : string) (e : Event) : bool :=
  match e with EvPost r _ => String.eqb r route | _ => false end.

Definition count_events (p : Event → bool) (events : list Event) : nat :=
  length (List.filter p events).

(** The events [w1] has on top of [w0] are [new], oldest last. *)
Definition extends (w0 w1 : World) (new : list Event) : Prop :=
  trace w1 = new ++ trace w0.

(** An operation only adds to the trace, whatever it does and however
    it ends. *)
Definition grows {A} (m : M A) : Prop :=
  ∀ w, ∃ new, extends w (m w).2 new.

(** ** Predicates on worlds *)

(** The record [rec] counts one attempt more, made at [now], than the
    record [before] did: it is a first attempt ([count] 1, window opened
    at [now]) when there was no record or its window had elapsed, and the
    same window with one more attempt otherwise. *)
Definition one_more_attempt (windowMs now : Z)
    (before : option RateLimiter.AttemptRecord) (rec : RateLimiter.AttemptRecord) : Prop :=
  match before with
  | Some old =>
      if now - RateLimiter.firstAttemptTime old >? windowMs
      then RateLimiter.count rec = 1 ∧ RateLimiter.firstAttemptTime rec = now
      else RateLimiter.count rec = RateLimiter.count old + 1
           ∧ RateLimiter.firstAttemptTime rec = RateLimiter.firstAttemptTime old
  | None => RateLimiter.count rec = 1 ∧ RateLimiter.firstAttemptTime rec = now
  end.

(** After [rl0], the limiter [rl1] holds one attempt more under
    [identifier], made at [now]. *)
Definition attempt_recorded (now : Z) (identifier : string)
    (rl0 rl1 : RateLimiter.t) : Prop :=
  ∃ rec,
    RateLimiter.attempts rl1 !! identifier = Some rec
    ∧ one_more_attempt (RateLimiter.windowMs (RateLimiter.config rl0)) now
        (RateLimiter.attempts rl0 !! identifier) rec.

Definition storage_cleared (w : World) : Prop :=
  localStorage w !! STORAGE_KEYS.ACCESS_TOKEN = None
  ∧ localStorage w !! STORAGE_KEYS.REFRESH_TOKEN = None
  ∧ localStorage w !! STORAGE_KEYS.USER = None.

Definition signed_out (w : World) : Prop :=
  isLogged (session w) = false
  ∧ isLoading (session w) = false
  ∧ confirmEmailToken (session w) = None.

(** The world right after [api.post(route, payload)] has been answered:
    the call is in the trace and the time in flight has passed. *)
Definition answered {A} (route : string) (payload : RequestBody) (x : Exchange A)
    (w : World) : World :=
  with_clock (issue route payload w).2 (clock w + elapsed x).

(** The rejection handler of the response interceptor starts a [logOut()]
    for this error: the error carries a response and the request, and the
    response is a 401 whose [code.message] is one of
    [LOGOUT_ERROR_CODES]. *)
Definition forces_logout (error : AxiosError) : bool :=
  match response error, config error with
  | Some response, Some _ =>
      (status response =? 401) && includes LOGOUT_ERROR_CODES (errorCode response)
  | _, _ => false
  end.


(** The events a [logOut()] leaves before its [await], newest first, when
    it starts in session [s]. *)
Definition started_from (s : AuthState) : list Event :=
  [EvPost API_ROUTES.logout NoBody; EvToast toast_dismiss;
   EvSet (merge s (loading true))].


Definition is_set (e : Event) : bool :=
  match e with EvSet _ => true | _ => false end.






(** ** [RateLimiter.getExponentialBackoff]

    [Math.min(1000 * Math.pow(2, attemptCount - 1), 30000)] for an integer
    [attemptCount].  The value is a rational: 1000 times a power of two
    is exact in doubles wherever it is below the cap (for counts from zero
    up, and far below). *)
Definition getExponentialBackoff (attemptCount : Z) : Q :=
  let baseDelay := inject_Z 1000 in
  let maxDelay := inject_Z 30000 in
  Qmin (baseDelay * Qpower (inject_Z 2) (attemptCount - 1))%Q maxDelay.

(** ** src/lib/logger.ts: which calls reach the console *)

Module Logger.

Inductive LogLevel := log | info | warn | error | debug.

Record LoggerConfig := {
  enabled : bool;
  level : LogLevel;
}.

Record PartialConfig := {
  p_enabled : option bool;
  p_level : option LogLevel;
}.

(** [config?.enabled ?? import.meta.env.DEV] and [config?.level || 'error'];
    [DEV] is the build flag. *)
Definition constructor (DEV : bool) (cfg : option PartialConfig) : LoggerConfig :=
  {| enabled := default DEV (cfg ≫= p_enabled);
     level := default error (cfg ≫= p_level) |}.

Definition LogLevel_eqb (a b : LogLevel) : bool :=
  match a, b with
  | log, log | info, info | warn, warn | error, error | debug, debug => true
  | _, _ => false
  end.

(** [levels.indexOf(level)], -1 when absent *)
Fixpoint indexOf (levels : list LogLevel) (l : LogLevel) : Z :=
  match levels with
  | [] => -1
  | x :: rest =>
      if LogLevel_eqb x l then 0
      else
        let i := indexOf rest l in
        if i <? 0 then -1 else i + 1
  end.

Definition levels : list LogLevel := [debug; log; info; warn; error].

Definition shouldLog (cfg : LoggerConfig) (l : LogLevel) : bool :=
  if negb (enabled cfg) then false
  else
    let currentLevelIndex := indexOf levels (level cfg) in
    let requestedLevelIndex := indexOf levels l in
    requestedLevelIndex >=? currentLevelIndex.

Definition enable (cfg : LoggerConfig) : LoggerConfig :=
  {| enabled := true; level := level cfg |}.

Definition disable (cfg : LoggerConfig) : LoggerConfig :=
  {| enabled := false; level := level cfg |}.

(** The exported singleton, [new Logger()]. *)
Definition logger (DEV : bool) : LoggerConfig := constructor DEV None.

End Logger.

(** ** components/features/ProtectedRoute: what the wrapper renders *)

Module ROUTES.
Definition main : string := "/".
Definition home : string := "/home".
Definition login : string := "/login".
Definition register : string := "/register".
Definition verifyEmail : string := "/verify-email".
Definition forgotPassword : string := "/forgot-password".
Definition changePassword : string := "/change-password".
Definition profile : string := "/profile".
Definition notFound : string := "*".
End ROUTES.

Record ProtectedRouteProps := {
  redirectToLogin : option bool;
  redirectPath : option string;
  title : option string;
  message : option string;
}.

Inductive RouteView :=
| LoadingSpinner
| NavigateTo (to : string)
| AuthPrompt (title message : string)
| Outlet.

Definition ProtectedRoute (props : ProtectedRouteProps) (s : AuthState) : RouteView :=
  let redirectToLogin := default false (redirectToLogin props) in
  let redirectPath := default ROUTES.login (redirectPath props) in
  let title := default "Authentication Required" (title props) in
  let message := default "Please log in to access this page." (message props) in
  if isLoading s && negb (isLogged s) then LoadingSpinner
  else if negb (isLogged s) then
    if redirectToLogin then NavigateTo redirectPath
    else AuthPrompt title message
  else Outlet.

(** ** Calls in a row *)

(** Several awaited [logIn] calls with the same credentials, one exchange
    per call; the results come back in call order. *)
Fixpoint logIn_each `{Platform} (credentials : LoginRequest)
    (xs : list (Exchange LoginResponse)) (x_resend : Exchange ResendResponse)
  : M (list AuthResult) :=
  match xs with
  | [] => ret []
  | x :: rest =>
      r <- logIn credentials x x_resend ;;
      rs <- logIn_each credentials rest x_resend ;;
      ret (r :: rs)
  end.

(** ** More readings of a trace *)

Definition is_post (e : Event) : bool :=
  match e with EvPost _ _ => true | _ => false end.

Definition is_record (e : Event) : bool :=
  match e with EvRecordAttempt _ => true | _ => false end.


(** A plain rejection of a login: the request rejects and the failure
    does not enter the unconfirmed-email branch, because a one-time code
    was submitted or because the error carries no confirmation token
    (wrong password, blocked account, transport failure, ...). *)
Definition plain_login_failure `{Platform} (credentials : LoginRequest)
    (x : Exchange LoginResponse) : Prop :=
  ∃ err, reply x = Reject err
         ∧ (truthy_str (googlecode credentials) = true
            ∨ truthy_str (first (error_data err ≫= e_token)) = false).

(** Time spent in flight by a list of exchanges. *)
Definition total_elapsed {A} (xs : list (Exchange A)) : Z :=
  foldr (λ x acc, elapsed x + acc) 0 xs.


(** An operation was refused by the rate limiter for [identifier]: all it
    did between [w] and [w1] was the check and the "too many attempts"
    toast with the minutes to wait. *)
Definition refused_locally (what identifier : string) (w w1 : World) : Prop :=
  trace w1 =
    [EvToast (toast_error
                (TooMany what
                   (wait_minutes
                      (RateLimiter.checkLimit (clock w) identifier (limiter w)).1)));
     EvCheckLimit identifier] ++ trace w
  ∧ limiter w1 = (RateLimiter.checkLimit (clock w) identifier (limiter w)).2
  ∧ session w1 = session w
  ∧ localStorage w1 = localStorage w
  ∧ clock w1 = clock w
  ∧ detached w1 = detached w.

(** Between [w] and [w1] nothing that decides who is signed in changed:
    storage, limiter, [isLogged], [confirmEmailToken]. *)
Definition auth_state_untouched (w w1 : World) : Prop :=
  localStorage w1 = localStorage w
  ∧ limiter w1 = limiter w
  ∧ isLogged (session w1) = isLogged (session w)
  ∧ confirmEmailToken (session w1) = confirmEmailToken (session w).

(** The exchange ends in a rejection for which the response interceptor
    starts a [logOut()]. *)
Definition starts_logout {A} (x : Exchange A) : bool :=
  match reply x with
  | Resolve _ => false
  | Reject err => forces_logout err
  end.

(** ** Reading an answer of the backend *)

(** The response is a 401 whose [code.message] is one of
    [LOGOUT_ERROR_CODES]. *)
Definition is_forced_logout (resp : option ErrorResponse) : bool :=
  match resp with
  | Some r => (status r =? 401) && includes LOGOUT_ERROR_CODES (errorCode r)
  | None => false
  end.

(** The response is a 401 that does not carry one of [LOGOUT_ERROR_CODES]. *)
Definition is_plain_401 (resp : option ErrorResponse) : bool :=
  match resp with
  | Some r => (status r =? 401) && negb (includes LOGOUT_ERROR_CODES (errorCode r))
  | None => false
  end.

Definition logs_out (a : Answer) : bool :=
  match outcome a with
  | Ok _ => false
  | Fail resp => is_forced_logout resp
  end.

Definition asks_again (a : Answer) : bool :=
  match outcome a with
  | Ok _ => false
  | Fail resp => is_plain_401 resp
  end.

(** How a call settles when the answer to [sent] is handed to the caller
    as it is. *)
Definition settled (a : Answer) (sent : RequestConfig) : Completion string :=
  match outcome a with
  | Ok payload => Returned payload
  | Fail resp => Thrown {| response := resp; config := Some sent |}
  end.

(** * Sample inputs *)

(** A limiter whose record for the identifier is blocked until 2 000 000
    while its window (started at 0) ended at 900 000. *)
Definition blocked_limiter : RateLimiter.t :=
  RateLimiter.with_attempts RateLimiter.authRateLimiter
    {[ "ana@example.org" :=
         {| RateLimiter.count := 5; RateLimiter.firstAttemptTime := 0;
            RateLimiter.blockedUntil := Some 2000000 |} ]}.


(** A stand-in for the platform libraries: users are kept as their JSON
    text, and three token strings decode. *)
Definition sample_jwtDecode (token : string) : option JwtPayload :=
  if String.eqb token "jwt-exp-5000" then Some {| exp := Some 5000 |}
  else if String.eqb token "jwt-exp-1200" then Some {| exp := Some 1200 |}
  else if String.eqb token "jwt-exp-9000" then Some {| exp := Some 9000 |}
  else if String.eqb token "jwt-without-exp" then Some {| exp := None |}
  else None.

Definition sample_platform : Platform :=
  {| User := string;
     JSON_stringify := λ u, u;
     JSON_parse := λ s, Some s;
     jwtDecode := sample_jwtDecode |}.

Definition logged_out : AuthState :=
  {| isLogged := false; isLoading := false; confirmEmailToken := None |}.

Definition logged_in : AuthState :=
  {| isLogged := true; isLoading := false; confirmEmailToken := None |}.

(** A world with the given session, storage, limiter and clock, nothing
    observed yet and no detached call. *)
Definition world_of (s : AuthState) (ls : gmap string string)
    (rl : RateLimiter.t) (now : Z) : World :=
  {| session := s; localStorage := ls; limiter := rl; clock := now;
     trace := []; detached := 0 |}.

Definition storage_of (access refresh : string) : gmap string string :=
  <[STORAGE_KEYS.REFRESH_TOKEN := refresh]>
    (<[STORAGE_KEYS.ACCESS_TOKEN := access]> ∅).

(** A transport failure: the rejection carries no response. *)
Definition network_failure : AxiosError :=
  {| response := None; config := None |}.

Definition refresh_ok : Exchange TokenResponse :=
  {| elapsed := 80;
     reply := Resolve {| tr_access := "jwt-exp-5000"; tr_refresh := "jwt-exp-9000" |} |}.

Definition refresh_fails : Exchange TokenResponse :=
  {| elapsed := 80; reply := Reject network_failure |}.

(** Nothing stored. *)
Definition w_no_token : World :=
  world_of logged_out ∅ RateLimiter.authRateLimiter 1000000.

(** At clock 1 000 000 the access token (exp 5000 s) has 4 000 s left. *)
Definition w_fresh_token : World :=
  world_of logged_in (storage_of "jwt-exp-5000" "jwt-exp-9000")
    RateLimiter.authRateLimiter 1000000.



Definition resend_sent_ok : Exchange ResendResponse :=
  {| elapsed := 120; reply := Resolve {| Status := Some true; rs_code := None |} |}.

Definition resend_busy : Exchange ResendResponse :=
  {| elapsed := 120;
     reply := Resolve {| Status := Some false;
                         rs_code := Some "Email confirmation in progress" |} |}.

Definition ana : LoginRequest :=
  {| email := "ana@example.org"; password := "correct horse"; googlecode := None |}.

Definition login_ok : Exchange (@LoginResponse sample_platform) :=
  {| elapsed := 150;
     reply := Resolve (@Build_LoginResponse sample_platform
                         "jwt-exp-5000" "jwt-exp-9000" "{username: ana}") |}.




(** Two failed logins for the address, five and ten seconds ago. *)
Definition w_two_failures : World :=
  world_of logged_out ∅
    (RateLimiter.recordAttempts [990000; 995000] "ana@example.org"
       RateLimiter.authRateLimiter)
    1000000.

Definition signup_matching : SignupRequest :=
  {| su_email := "ana@example.org"; password1 := "s3cret!"; password2 := "s3cret!" |}.

Definition signup_mismatch : SignupRequest :=
  {| su_email := "ana@example.org"; password1 := "s3cret!"; password2 := "s3cret?" |}.

Definition plain_ok : Exchange unit := {| elapsed := 60; reply := Resolve tt |}.

Definition plain_fails : Exchange unit := {| elapsed := 60; reply := Reject network_failure |}.

(** The 401 body a token backend sends for a token it no longer accepts:
    [code] is a plain string, so [code.message] is [undefined]. *)
Definition token_rejected : ErrorResponse :=
  {| status := 401;
     data := Some {| e_token := None; e_type := None; e_message := None;
                     e_email := None; e_non_field_errors := None; e_uid := None;
                     e_code := Some (CodeStr "token_not_valid") |} |}.

(** A backend that answers every submission with that 401 after [delay]
    milliseconds. *)
Definition persistent_401 (delay : Z) : Server :=
  {| answer := λ _ _, {| took := delay; outcome := Fail (Some token_rejected) |};
     refreshes := λ _, refresh_fails |}.

(** A backend that accepts every request. *)
Definition accepting : Server :=
  {| answer := λ _ _, {| took := 60; outcome := Ok "" |};
     refreshes := λ _, refresh_ok |}.

(** A backend that cannot be reached. *)
Definition unreachable : Server :=
  {| answer := λ _ _, {| took := 60; outcome := Fail None |};
     refreshes := λ _, refresh_fails |}.

Definition get_profile : RequestConfig :=
  {| url := Some API_ROUTES.profile; Authorization := None; body := NoBody |}.

(** A limiter with a short block inside a long window: three attempts in
    ten minutes, blocked for one minute. *)
Definition short_block_limiter : RateLimiter.t :=
  RateLimiter.constructor
    (Some {| RateLimiter.p_maxAttempts := Some 3;
             RateLimiter.p_windowMs := Some 600000;
             RateLimiter.p_blockDurationMs := Some 60000 |}).

(** A platform whose [JSON.parse] rejects text that does not start with
    a brace. *)
Definition strict_platform : Platform :=
  {| User := string;
     JSON_stringify := λ u, u;
     JSON_parse := λ s, if String.prefix "{" s then Some s else None;
     jwtDecode := sample_jwtDecode |}.

(** Tokens and a user entry that is not JSON. *)
Definition w_corrupt_user : World :=
  world_of logged_in
    (<[STORAGE_KEYS.USER := "<html>"]> (storage_of "jwt-exp-5000" "jwt-exp-9000"))
    RateLimiter.authRateLimiter 1000000.

(** An access token that decodes but carries no [exp]. *)
Definition w_token_without_exp : World :=
  world_of logged_in (storage_of "jwt-without-exp" "jwt-exp-9000")
    RateLimiter.authRateLimiter 1000000.

(** An access token that does not decode. *)
Definition w_garbled_token : World :=
  world_of logged_in (storage_of "not-a-jwt" "jwt-exp-9000")
    RateLimiter.authRateLimiter 1000000.

Definition error_body (type : option (list string)) : ErrorData :=
  {| e_token := None; e_type := type; e_message := None; e_email := None;
     e_non_field_errors := None; e_uid := None; e_code := None |}.

Definition login_rejected (type : string) : Exchange (@LoginResponse sample_platform) :=
  {| elapsed := 150;
     reply := Reject {| response := Some {| status := 400;
                                            data := Some (error_body (Some [type])) |};
                        config := None |} |}.

Definition confirm_with_tokens : Exchange (@ConfirmEmailResponse sample_platform) :=
  {| elapsed := 90;
     reply := Resolve (@Build_ConfirmEmailResponse sample_platform "ok"
                         (Some "jwt-exp-5000") (Some "jwt-exp-9000") None) |}.

(** A session waiting for its email confirmation. *)
Definition w_awaiting_confirmation : World :=
  world_of {| isLogged := false; isLoading := false; confirmEmailToken := Some "abc123" |}
    ∅ RateLimiter.authRateLimiter 1000000.

(** A backend under maintenance: every submission is answered 503. *)
Definition maintenance : Server :=
  {| answer := λ _ _, {| took := 20;
                         outcome := Fail (Some {| status := 503; data := None |}) |};
     refreshes := λ _, refresh_fails |}.

Definition post_login : RequestConfig :=
  {| url := Some API_ROUTES.login; Authorization := None; body := NoBody |}.

Definition new_secret : ChangePasswordRequest :=
  {| old_password := "s3cret!"; new_password1 := "s3cret?"; new_password2 := "s3cret?" |}.

Definition confirm_rejected : Exchange (@ConfirmEmailResponse sample_platform) :=
  {| elapsed := 90; reply := Reject network_failure |}.

(** * Properties *)

(** ** Rate limiter *)

Module RateLimiterFacts.
Import RateLimiter.

Lemma ceil_div_pos (a : Z) : 0 < a → 0 < Math_ceil_div a 1000.
Proof.
  intros Ha. unfold Math_ceil_div.
  assert ((- a) / 1000 < 0) by (apply Z.div_lt_upper_bound; lia).
  lia.
Qed.

Lemma config_recordAttempt now id rl :
  config (recordAttempt now id rl) = config rl.
Proof.
  unfold recordAttempt.
  destruct (starts_new_window _ _ _); [reflexivity|].
  destruct (attempts rl !! id); reflexivity.
Qed.

(** Inside the window every further attempt only bumps the counter. *)
Lemma recordAttempts_in_window ts : ∀ rl id c t1 b,
  attempts rl !! id =
    Some {| count := c; firstAttemptTime := t1; blockedUntil := b |} →
  Forall (λ t, t - t1 ≤ windowMs (config rl)) ts →
  attempts (recordAttempts ts id rl) !! id =
    Some {| count := c + Z.of_nat (length ts); firstAttemptTime := t1;
            blockedUntil := b |}
  ∧ config (recordAttempts ts id rl) = config rl.
Proof.
  induction ts as [|t ts IH]; intros rl id c t1 b Hrec Hall.
  - simpl. rewrite Z.add_0_r. auto.
  - apply Forall_cons in Hall as [Ht Hall].
    unfold recordAttempts. simpl foldl.
    assert (Hstep : attempts (recordAttempt t id rl) !! id =
              Some {| count := c + 1; firstAttemptTime := t1; blockedUntil := b |}).
    { unfold recordAttempt, starts_new_window. rewrite Hrec. simpl.
      destruct (Z.gtb_spec (t - t1) (windowMs (config rl))); [lia|].
      simpl. apply lookup_insert_eq. }
    destruct (IH (recordAttempt t id rl) id (c + 1) t1 b Hstep) as [Hk Hc].
    { rewrite config_recordAttempt. exact Hall. }
    fold (recordAttempts ts id (recordAttempt t id rl)).
    rewrite Hk, Hc, config_recordAttempt. split; [|reflexivity].
    do 2 f_equal. simpl length. lia.
Qed.

(** [maxAttempts] attempts that open a window leave a full counter and
    no block. *)
Lemma recordAttempts_fill rl id t1 ts :
  starts_new_window t1 rl (attempts rl !! id) = true →
  Forall (λ t, t - t1 ≤ windowMs (config rl)) ts →
  attempts (recordAttempts (t1 :: ts) id rl) !! id =
    Some {| count := Z.of_nat (length (t1 :: ts)); firstAttemptTime := t1;
            blockedUntil := None |}
  ∧ config (recordAttempts (t1 :: ts) id rl) = config rl.
Proof.
  intros Hnew Hall.
  unfold recordAttempts. simpl foldl.
  fold (recordAttempts ts id (recordAttempt t1 id rl)).
  assert (Hstep : attempts (recordAttempt t1 id rl) !! id =
            Some {| count := 1; firstAttemptTime := t1; blockedUntil := None |}).
  { unfold recordAttempt. rewrite Hnew. simpl. apply lookup_insert_eq. }
  destruct (recordAttempts_in_window ts _ id 1 t1 None Hstep) as [Hk Hc].
  { rewrite config_recordAttempt. exact Hall. }
  rewrite Hk, Hc, config_recordAttempt. split; [|reflexivity].
  do 2 f_equal. simpl length. lia.
Qed.

(** A full counter inside its window makes the check deny and latch. *)
Lemma checkLimit_triggers rl id r now :
  attempts rl !! id = Some r →
  currently_blocked r now = false →
  now - firstAttemptTime r ≤ windowMs (config rl) →
  maxAttempts (config rl) ≤ count r →
  checkLimit now id rl =
    ({| isAllowed := false;
        retryAfter := Some (Math_ceil_div (blockDurationMs (config rl)) 1000);
        attemptsRemaining := None |},
     with_attempts rl
       (<[id := {| count := count r; firstAttemptTime := firstAttemptTime r;
                   blockedUntil := Some (now + blockDurationMs (config rl)) |}]>
          (attempts rl))).
Proof.
  intros Hrec Hnb Hwin Hcnt. unfold checkLimit. rewrite Hrec, Hnb.
  destruct (Z.gtb_spec (now - firstAttemptTime r) (windowMs (config rl))); [lia|].
  destruct (Z.geb_spec (count r) (maxAttempts (config rl))); [reflexivity|lia].
Qed.

(** While the latch holds, a check denies and changes nothing. *)
Lemma checkLimit_while_blocked rl id r b now :
  attempts rl !! id = Some r →
  blockedUntil r = Some b → b ≠ 0 → now < b →
  ∃ res, checkLimit now id rl = (res, rl) ∧ denied res.
Proof.
  intros Hrec Hb Hnz Hlt. unfold checkLimit, currently_blocked.
  rewrite Hrec, Hb.
  destruct (Z.eqb_spec b 0); [contradiction|].
  destruct (Z.gtb_spec b now); [|lia]. simpl.
  eexists; split; [reflexivity|].
  split; [reflexivity|]. eexists; split; [reflexivity|].
  apply ceil_div_pos. lia.
Qed.

Lemma checkLimits_while_blocked later : ∀ rl id r b,
  attempts rl !! id = Some r →
  blockedUntil r = Some b → b ≠ 0 →
  Forall (λ t, t < b) later →
  ∃ rs, checkLimits later id rl = (rs, rl)
        ∧ Forall denied rs ∧ length rs = length later.
Proof.
  induction later as [|t later IH]; intros rl id r b Hrec Hb Hnz Hall.
  - exists []. simpl. auto.
  - apply Forall_cons in Hall as [Ht Hall].
    destruct (checkLimit_while_blocked rl id r b t Hrec Hb Hnz Ht) as (res & Hres & Hden).
    destruct (IH rl id r b Hrec Hb Hnz Hall) as (rs & Hrs & Hdens & Hlen).
    exists (res :: rs). simpl. rewrite Hres, Hrs.
    split; [reflexivity|]. split; [constructor; assumption|].
    simpl. congruence.
Qed.

(** What [recordAttempt] leaves under the identifier: a first attempt
    when there was no record or its window has elapsed, one more attempt
    in the open window otherwise. *)
Lemma recordAttempt_recorded (now : Z) (id : string) (rl : RateLimiter.t) :
  attempt_recorded now id rl (RateLimiter.recordAttempt now id rl).
Proof.
  unfold attempt_recorded, one_more_attempt, RateLimiter.recordAttempt,
    RateLimiter.starts_new_window.
  destruct (RateLimiter.attempts rl !! id) as [old|] eqn:Hold.
  - destruct (now - RateLimiter.firstAttemptTime old
                >? RateLimiter.windowMs (RateLimiter.config rl)).
    + eexists. split; [simpl; apply lookup_insert_eq|]. split; reflexivity.
    + eexists. split; [simpl; apply lookup_insert_eq|]. split; reflexivity.
  - eexists. split; [simpl; apply lookup_insert_eq|]. split; reflexivity.
Qed.

End RateLimiterFacts.

(** C5 (as amended).  Once [maxAttempts] attempts have been recorded for an identifier
    inside one window (the first of them opens the window, the others and
    the check fall within [windowMs] of it), the next [checkLimit] denies
    with a positive [retryAfter] and stores [blockedUntil = now +
    blockDurationMs] in the record; every later [checkLimit] made before
    that instant denies as well and leaves the limiter as it is, with no
    attempt recorded in between. *)
Theorem checkLimit_lockout_latch
    (rl : RateLimiter.t) (id : string) (t1 : Z) (ts : list Z) (tc : Z) (later : list Z) :
  RateLimiter.starts_new_window t1 rl (RateLimiter.attempts rl !! id) = true →
  Z.of_nat (length (t1 :: ts)) = RateLimiter.maxAttempts (RateLimiter.config rl) →
  Forall (λ t, t - t1 ≤ RateLimiter.windowMs (RateLimiter.config rl)) ts →
  tc - t1 ≤ RateLimiter.windowMs (RateLimiter.config rl) →
  0 ≤ tc →
  0 < RateLimiter.blockDurationMs (RateLimiter.config rl) →
  Forall (λ t, t < tc + RateLimiter.blockDurationMs (RateLimiter.config rl)) later →
  ∃ res rl1 rec rs,
    RateLimiter.checkLimit tc id (RateLimiter.recordAttempts (t1 :: ts) id rl) = (res, rl1)
    ∧ RateLimiter.denied res
    ∧ RateLimiter.attempts rl1 !! id = Some rec
    ∧ RateLimiter.blockedUntil rec =
        Some (tc + RateLimiter.blockDurationMs (RateLimiter.config rl))
    ∧ RateLimiter.checkLimits later id rl1 = (rs, rl1)
    ∧ length rs = length later
    ∧ Forall RateLimiter.denied rs.
Proof.
  intros Hnew Hlen Hall Hwin Htc HD Hlater.
  destruct (RateLimiterFacts.recordAttempts_fill rl id t1 ts Hnew Hall) as [Hrec Hcfg].
  pose proof (RateLimiterFacts.checkLimit_triggers
                (RateLimiter.recordAttempts (t1 :: ts) id rl) id _ tc Hrec) as Htrig.
  rewrite Hcfg in Htrig.
  specialize (Htrig eq_refl Hwin).
  cbn [RateLimiter.count RateLimiter.firstAttemptTime] in Htrig.
  rewrite Hlen in Htrig. specialize (Htrig (Z.le_refl _)). rewrite <- Hlen in Htrig.
  set (rl1 := RateLimiter.with_attempts _ _) in Htrig.
  set (rec := {| RateLimiter.count := Z.of_nat (length (t1 :: ts));
                 RateLimiter.firstAttemptTime := t1;
                 RateLimiter.blockedUntil :=
                   Some (tc + RateLimiter.blockDurationMs (RateLimiter.config rl)) |}).
  assert (Hrec1 : RateLimiter.attempts rl1 !! id = Some rec)
    by (subst rl1; simpl; apply lookup_insert_eq).
  destruct (RateLimiterFacts.checkLimits_while_blocked later rl1 id rec _ Hrec1 eq_refl)
    as (rs & Hrs & Hden & Hlen'); [lia|exact Hlater|].
  eexists _, rl1, rec, rs. split; [exact Htrig|].
  split.
  { split; [reflexivity|]. eexists; split; [reflexivity|].
    apply RateLimiterFacts.ceil_div_pos; exact HD. }
  auto.
Qed.

Lemma checkLimit_lockout_latch_witness :
  ∃ res rl1 rec rs,
    RateLimiter.checkLimit 6000 "ana@example.org"
      (RateLimiter.recordAttempts [1000; 2000; 3000; 4000; 5000] "ana@example.org"
         RateLimiter.authRateLimiter) = (res, rl1)
    ∧ RateLimiter.denied res
    ∧ RateLimiter.attempts rl1 !! "ana@example.org" = Some rec
    ∧ RateLimiter.blockedUntil rec = Some (6000 + 900000)
    ∧ RateLimiter.checkLimits [6001; 500000; 905999] "ana@example.org" rl1 = (rs, rl1)
    ∧ length rs = 3%nat
    ∧ Forall RateLimiter.denied rs.
Proof.
  apply (checkLimit_lockout_latch RateLimiter.authRateLimiter "ana@example.org"
           1000 [2000; 3000; 4000; 5000] 6000 [6001; 500000; 905999]).
  - reflexivity.
  - reflexivity.
  - repeat constructor; simpl; lia.
  - simpl; lia.
  - lia.
  - simpl; lia.
  - repeat constructor; simpl; lia.
Defined.

(** C5 as stated fails in three ways, the first two on the exported
    [authRateLimiter] (five attempts, windows and blocks of 900 000 ms),
    with attempts at 1000, 2000, 3000, 4000 and 5000.  A first check that
    comes after the window has elapsed (at 902 000) finds a record that
    is too old, discards it and allows.  After the check at 6000 has
    latched the block until 906 000, an attempt recorded at 902 000 (the
    window has elapsed) replaces the record, so that the check at 903 000
    allows although the block had three more seconds to run.  And a
    limiter built with a block duration that is not positive denies the
    check at 6000 with a wait that is not positive. *)
Lemma checkLimit_latch_depends_on_window :
  let filled :=
    RateLimiter.recordAttempts [1000; 2000; 3000; 4000; 5000] "ana@example.org"
      RateLimiter.authRateLimiter in
  RateLimiter.isAllowed (RateLimiter.checkLimit 902000 "ana@example.org" filled).1 = true
  ∧ (let latched := (RateLimiter.checkLimit 6000 "ana@example.org" filled).2 in
     (∃ rec, RateLimiter.attempts latched !! "ana@example.org" = Some rec
             ∧ RateLimiter.blockedUntil rec = Some 906000)
     ∧ RateLimiter.isAllowed
         (RateLimiter.checkLimit 900000 "ana@example.org" latched).1 = false
     ∧ RateLimiter.isAllowed
         (RateLimiter.checkLimit 903000 "ana@example.org"
            (RateLimiter.recordAttempt 902000 "ana@example.org" latched)).1 = true)
  ∧ (let odd :=
       RateLimiter.constructor
         (Some {| RateLimiter.p_maxAttempts := None;
                  RateLimiter.p_windowMs := None;
                  RateLimiter.p_blockDurationMs := Some (-1000) |}) in
     RateLimiter.retryAfter
       (RateLimiter.checkLimit 6000 "ana@example.org"
          (RateLimiter.recordAttempts [1000; 2000; 3000; 4000; 5000] "ana@example.org"
             odd)).1 = Some (-1)).
Proof.
  cbv zeta. split; [reflexivity|]. split; [|reflexivity].
  split; [|split; reflexivity].
  eexists. split; reflexivity.
Qed.

(** C10 (as amended).  When an identifier's record is older than the window
    ([now - firstAttemptTime > windowMs]), [recordAttempt] replaces it by
    [{count: 1, firstAttemptTime: now}] without [blockedUntil], whatever
    the old record held; so a block that was still active (a check at
    [now] would have denied) is gone, and the next [checkLimit] allows
    (the fresh count of one is below any threshold above one, as in both
    exported limiters). *)
Theorem recordAttempt_after_window_erases_block
    (rl : RateLimiter.t) (id : string) (old : RateLimiter.AttemptRecord) (now next : Z) :
  RateLimiter.attempts rl !! id = Some old →
  now - RateLimiter.firstAttemptTime old > RateLimiter.windowMs (RateLimiter.config rl) →
  RateLimiter.attempts (RateLimiter.recordAttempt now id rl) !! id =
    Some {| RateLimiter.count := 1; RateLimiter.firstAttemptTime := now;
            RateLimiter.blockedUntil := None |}
  ∧ (RateLimiter.currently_blocked old now = true →
     RateLimiter.isAllowed (RateLimiter.checkLimit now id rl).1 = false)
  ∧ (1 < RateLimiter.maxAttempts (RateLimiter.config rl) →
     RateLimiter.isAllowed
       (RateLimiter.checkLimit next id (RateLimiter.recordAttempt now id rl)).1 = true).
Proof.
  intros Hold Hwin.
  assert (Hrl : RateLimiter.recordAttempt now id rl =
            RateLimiter.with_attempts rl
              (<[id := {| RateLimiter.count := 1; RateLimiter.firstAttemptTime := now;
                          RateLimiter.blockedUntil := None |}]> (RateLimiter.attempts rl))).
  { unfold RateLimiter.recordAttempt, RateLimiter.starts_new_window. rewrite Hold.
    destruct (Z.gtb_spec (now - RateLimiter.firstAttemptTime old)
                (RateLimiter.windowMs (RateLimiter.config rl))); [reflexivity|lia]. }
  rewrite Hrl. split; [simpl; apply lookup_insert_eq|]. split.
  - intros Hb. unfold RateLimiter.checkLimit. rewrite Hold, Hb. reflexivity.
  - intros Hmax. unfold RateLimiter.checkLimit. simpl RateLimiter.attempts.
    rewrite lookup_insert_eq. simpl.
    destruct (next - now >? _); [reflexivity|].
    destruct (Z.geb_spec 1 (RateLimiter.maxAttempts (RateLimiter.config rl)));
      [lia|reflexivity].
Qed.

Lemma recordAttempt_after_window_erases_block_witness :
  RateLimiter.attempts
    (RateLimiter.recordAttempt 1000000 "ana@example.org" blocked_limiter)
    !! "ana@example.org" =
    Some {| RateLimiter.count := 1; RateLimiter.firstAttemptTime := 1000000;
            RateLimiter.blockedUntil := None |}
  ∧ RateLimiter.isAllowed
      (RateLimiter.checkLimit 1000000 "ana@example.org" blocked_limiter).1 = false
  ∧ RateLimiter.isAllowed
      (RateLimiter.checkLimit 1000001 "ana@example.org"
         (RateLimiter.recordAttempt 1000000 "ana@example.org" blocked_limiter)).1 = true.
Proof.
  destruct (recordAttempt_after_window_erases_block blocked_limiter "ana@example.org"
              {| RateLimiter.count := 5; RateLimiter.firstAttemptTime := 0;
                 RateLimiter.blockedUntil := Some 2000000 |} 1000000 1000001)
    as (H1 & H2 & H3).
  - reflexivity.
  - simpl; lia.
  - split; [exact H1|]. split; [apply H2; reflexivity|apply H3; simpl; lia].
Defined.

(** C10 as stated fails for a limiter built with [maxAttempts = 1].  One
    attempt at 0 and a check at 100 block the identifier until 900 100.
    At 900 050 the window of that attempt has elapsed and the block is
    still active; the attempt recorded then replaces the record by a
    fresh one without [blockedUntil], as the claim says, but the fresh
    record already holds one attempt, which is the threshold: the next
    [checkLimit] denies. *)
Lemma recordAttempt_then_check_single_attempt :
  let strict :=
    RateLimiter.constructor
      (Some {| RateLimiter.p_maxAttempts := Some 1;
               RateLimiter.p_windowMs := None;
               RateLimiter.p_blockDurationMs := None |}) in
  let blocked :=
    (RateLimiter.checkLimit 100 "ana@example.org"
       (RateLimiter.recordAttempt 0 "ana@example.org" strict)).2 in
  RateLimiter.attempts blocked !! "ana@example.org" =
    Some {| RateLimiter.count := 1; RateLimiter.firstAttemptTime := 0;
            RateLimiter.blockedUntil := Some 900100 |}
  ∧ 900050 - 0 > RateLimiter.windowMs (RateLimiter.config blocked)
  ∧ RateLimiter.isAllowed
      (RateLimiter.checkLimit 900050 "ana@example.org" blocked).1 = false
  ∧ RateLimiter.attempts
      (RateLimiter.recordAttempt 900050 "ana@example.org" blocked)
      !! "ana@example.org" =
      Some {| RateLimiter.count := 1; RateLimiter.firstAttemptTime := 900050;
              RateLimiter.blockedUntil := None |}
  ∧ RateLimiter.isAllowed
      (RateLimiter.checkLimit 900060 "ana@example.org"
         (RateLimiter.recordAttempt 900050 "ana@example.org" blocked)).1 = false.
Proof. cbv zeta. repeat split. Qed.

(** ** Token expiry *)

(** C9.  For a token that decodes with a numeric [exp] (seconds):
    [isTokenValid] is false whenever [exp * 1000] is not strictly greater
    than the current time; [isTokenExpiringSoon] is false whenever
    [exp * 1000 - now] is strictly greater than
    [TOKEN_REFRESH_THRESHOLD_MS] (ten minutes) and true when it is exactly
    the threshold. *)
Theorem token_expiry_thresholds `{Platform} (token : string) (e : Z) :
  jwtDecode token = Some {| exp := Some e |} →
  TOKEN_REFRESH_THRESHOLD_MS = 600000
  ∧ (∀ now, ¬ (e * 1000 > now) → isTokenValid (Some token) now = false)
  ∧ (∀ now, e * 1000 - now > TOKEN_REFRESH_THRESHOLD_MS →
            isTokenExpiringSoon token now = false)
  ∧ (∀ now, e * 1000 - now = TOKEN_REFRESH_THRESHOLD_MS →
            isTokenExpiringSoon token now = true).
Proof.
  intros Hdec. split; [reflexivity|]. split; [|split]; intros now Hnow.
  - unfold isTokenValid. destruct (negb _); [reflexivity|].
    simpl default. rewrite Hdec.
    destruct (Z.gtb_spec (e * 1000) now); [lia|reflexivity].
  - unfold isTokenExpiringSoon. rewrite Hdec. simpl.
    destruct (Z.leb_spec (e * 1000 - now) TOKEN_REFRESH_THRESHOLD_MS); [lia|reflexivity].
  - unfold isTokenExpiringSoon. rewrite Hdec. simpl.
    destruct (Z.leb_spec (e * 1000 - now) TOKEN_REFRESH_THRESHOLD_MS); [reflexivity|lia].
Qed.

Lemma token_expiry_thresholds_witness :
  @isTokenValid sample_platform (Some "jwt-exp-1200") 1200000 = false
  ∧ @isTokenExpiringSoon sample_platform "jwt-exp-1200" 599999 = false
  ∧ @isTokenExpiringSoon sample_platform "jwt-exp-1200" 600000 = true.
Proof.
  destruct (@token_expiry_thresholds sample_platform "jwt-exp-1200" 1200 eq_refl)
    as (_ & Hvalid & Hfar & Hedge).
  split; [apply Hvalid; lia|].
  split; [apply Hfar; unfold TOKEN_REFRESH_THRESHOLD_MS; lia|].
  apply Hedge; reflexivity.
Defined.

(** ** Requests to open routes *)

Lemma rejected_open_eq (error : AxiosError) :
  rejected_open error = if forces_logout error then logOut_detached else ret tt.
Proof.
  unfold rejected_open, forces_logout.
  destruct (response error) as [resp|]; [|reflexivity].
  destruct (config error) as [req|]; [|reflexivity].
  destruct (Z.eqb_spec (status resp) 503) as [H503|_].
  - destruct (Z.eqb_spec (status resp) 401) as [H401|_]; [lia|reflexivity].
  - destruct (status resp =? 401); [|reflexivity].
    destruct (includes LOGOUT_ERROR_CODES (errorCode resp)); reflexivity.
Qed.

Lemma post_resolved {A} (route : string) (payload : RequestBody) (x : Exchange A)
    (a : A) (w : World) :
  reply x = Resolve a →
  post route payload x w = (Returned a, answered route payload x w).
Proof.
  intros Hreply. unfold post, bind, try_catch, issue, emit, await, answered.
  cbn. rewrite Hreply. reflexivity.
Qed.

Lemma post_rejected {A} (route : string) (payload : RequestBody) (x : Exchange A)
    (err : AxiosError) (w : World) :
  reply x = Reject err →
  post route payload x w =
    (Thrown err,
     if forces_logout err then (logOut_detached (answered route payload x w)).2
     else answered route payload x w).
Proof.
  intros Hreply. unfold post, bind at 1, try_catch, issue, emit, await, answered.
  cbn. rewrite Hreply. rewrite rejected_open_eq.
  destruct (forces_logout err); reflexivity.
Qed.

(** ** Session operations *)

Lemma storage_clear_cleared (w : World) :
  storage_cleared (storage_clear w).2.
Proof.
  unfold storage_cleared, storage_clear. simpl.
  repeat split.
  - rewrite lookup_delete_ne by done. rewrite lookup_delete_ne by done.
    apply lookup_delete_eq.
  - rewrite lookup_delete_ne by done. apply lookup_delete_eq.
  - apply lookup_delete_eq.
Qed.

Lemma truthy_some (s : string) : s ≠ "" → truthy_str (Some s) = true.
Proof.
  intros Hne. simpl. destruct (String.eqb_spec s ""); [contradiction|reflexivity].
Qed.









(** Solves [extends w w1 ?new] once both traces are explicit. *)
Ltac solve_extends :=
  unfold extends; cbn;
  lazymatch goal with
  | |- ?l = ?new ++ ?t =>
      let rec strip l :=
        lazymatch l with
        | t => constr:(@nil Event)
        | ?e :: ?l' => let r := strip l' in constr:(e :: r)
        end in
      let pre := strip l in
      unify new pre; reflexivity
  end.



Lemma storage_after_login (ls : gmap string string) (a r u : string) :
  let ls1 := <[STORAGE_KEYS.USER := u]>
               (<[STORAGE_KEYS.REFRESH_TOKEN := r]>
                  (<[STORAGE_KEYS.ACCESS_TOKEN := a]> ls)) in
  ls1 !! STORAGE_KEYS.ACCESS_TOKEN = Some a
  ∧ ls1 !! STORAGE_KEYS.REFRESH_TOKEN = Some r
  ∧ ls1 !! STORAGE_KEYS.USER = Some u.
Proof.
  simpl. repeat split.
  - rewrite lookup_insert_ne by done. rewrite lookup_insert_ne by done.
    apply lookup_insert_eq.
  - rewrite lookup_insert_ne by done. apply lookup_insert_eq.
  - apply lookup_insert_eq.
Qed.

(** C4.  When the rate limiter lets the attempt through and the login
    request resolves with [{access, refresh, user}], [logIn] returns
    ['success']; the limiter has no entry for [credentials.email]
    afterwards; storage holds exactly that access token, refresh token and
    (serialised) user, all other keys untouched; and the session ends with
    [isLogged = true], [confirmEmailToken = null] and [isLoading = false]. *)
Theorem logIn_success_persists `{Platform}
    (credentials : LoginRequest) (d : LoginResponse)
    (x_login : Exchange LoginResponse) (x_resend : Exchange ResendResponse) (w : World) :
  RateLimiter.isAllowed
    (RateLimiter.checkLimit (clock w) (email credentials) (limiter w)).1 = true →
  reply x_login = Resolve d →
  ∃ w1,
    logIn credentials x_login x_resend w = (Returned success, w1)
    ∧ RateLimiter.attempts (limiter w1) !! email credentials = None
    ∧ localStorage w1 !! STORAGE_KEYS.ACCESS_TOKEN = Some (lr_access d)
    ∧ localStorage w1 !! STORAGE_KEYS.REFRESH_TOKEN = Some (lr_refresh d)
    ∧ localStorage w1 !! STORAGE_KEYS.USER = Some (JSON_stringify (lr_user d))
    ∧ localStorage w1 =
        <[STORAGE_KEYS.USER := JSON_stringify (lr_user d)]>
          (<[STORAGE_KEYS.REFRESH_TOKEN := lr_refresh d]>
             (<[STORAGE_KEYS.ACCESS_TOKEN := lr_access d]> (localStorage w)))
    ∧ session w1 =
        {| isLogged := true; isLoading := false; confirmEmailToken := None |}.
Proof.
  destruct w as [s ls rl c t dt]. cbn [clock limiter localStorage]. intros Hallowed Hreply.
  unfold logIn, bind at 1, limiter_checkLimit. cbn [clock limiter].
  destruct (RateLimiter.checkLimit c (email credentials) rl) as [chk rl1] eqn:Hchk.
  cbn [fst snd] in *. cbn -[post]. rewrite Hallowed. cbn -[post].
  unfold try_catch, bind at 1.
  rewrite (post_resolved _ _ x_login d _ Hreply). cbn.
  eexists. split; [reflexivity|]. cbn.
  split; [apply lookup_delete_eq|].
  pose proof (storage_after_login ls (lr_access d) (lr_refresh d)
                (JSON_stringify (lr_user d))) as (Ha & Hr & Hu).
  auto.
Qed.

Lemma logIn_success_persists_witness :
  RateLimiter.attempts (limiter w_two_failures) !! "ana@example.org" =
    Some {| RateLimiter.count := 2; RateLimiter.firstAttemptTime := 990000;
            RateLimiter.blockedUntil := None |}
  ∧ ∃ w1,
    @logIn sample_platform ana login_ok resend_sent_ok w_two_failures =
      (Returned success, w1)
    ∧ RateLimiter.attempts (limiter w1) !! "ana@example.org" = None
    ∧ localStorage w1 !! STORAGE_KEYS.ACCESS_TOKEN = Some "jwt-exp-5000"
    ∧ localStorage w1 !! STORAGE_KEYS.REFRESH_TOKEN = Some "jwt-exp-9000"
    ∧ localStorage w1 !! STORAGE_KEYS.USER = Some "{username: ana}"
    ∧ localStorage w1 =
        <[STORAGE_KEYS.USER := "{username: ana}"]>
          (<[STORAGE_KEYS.REFRESH_TOKEN := "jwt-exp-9000"]>
             (<[STORAGE_KEYS.ACCESS_TOKEN := "jwt-exp-5000"]>
                (localStorage w_two_failures)))
    ∧ session w1 =
        {| isLogged := true; isLoading := false; confirmEmailToken := None |}.
Proof.
  split; [reflexivity|].
  apply (@logIn_success_persists sample_platform ana
           (@Build_LoginResponse sample_platform
              "jwt-exp-5000" "jwt-exp-9000" "{username: ana}")
           login_ok resend_sent_ok w_two_failures).
  - reflexivity.
  - reflexivity.
Defined.








(** ** The intercepted client *)

(** [getAccessToken] always returns.  It has no [set] of its own: either
    the session is untouched, or the result is [undefined] and a
    [logOut()] was started and left behind, which has set [isLoading]. *)
Lemma getAccessToken_loading `{Platform} (x : Exchange TokenResponse) (w : World) :
  ∃ r w1 new,
    getAccessToken x w = (Returned r, w1)
    ∧ extends w w1 new
    ∧ ((List.filter is_set new = []
        ∧ session w1 = session w
        ∧ detached w1 = detached w)
       ∨ (r = None
          ∧ (∀ s, In (EvSet s) new → s = merge (session w) (loading true))
          ∧ session w1 = merge (session w) (loading true)
          ∧ localStorage w1 = localStorage w
          ∧ (detached w < detached w1)%nat)).
Proof.
  unfold getAccessToken, bind at 1 2, storage_getAccessToken, storage_getRefreshToken.
  destruct (truthy_str (localStorage w !! STORAGE_KEYS.ACCESS_TOKEN)); cbn [negb].
  2: { eexists _, _, []. split; [reflexivity|]. split; [reflexivity|]. left. auto. }
  unfold bind at 1, Date_now.
  destruct (isTokenExpiringSoon _ (clock w)); cbn [negb].
  2: { eexists _, _, []. split; [reflexivity|]. split; [reflexivity|]. left. auto. }
  destruct (truthy_str (localStorage w !! STORAGE_KEYS.REFRESH_TOKEN)); cbn [negb].
  - unfold try_catch, bind at 1.
    destruct (reply x) as [d|err] eqn:Hreply.
    + rewrite (post_resolved _ _ x d _ Hreply).
      destruct w as [s ls rl c t dt]. cbn.
      eexists _, _, [_]. split; [reflexivity|]. split; [reflexivity|]. left. auto.
    + rewrite (post_rejected _ _ x err _ Hreply).
      destruct w as [s ls rl c t dt].
      destruct (forces_logout err); cbn;
        (eexists _, _, _; split; [reflexivity|]; split; [solve_extends|]; right;
         split; [reflexivity|]; split; [|split; [reflexivity|split; [reflexivity|cbn; lia]]];
         intros s' Hin; cbn in Hin; intuition (try discriminate);
         match goal with Heq : EvSet _ = EvSet _ |- _ => inversion Heq; reflexivity end).
  - destruct w as [s ls rl c t dt]. cbn.
    eexists _, _, _. split; [reflexivity|]. split; [solve_extends|]. right.
    split; [reflexivity|]. split; [|split; [reflexivity|split; [reflexivity|cbn; lia]]].
    intros s' Hin. cbn in Hin. intuition (try discriminate).
    match goal with Heq : EvSet _ = EvSet _ |- _ => inversion Heq; reflexivity end.
Qed.

Lemma isTokenExpiringSoon_fresh `{Platform} (tok : string) (e now : Z) :
  jwtDecode tok = Some {| exp := Some e |} →
  e * 1000 - now > TOKEN_REFRESH_THRESHOLD_MS →
  isTokenExpiringSoon tok now = false.
Proof.
  intros Hdec Hfar. unfold isTokenExpiringSoon. rewrite Hdec.
  destruct (Z.leb_spec (e * 1000 - now) TOKEN_REFRESH_THRESHOLD_MS); [lia|reflexivity].
Qed.

Lemma getAccessToken_fresh `{Platform} (x : Exchange TokenResponse) (w : World) (tok : string) :
  localStorage w !! STORAGE_KEYS.ACCESS_TOKEN = Some tok → tok ≠ "" →
  isTokenExpiringSoon tok (clock w) = false →
  getAccessToken x w = (Returned (Some tok), w).
Proof.
  intros Hacc Hne Hfresh.
  unfold getAccessToken, bind, storage_getAccessToken, storage_getRefreshToken, Date_now.
  rewrite Hacc, (truthy_some tok Hne). simpl. rewrite Hfresh. reflexivity.
Qed.

Lemma api_step `{Platform} (fuel : nat) (srv : Server) (k : nat) (request : RequestConfig) :
  api (S fuel) srv k request =
    (sent <- requestInterceptor request (refreshes srv (2 * k)) ;;
     emit (EvWire sent) ;;
     advance (took (answer srv k sent)) ;;
     match outcome (answer srv k sent) with
     | Ok payload => ret payload
     | Fail resp =>
         responseRejected (api fuel srv (S k)) (refreshes srv (2 * k + 1))
           {| response := resp; config := Some sent |}
     end).
Proof. reflexivity. Qed.

Lemma requestInterceptor_fresh `{Platform}
    (request : RequestConfig) (x : Exchange TokenResponse) (w : World) (tok : string) :
  localStorage w !! STORAGE_KEYS.ACCESS_TOKEN = Some tok → tok ≠ "" →
  isTokenExpiringSoon tok (clock w) = false →
  shouldAttemptRefresh request = true →
  requestInterceptor request x w = (Returned (with_bearer request tok), w).
Proof.
  intros Hacc Hne Hfresh Hshould.
  unfold shouldAttemptRefresh in Hshould.
  apply andb_true_iff in Hshould as [Hno _]. apply negb_true_iff in Hno.
  unfold requestInterceptor. rewrite Hno. unfold bind.
  rewrite (getAccessToken_fresh x w tok Hacc Hne Hfresh).
  rewrite (truthy_some tok Hne). reflexivity.
Qed.

(** One round of the response interceptor on the 401 of [token_rejected]:
    with a stored token that is not expiring soon it hands the request,
    with that same token as bearer, back to the client. *)
Lemma responseRejected_resubmits `{Platform}
    (resubmit : RequestConfig → M string) (x : Exchange TokenResponse)
    (sent : RequestConfig) (w : World) (tok : string) :
  localStorage w !! STORAGE_KEYS.ACCESS_TOKEN = Some tok → tok ≠ "" →
  isTokenExpiringSoon tok (clock w) = false →
  shouldAttemptRefresh sent = true →
  responseRejected resubmit x
    {| response := Some token_rejected; config := Some sent |} w =
  resubmit (with_bearer sent tok) w.
Proof.
  intros Hacc Hne Hfresh Hshould.
  assert (Hcode : includes LOGOUT_ERROR_CODES (errorCode token_rejected) = false)
    by reflexivity.
  unfold responseRejected. cbn [response config].
  change (status token_rejected =? 503) with false.
  change (status token_rejected =? 401) with true.
  cbv iota. rewrite Hcode, Hshould. unfold bind, try_catch.
  rewrite (getAccessToken_fresh x w tok Hacc Hne Hfresh).
  rewrite (truthy_some tok Hne). reflexivity.
Qed.

(** One run of the rejection handler on a 401 whose code is outside the
    logout set, for a request that is neither allow-listed nor the refresh
    route: [getAccessToken] is called once and returns; with a token the
    handler's result is the resubmission of the request, once, with that
    token as bearer; without one the original error is rethrown (and
    [getAccessToken] has forced the logout if a refresh failed). *)
Lemma responseRejected_one_round `{Platform}
    (resubmit : RequestConfig → M string) (x : Exchange TokenResponse)
    (resp : ErrorResponse) (originalRequest : RequestConfig) (w : World) :
  status resp = 401 →
  includes LOGOUT_ERROR_CODES (errorCode resp) = false →
  shouldAttemptRefresh originalRequest = true →
  ∃ r w',
    getAccessToken x w = (Returned r, w')
    ∧ responseRejected resubmit x
        {| response := Some resp; config := Some originalRequest |} w =
      if truthy_str r then resubmit (with_bearer originalRequest (default "" r)) w'
      else (Thrown {| response := Some resp; config := Some originalRequest |}, w').
Proof.
  intros Hstatus Hcode Hshould.
  destruct (getAccessToken_loading x w) as (r & w' & new & Hrun & _).
  exists r, w'. split; [exact Hrun|].
  unfold responseRejected. cbn [response config]. rewrite Hstatus.
  change (401 =? 503) with false. change (401 =? 401) with true. cbv iota.
  rewrite Hcode, Hshould. unfold bind, try_catch. rewrite Hrun.
  destruct (truthy_str r); reflexivity.
Qed.

(** C2 at the failing input.  While the stored access token is not
    expiring soon and the backend keeps answering 401 with a code outside
    the logout set, every failed submission is answered by another
    resubmission: following the call for [n] submissions, it has put the
    request on the wire [n] times and is still not settled; no refresh and
    no logout has happened. *)
Theorem api_retry_chain `{Platform} (n : nat) :
  ∀ (w : World) (k : nat) (request : RequestConfig) (tok : string) (e delay : Z),
    localStorage w !! STORAGE_KEYS.ACCESS_TOKEN = Some tok → tok ≠ "" →
    jwtDecode tok = Some {| exp := Some e |} →
    0 ≤ delay →
    e * 1000 - (clock w + Z.of_nat n * delay) > TOKEN_REFRESH_THRESHOLD_MS →
    shouldAttemptRefresh request = true →
    ∃ w1 new,
      api n (persistent_401 delay) k request w = (Unsettled, w1)
      ∧ extends w w1 new
      ∧ count_events is_wire new = n
      ∧ Forall (λ ev, ∀ r, ev = EvWire r →
                        url r = url request
                        ∧ Authorization r = Some ("Bearer " +:+ tok)) new
      ∧ localStorage w1 = localStorage w
      ∧ session w1 = session w
      ∧ detached w1 = detached w.
Proof.
  induction n as [|n IH]; intros w k request tok e delay Hacc Hne Hdec Hdelay Hfar Hshould.
  - exists w, []. repeat split; constructor.
  - assert (Hallow : includes NO_AUTH_REQUIRED_API_ROUTES (default "" (url request)) = false).
    { unfold shouldAttemptRefresh in Hshould.
      apply andb_true_iff in Hshould as [Hno _]. apply negb_true_iff in Hno. exact Hno. }
    assert (Hnow : isTokenExpiringSoon tok (clock w) = false)
      by (apply (isTokenExpiringSoon_fresh tok e); [exact Hdec|nia]).
    assert (Hthen : isTokenExpiringSoon tok (clock w + delay) = false)
      by (apply (isTokenExpiringSoon_fresh tok e); [exact Hdec|nia]).
    set (sent := with_bearer request tok).
    set (w' := with_clock (emit (EvWire sent) w).2 (clock w + delay)).
    destruct (IH w' (S k) (with_bearer sent tok) tok e delay)
      as (w1 & new & Hrun & Hext & Hcount & Hall & Hls & Hsess & Hdet);
      [exact Hacc | exact Hne | exact Hdec | exact Hdelay
      | subst w'; cbn [clock with_clock]; nia | exact Hshould |].
    exists w1, (new ++ [EvWire sent]).
    split.
    { rewrite api_step. unfold bind at 1.
      rewrite (requestInterceptor_fresh request _ w tok Hacc Hne Hnow Hshould).
      fold sent. unfold bind at 1. cbn [emit]. unfold bind at 1, advance.
      cbn [persistent_401 answer took outcome]. fold w'.
      rewrite (responseRejected_resubmits _ _ sent w' tok Hacc Hne Hthen Hshould).
      exact Hrun. }
    split.
    { unfold extends in *. rewrite Hext. subst w'. cbn [trace with_clock emit snd].
      rewrite <- app_assoc. reflexivity. }
    split.
    { unfold count_events in *. rewrite List.filter_app, length_app, Hcount.
      cbn. lia. }
    split.
    { apply Forall_app. split.
      - eapply Forall_impl; [exact Hall|]. intros ev Hev r Hr.
        destruct (Hev r Hr) as [Hu Ha]. split; [exact Hu|exact Ha].
      - constructor; [|constructor]. intros r Hr. inversion Hr; subst r.
        split; reflexivity. }
    split; [rewrite Hls; reflexivity|]. split; [rewrite Hsess; reflexivity|].
    rewrite Hdet; reflexivity.
Qed.

Lemma api_retry_chain_witness :
  ∃ w1 new,
    @api sample_platform 50 (persistent_401 100) 0 get_profile w_fresh_token =
      (Unsettled, w1)
    ∧ extends w_fresh_token w1 new
    ∧ count_events is_wire new = 50%nat
    ∧ Forall (λ ev, ∀ r, ev = EvWire r →
                      url r = url get_profile
                      ∧ Authorization r = Some ("Bearer " +:+ "jwt-exp-5000")) new
    ∧ localStorage w1 = localStorage w_fresh_token
    ∧ session w1 = session w_fresh_token
    ∧ detached w1 = detached w_fresh_token.
Proof.
  apply (@api_retry_chain sample_platform 50 w_fresh_token 0%nat get_profile
           "jwt-exp-5000" 5000 100).
  - reflexivity.
  - discriminate.
  - reflexivity.
  - lia.
  - simpl; unfold TOKEN_REFRESH_THRESHOLD_MS; lia.
  - reflexivity.
Defined.

(** *** Nothing is ever taken out of the trace *)

Lemma grows_ret {A} (a : A) : grows (ret a).
Proof. intros w. exists []. reflexivity. Qed.

Lemma grows_throw {A} (e : AxiosError) : grows (@throw A e).
Proof. intros w. exists []. reflexivity. Qed.

Lemma grows_unsettled {A} : grows (@unsettled A).
Proof. intros w. exists []. reflexivity. Qed.

Lemma grows_emit (e : Event) : grows (emit e).
Proof. intros w. exists [e]. reflexivity. Qed.

Lemma grows_set (p : Patch) : grows (set p).
Proof. intros w. exists [EvSet (merge (session w) p)]. reflexivity. Qed.

Lemma grows_advance (ms : Z) : grows (advance ms).
Proof. intros w. exists []. reflexivity. Qed.

Lemma grows_bind {A B} (m : M A) (k : A → M B) :
  grows m → (∀ a, grows (k a)) → grows (bind m k).
Proof.
  intros Hm Hk w. unfold bind. destruct (Hm w) as [new Hnew].
  destruct (m w) as [[a|e|] w1]; cbn [snd] in *.
  - destruct (Hk a w1) as [new' Hnew']. exists (new' ++ new).
    unfold extends in *. rewrite Hnew', Hnew. apply app_assoc.
  - exists new. exact Hnew.
  - exists new. exact Hnew.
Qed.

Lemma grows_try_catch {A} (m : M A) (handler : AxiosError → M A) :
  grows m → (∀ e, grows (handler e)) → grows (try_catch m handler).
Proof.
  intros Hm Hh w. unfold try_catch. destruct (Hm w) as [new Hnew].
  destruct (m w) as [[a|e|] w1]; cbn [snd] in *.
  - exists new. exact Hnew.
  - destruct (Hh e w1) as [new' Hnew']. exists (new' ++ new).
    unfold extends in *. rewrite Hnew', Hnew. apply app_assoc.
  - exists new. exact Hnew.
Qed.

Lemma grows_logOut_detached : grows logOut_detached.
Proof. intros [s ls rl c t dt]. eexists. solve_extends. Qed.

Lemma grows_getAccessToken `{Platform} (x : Exchange TokenResponse) :
  grows (getAccessToken x).
Proof.
  intros w. destruct (getAccessToken_loading x w) as (r & w1 & new & Hrun & Hext & _).
  exists new. rewrite Hrun. exact Hext.
Qed.

Lemma grows_requestInterceptor `{Platform}
    (request : RequestConfig) (x : Exchange TokenResponse) :
  grows (requestInterceptor request x).
Proof.
  unfold requestInterceptor.
  destruct (includes NO_AUTH_REQUIRED_API_ROUTES (default "" (url request)));
    [apply grows_ret|].
  apply grows_bind; [apply grows_getAccessToken|].
  intros token. destruct (truthy_str token); apply grows_ret.
Qed.

Lemma grows_responseRejected `{Platform}
    (resubmit : RequestConfig → M string) (x : Exchange TokenResponse)
    (error : AxiosError) :
  (∀ request, grows (resubmit request)) → grows (responseRejected resubmit x error).
Proof.
  intros Hre. unfold responseRejected.
  destruct (response error) as [resp|]; [|apply grows_throw].
  destruct (config error) as [req|]; [|apply grows_throw].
  destruct (status resp =? 503); [apply grows_throw|].
  destruct (status resp =? 401); [|apply grows_throw].
  destruct (includes LOGOUT_ERROR_CODES (errorCode resp)).
  { apply grows_bind; [apply grows_logOut_detached|]. intros _. apply grows_throw. }
  destruct (shouldAttemptRefresh req); [|apply grows_throw].
  apply grows_bind.
  - apply grows_try_catch.
    + apply grows_bind; [apply grows_getAccessToken|].
      intros token. destruct (truthy_str token); apply grows_ret.
    + intros _. apply grows_bind; [apply grows_logOut_detached|].
      intros _. apply grows_ret.
  - intros [request|]; [apply Hre|apply grows_throw].
Qed.

Lemma grows_api `{Platform} (fuel : nat) (srv : Server) :
  ∀ k request, grows (api fuel srv k request).
Proof.
  induction fuel as [|fuel IH]; intros k request; [apply grows_unsettled|].
  rewrite api_step.
  apply grows_bind; [apply grows_requestInterceptor|]. intros sent.
  apply grows_bind; [apply grows_emit|]. intros _.
  apply grows_bind; [apply grows_advance|]. intros _.
  destruct (outcome (answer srv k sent)) as [payload|resp]; [apply grows_ret|].
  apply grows_responseRejected. intros request'. apply IH.
Qed.

(** ** logOut *)

Lemma wires_only (events : list Event) :
  Forall (λ ev, is_wire ev = true) events →
  List.filter is_wire events = events
  ∧ ∀ route, List.filter (is_post_to route) events = [].
Proof.
  induction 1 as [|ev events Hev _ [IHw IHp]]; [split; reflexivity|].
  destruct ev; try discriminate. cbn. rewrite IHw. split; [reflexivity|].
  intros route. apply IHp.
Qed.

(** A request to a protected route, sent while the stored access token is
    not expiring soon to a backend that answers every submission with the
    401 of [token_rejected], is resubmitted after every answer: followed
    for [n] submissions it is still not settled, and nothing but the
    clock and the trace has changed. *)
Lemma api_unsettled_while_rejected `{Platform} (n : nat) :
  ∀ (w : World) (k : nat) (request : RequestConfig) (tok : string) (e delay : Z),
    localStorage w !! STORAGE_KEYS.ACCESS_TOKEN = Some tok → tok ≠ "" →
    jwtDecode tok = Some {| exp := Some e |} →
    0 ≤ delay →
    e * 1000 - (clock w + Z.of_nat n * delay) > TOKEN_REFRESH_THRESHOLD_MS →
    shouldAttemptRefresh request = true →
    ∃ w1 new,
      api n (persistent_401 delay) k request w = (Unsettled, w1)
      ∧ extends w w1 new
      ∧ Forall (λ ev, is_wire ev = true) new
      ∧ length new = n
      ∧ localStorage w1 = localStorage w
      ∧ session w1 = session w
      ∧ detached w1 = detached w.
Proof.
  induction n as [|n IH]; intros w k request tok e delay Hacc Hne Hdec Hdelay Hfar Hshould.
  - exists w, []. repeat split. constructor.
  - assert (Hnow : isTokenExpiringSoon tok (clock w) = false)
      by (apply (isTokenExpiringSoon_fresh tok e); [exact Hdec|nia]).
    assert (Hthen : isTokenExpiringSoon tok (clock w + delay) = false)
      by (apply (isTokenExpiringSoon_fresh tok e); [exact Hdec|nia]).
    set (sent := with_bearer request tok).
    set (w' := with_clock (emit (EvWire sent) w).2 (clock w + delay)).
    destruct (IH w' (S k) (with_bearer sent tok) tok e delay)
      as (w1 & new & Hrun & Hext & Hwire & Hlen & Hls & Hsess & Hdet);
      [exact Hacc | exact Hne | exact Hdec | exact Hdelay
      | subst w'; cbn [clock with_clock]; nia | exact Hshould |].
    exists w1, (new ++ [EvWire sent]).
    split.
    { rewrite api_step. unfold bind at 1.
      rewrite (requestInterceptor_fresh request _ w tok Hacc Hne Hnow Hshould).
      fold sent. unfold bind at 1. cbn [emit]. unfold bind at 1, advance.
      cbn [persistent_401 answer took outcome]. fold w'.
      rewrite (responseRejected_resubmits _ _ sent w' tok Hacc Hne Hthen Hshould).
      exact Hrun. }
    split.
    { unfold extends in *. rewrite Hext. subst w'. cbn [trace with_clock emit snd].
      rewrite <- app_assoc. reflexivity. }
    split; [apply Forall_app; split; [exact Hwire|repeat constructor]|].
    split; [rewrite length_app, Hlen; cbn; lia|].
    split; [rewrite Hls; reflexivity|]. split; [rewrite Hsess; reflexivity|].
    rewrite Hdet; reflexivity.
Qed.

(** C6 at the failing input.  [logOut] is called with a stored access
    token that is not expiring soon, and the backend answers the logout
    request, like every request that carries this token, with the 401 of
    [token_rejected].  The logout route is not in
    [NO_AUTH_REQUIRED_API_ROUTES], so the rejection handler resubmits the
    request after every answer: followed for [n] submissions, [logOut]
    has put the request on the wire [n] times and is still waiting;
    [storage.clear()] has not been reached, the tokens are where they
    were, [isLogged] is unchanged and [isLoading] is still true. *)
Theorem logOut_waits_on_rejected_token `{Platform}
    (n : nat) (w : World) (tok : string) (e delay : Z) :
  localStorage w !! STORAGE_KEYS.ACCESS_TOKEN = Some tok → tok ≠ "" →
  jwtDecode tok = Some {| exp := Some e |} →
  0 ≤ delay →
  e * 1000 - (clock w + Z.of_nat n * delay) > TOKEN_REFRESH_THRESHOLD_MS →
  ∃ w1 new,
    logOut n (persistent_401 delay) w = (Unsettled, w1)
    ∧ extends w w1 new
    ∧ count_events is_wire new = n
    ∧ count_events (is_post_to API_ROUTES.logout) new = 1%nat
    ∧ localStorage w1 = localStorage w
    ∧ isLogged (session w1) = isLogged (session w)
    ∧ confirmEmailToken (session w1) = confirmEmailToken (session w)
    ∧ isLoading (session w1) = true.
Proof.
  intros Hacc Hne Hdec Hdelay Hfar.
  destruct w as [s ls rl c t dt]. cbn [localStorage clock] in *.
  set (w0 := {| session := merge s (loading true); localStorage := ls; limiter := rl;
                clock := c; trace := started_from s ++ t; detached := dt |}).
  destruct (api_unsettled_while_rejected n w0 0%nat logout_request tok e delay)
    as (w1 & new & Hrun & Hext & Hwire & Hlen & Hls & Hsess & Hdet);
    [exact Hacc|exact Hne|exact Hdec|exact Hdelay|exact Hfar|reflexivity|].
  destruct (wires_only new Hwire) as [Hwires Hposts].
  exists w1, (new ++ started_from s).
  split.
  { unfold logOut, bind at 1. change (logOut_start _) with (Returned tt, w0).
    cbv iota. unfold logOut_resume, bind at 1, try_catch, bind at 1.
    rewrite Hrun. reflexivity. }
  split.
  { unfold extends in *. rewrite Hext. subst w0. cbn [trace].
    rewrite <- app_assoc. reflexivity. }
  split.
  { unfold count_events. rewrite List.filter_app, length_app, Hwires, Hlen.
    cbn. lia. }
  split.
  { unfold count_events. rewrite List.filter_app, length_app, Hposts. reflexivity. }
  rewrite Hls, Hsess. subst w0. repeat split.
Qed.

Lemma logOut_waits_on_rejected_token_witness :
  ∃ w1 new,
    @logOut sample_platform 50 (persistent_401 100) w_fresh_token = (Unsettled, w1)
    ∧ extends w_fresh_token w1 new
    ∧ count_events is_wire new = 50%nat
    ∧ count_events (is_post_to API_ROUTES.logout) new = 1%nat
    ∧ localStorage w1 = localStorage w_fresh_token
    ∧ isLogged (session w1) = true
    ∧ confirmEmailToken (session w1) = None
    ∧ isLoading (session w1) = true.
Proof.
  apply (@logOut_waits_on_rejected_token sample_platform 50 w_fresh_token
           "jwt-exp-5000" 5000 100).
  - reflexivity.
  - discriminate.
  - reflexivity.
  - lia.
  - simpl; unfold TOKEN_REFRESH_THRESHOLD_MS; lia.
Defined.

Lemma logOut_start_returns (w : World) :
  logOut_start w = (Returned tt, (logOut_start w).2)
  ∧ trace (logOut_start w).2 = started_from (session w) ++ trace w
  ∧ session (logOut_start w).2 = merge (session w) (loading true)
  ∧ localStorage (logOut_start w).2 = localStorage w
  ∧ clock (logOut_start w).2 = clock w
  ∧ detached (logOut_start w).2 = detached w.
Proof. destruct w as [s ls rl c t dt]. repeat split. Qed.

(** [logOut], by the way its request ends. *)
Lemma logOut_unfold `{Platform} (fuel : nat) (srv : Server) (w : World) :
  logOut fuel srv w =
    match api fuel srv 0 logout_request (logOut_start w).2 with
    | (Returned _, wa) =>
        (storage_clear ;;
         set {| set_isLogged := Some false; set_isLoading := Some false;
                set_confirmEmailToken := Some None |}) wa
    | (Thrown _, wa) =>
        (storage_clear ;;
         set {| set_isLogged := Some false; set_isLoading := Some false;
                set_confirmEmailToken := Some None |})
          (logger_error "Logout request failed" wa).2
    | (Unsettled, wa) => (Unsettled, wa)
    end.
Proof.
  unfold logOut, bind at 1.
  rewrite (proj1 (logOut_start_returns w)). cbn [snd].
  unfold logOut_resume, try_catch, bind at 1 2.
  destruct (api fuel srv 0 logout_request (logOut_start w).2) as [[payload|e|] wa];
    reflexivity.
Qed.

(** Whenever the logout request of [logOut] settles, resolved or
    rejected, [logOut] returns: the failure is logged and not thrown, the
    three storage keys are removed and the session is signed out. *)
Lemma logOut_settled `{Platform} (fuel : nat) (srv : Server) (w : World) :
  (logOut fuel srv w).1 ≠ Unsettled →
  ∃ w1 rest,
    logOut fuel srv w = (Returned tt, w1)
    ∧ trace w1 = rest ++ EvSet (merge (session w) (loading true)) :: trace w
    ∧ storage_cleared w1
    ∧ signed_out w1.
Proof.
  rewrite logOut_unfold.
  destruct (logOut_start_returns w) as (_ & Htr0 & _).
  destruct (grows_api fuel srv 0%nat logout_request (logOut_start w).2) as [new Hnew].
  destruct (api fuel srv 0 logout_request (logOut_start w).2) as [[payload|e|] wa];
    cbn [fst snd] in *; intros Hsettled; [| |contradiction]; clear Hsettled;
    unfold extends in Hnew; rewrite Htr0 in Hnew;
    destruct wa as [sa lsa rla ca ta dta]; cbn [trace] in Hnew; subst ta; cbn.
  - eexists _, (_ :: new ++ [_; _]). split; [reflexivity|]. split.
    { cbn. rewrite <- app_assoc. reflexivity. }
    split; [|repeat split].
    apply (storage_clear_cleared
             {| session := sa; localStorage := lsa; limiter := rla; clock := ca;
                trace := new ++ started_from (session w) ++ trace w;
                detached := dta |}).
  - eexists _, (_ :: _ :: new ++ [_; _]). split; [reflexivity|]. split.
    { cbn. rewrite <- app_assoc. reflexivity. }
    split; [|repeat split].
    apply (storage_clear_cleared
             {| session := sa; localStorage := lsa; limiter := rla; clock := ca;
                trace := EvLog "error" "Logout request failed"
                         :: new ++ started_from (session w) ++ trace w;
                detached := dta |}).
Qed.

(** ** The loading flag *)



















(** * Further properties *)

(** ** Rate limiter: reset, isolation, counting, end of a lockout *)

Module RateLimiterMore.
Import RateLimiter.

Lemma config_checkLimit now id rl : config (checkLimit now id rl).2 = config rl.
Proof.
  unfold checkLimit. destruct (attempts rl !! id) as [r|]; [|reflexivity].
  destruct (currently_blocked r now); [reflexivity|].
  destruct (_ >? _); [reflexivity|].
  destruct (_ >=? _); reflexivity.
Qed.

(** The answer of a check depends on the configuration and on the record
    of the checked identifier only. *)
Lemma checkLimit_answer_local now id rl rl' :
  config rl = config rl' →
  attempts rl !! id = attempts rl' !! id →
  (checkLimit now id rl).1 = (checkLimit now id rl').1.
Proof.
  intros Hc Ha. unfold checkLimit. rewrite <- Ha, <- Hc.
  destruct (attempts rl !! id) as [r|]; [|reflexivity].
  destruct (currently_blocked r now); [reflexivity|].
  destruct (_ >? _); [reflexivity|].
  destruct (_ >=? _); reflexivity.
Qed.

Lemma checkLimit_other now id other rl :
  id ≠ other → attempts (checkLimit now id rl).2 !! other = attempts rl !! other.
Proof.
  intros Hne. unfold checkLimit. destruct (attempts rl !! id) as [r|]; [|reflexivity].
  destruct (currently_blocked r now); [reflexivity|].
  destruct (_ >? _); [simpl; apply lookup_delete_ne; exact Hne|].
  destruct (_ >=? _); [simpl; apply lookup_insert_ne; exact Hne|reflexivity].
Qed.

Lemma recordAttempt_other now id other rl :
  id ≠ other → attempts (recordAttempt now id rl) !! other = attempts rl !! other.
Proof.
  intros Hne. unfold recordAttempt.
  destruct (starts_new_window _ _ _); [simpl; apply lookup_insert_ne; exact Hne|].
  destruct (attempts rl !! id); [simpl; apply lookup_insert_ne; exact Hne|reflexivity].
Qed.

End RateLimiterMore.

(** X1.  After [reset(id)], and after [clearAll()], [checkLimit(id)]
    allows with [attemptsRemaining = maxAttempts - 1] and changes nothing,
    whatever the limiter held before and whatever the time. *)
Theorem reset_then_checkLimit_allows (rl : RateLimiter.t) (id : string) (now : Z) :
  RateLimiter.checkLimit now id (RateLimiter.reset id rl) =
    ({| RateLimiter.isAllowed := true; RateLimiter.retryAfter := None;
        RateLimiter.attemptsRemaining :=
          Some (RateLimiter.maxAttempts (RateLimiter.config rl) - 1) |},
     RateLimiter.reset id rl)
  ∧ RateLimiter.checkLimit now id (RateLimiter.clearAll rl) =
    ({| RateLimiter.isAllowed := true; RateLimiter.retryAfter := None;
        RateLimiter.attemptsRemaining :=
          Some (RateLimiter.maxAttempts (RateLimiter.config rl) - 1) |},
     RateLimiter.clearAll rl).
Proof.
  split.
  - unfold RateLimiter.checkLimit, RateLimiter.reset. simpl.
    rewrite lookup_delete_eq. reflexivity.
  - unfold RateLimiter.checkLimit, RateLimiter.clearAll. simpl.
    rewrite lookup_empty. reflexivity.
Qed.

(** X2.  Identifiers do not interact: [checkLimit], [recordAttempt] and
    [reset] on one identifier leave the record of every other identifier
    as it was, and so do not change what [checkLimit] answers for it at
    any time. *)
Theorem limiter_identifiers_independent
    (rl : RateLimiter.t) (id other : string) (now later : Z) :
  id ≠ other →
  (RateLimiter.attempts (RateLimiter.checkLimit now id rl).2 !! other =
     RateLimiter.attempts rl !! other
   ∧ RateLimiter.attempts (RateLimiter.recordAttempt now id rl) !! other =
       RateLimiter.attempts rl !! other
   ∧ RateLimiter.attempts (RateLimiter.reset id rl) !! other =
       RateLimiter.attempts rl !! other)
  ∧ (RateLimiter.checkLimit later other (RateLimiter.checkLimit now id rl).2).1 =
       (RateLimiter.checkLimit later other rl).1
  ∧ (RateLimiter.checkLimit later other (RateLimiter.recordAttempt now id rl)).1 =
       (RateLimiter.checkLimit later other rl).1
  ∧ (RateLimiter.checkLimit later other (RateLimiter.reset id rl)).1 =
       (RateLimiter.checkLimit later other rl).1.
Proof.
  intros Hne.
  pose proof (RateLimiterMore.checkLimit_other now id other rl Hne) as Hc.
  pose proof (RateLimiterMore.recordAttempt_other now id other rl Hne) as Hr.
  assert (Hd : RateLimiter.attempts (RateLimiter.reset id rl) !! other =
               RateLimiter.attempts rl !! other)
    by (simpl; apply lookup_delete_ne; exact Hne).
  split; [auto|].
  split; [|split]; apply RateLimiterMore.checkLimit_answer_local.
  - apply RateLimiterMore.config_checkLimit.
  - exact Hc.
  - apply RateLimiterFacts.config_recordAttempt.
  - exact Hr.
  - reflexivity.
  - exact Hd.
Qed.

Lemma limiter_identifiers_independent_witness :
  RateLimiter.attempts
    (RateLimiter.recordAttempt 1000000 "ana@example.org" blocked_limiter)
    !! "bob@example.org" = None
  ∧ (RateLimiter.checkLimit 1000001 "bob@example.org"
       (RateLimiter.recordAttempt 1000000 "ana@example.org" blocked_limiter)).1 =
    (RateLimiter.checkLimit 1000001 "bob@example.org" blocked_limiter).1.
Proof.
  destruct (limiter_identifiers_independent blocked_limiter
              "ana@example.org" "bob@example.org" 1000000 1000001)
    as ((_ & Hr & _) & _ & Hc & _).
  - discriminate.
  - split; [rewrite Hr; reflexivity|exact Hc].
Defined.

(** X3.  [checkLimit] never counts: it keeps the configuration, never
    creates a record, never changes the [count] or the [firstAttemptTime]
    of a record it keeps, and when it allows it either leaves the record
    untouched or removes it. *)
Theorem checkLimit_never_counts (rl : RateLimiter.t) (id : string) (now : Z) :
  RateLimiter.config (RateLimiter.checkLimit now id rl).2 = RateLimiter.config rl
  ∧ (∀ r', RateLimiter.attempts (RateLimiter.checkLimit now id rl).2 !! id = Some r' →
       ∃ r, RateLimiter.attempts rl !! id = Some r
            ∧ RateLimiter.count r' = RateLimiter.count r
            ∧ RateLimiter.firstAttemptTime r' = RateLimiter.firstAttemptTime r)
  ∧ (RateLimiter.isAllowed (RateLimiter.checkLimit now id rl).1 = true →
     RateLimiter.attempts (RateLimiter.checkLimit now id rl).2 !! id =
       RateLimiter.attempts rl !! id
     ∨ RateLimiter.attempts (RateLimiter.checkLimit now id rl).2 !! id = None).
Proof.
  split; [apply RateLimiterMore.config_checkLimit|].
  unfold RateLimiter.checkLimit.
  destruct (RateLimiter.attempts rl !! id) as [r|] eqn:Hrec.
  2: { split; [intros r' Hr'; simpl in Hr'; congruence|intros _; left; exact Hrec]. }
  destruct (RateLimiter.currently_blocked r now).
  { split; [intros r' Hr'; simpl in Hr'; exists r; split; [reflexivity|];
            rewrite Hrec in Hr'; inversion Hr'; auto
           |intros Hf; discriminate]. }
  destruct (_ >? _).
  { split; [intros r' Hr'; simpl in Hr'; rewrite lookup_delete_eq in Hr'; discriminate
           |intros _; right; simpl; apply lookup_delete_eq]. }
  destruct (_ >=? _).
  { split; [intros r' Hr'; simpl in Hr'; rewrite lookup_insert_eq in Hr';
            inversion Hr'; exists r; auto
           |intros Hf; discriminate]. }
  split; [intros r' Hr'; simpl in Hr'; exists r; split; [reflexivity|];
          rewrite Hrec in Hr'; inversion Hr'; auto
         |intros _; left; exact Hrec].
Qed.

(** X4.  Counting down: after [k] attempts that open a window and stay
    inside it, with [k] below [maxAttempts], a check made while the window
    is open allows, reports [attemptsRemaining = maxAttempts - k - 1] and
    changes nothing. *)
Theorem checkLimit_counts_down
    (rl : RateLimiter.t) (id : string) (t1 : Z) (ts : list Z) (tc : Z) :
  RateLimiter.starts_new_window t1 rl (RateLimiter.attempts rl !! id) = true →
  Z.of_nat (length (t1 :: ts)) < RateLimiter.maxAttempts (RateLimiter.config rl) →
  Forall (λ t, t - t1 ≤ RateLimiter.windowMs (RateLimiter.config rl)) ts →
  tc - t1 ≤ RateLimiter.windowMs (RateLimiter.config rl) →
  RateLimiter.checkLimit tc id (RateLimiter.recordAttempts (t1 :: ts) id rl) =
    ({| RateLimiter.isAllowed := true; RateLimiter.retryAfter := None;
        RateLimiter.attemptsRemaining :=
          Some (RateLimiter.maxAttempts (RateLimiter.config rl)
                - Z.of_nat (length (t1 :: ts)) - 1) |},
     RateLimiter.recordAttempts (t1 :: ts) id rl).
Proof.
  intros Hnew Hlen Hall Hwin.
  destruct (RateLimiterFacts.recordAttempts_fill rl id t1 ts Hnew Hall) as [Hrec Hcfg].
  unfold RateLimiter.checkLimit. rewrite Hrec, Hcfg.
  unfold RateLimiter.currently_blocked.
  cbn [RateLimiter.blockedUntil RateLimiter.firstAttemptTime RateLimiter.count].
  destruct (Z.gtb_spec (tc - t1) (RateLimiter.windowMs (RateLimiter.config rl))); [lia|].
  destruct (Z.geb_spec (Z.of_nat (length (t1 :: ts)))
              (RateLimiter.maxAttempts (RateLimiter.config rl))); [lia|].
  reflexivity.
Qed.

Lemma checkLimit_counts_down_witness :
  RateLimiter.checkLimit 4000 "ana@example.org"
    (RateLimiter.recordAttempts [1000; 2000; 3000] "ana@example.org"
       RateLimiter.authRateLimiter) =
    ({| RateLimiter.isAllowed := true; RateLimiter.retryAfter := None;
        RateLimiter.attemptsRemaining := Some (5 - 3 - 1) |},
     RateLimiter.recordAttempts [1000; 2000; 3000] "ana@example.org"
       RateLimiter.authRateLimiter).
Proof.
  apply (checkLimit_counts_down RateLimiter.authRateLimiter "ana@example.org"
           1000 [2000; 3000] 4000).
  - reflexivity.
  - simpl; lia.
  - repeat constructor; simpl; lia.
  - simpl; lia.
Defined.

(** The limiter right after the check that triggers a lockout. *)
Lemma triggered_state (rl : RateLimiter.t) (id : string) (t1 : Z) (ts : list Z) (tc : Z) :
  RateLimiter.starts_new_window t1 rl (RateLimiter.attempts rl !! id) = true →
  Z.of_nat (length (t1 :: ts)) = RateLimiter.maxAttempts (RateLimiter.config rl) →
  Forall (λ t, t - t1 ≤ RateLimiter.windowMs (RateLimiter.config rl)) ts →
  tc - t1 ≤ RateLimiter.windowMs (RateLimiter.config rl) →
  RateLimiter.isAllowed
    (RateLimiter.checkLimit tc id (RateLimiter.recordAttempts (t1 :: ts) id rl)).1 = false
  ∧ RateLimiter.config
      (RateLimiter.checkLimit tc id (RateLimiter.recordAttempts (t1 :: ts) id rl)).2 =
      RateLimiter.config rl
  ∧ RateLimiter.attempts
      (RateLimiter.checkLimit tc id (RateLimiter.recordAttempts (t1 :: ts) id rl)).2
      !! id =
      Some {| RateLimiter.count := RateLimiter.maxAttempts (RateLimiter.config rl);
              RateLimiter.firstAttemptTime := t1;
              RateLimiter.blockedUntil :=
                Some (tc + RateLimiter.blockDurationMs (RateLimiter.config rl)) |}.
Proof.
  intros Hnew Hlen Hall Hwin.
  destruct (RateLimiterFacts.recordAttempts_fill rl id t1 ts Hnew Hall) as [Hrec Hcfg].
  pose proof (RateLimiterFacts.checkLimit_triggers
                (RateLimiter.recordAttempts (t1 :: ts) id rl) id _ tc Hrec eq_refl) as Htrig.
  rewrite Hcfg in Htrig.
  cbn [RateLimiter.count RateLimiter.firstAttemptTime] in Htrig.
  rewrite Hlen in Htrig. specialize (Htrig Hwin (Z.le_refl _)).
  rewrite Htrig. cbn [fst snd RateLimiter.isAllowed].
  split; [reflexivity|]. split; [exact Hcfg|].
  simpl. apply lookup_insert_eq.
Qed.

(** X5.  A lockout ends: after the check at [tc] that triggered it, a
    check made once the block duration has passed and the window of the
    first attempt has elapsed allows again, with
    [attemptsRemaining = maxAttempts - 1], and forgets the identifier. *)
Theorem lockout_ends
    (rl : RateLimiter.t) (id : string) (t1 : Z) (ts : list Z) (tc t : Z) :
  RateLimiter.starts_new_window t1 rl (RateLimiter.attempts rl !! id) = true →
  Z.of_nat (length (t1 :: ts)) = RateLimiter.maxAttempts (RateLimiter.config rl) →
  Forall (λ t, t - t1 ≤ RateLimiter.windowMs (RateLimiter.config rl)) ts →
  tc - t1 ≤ RateLimiter.windowMs (RateLimiter.config rl) →
  tc + RateLimiter.blockDurationMs (RateLimiter.config rl) ≤ t →
  t - t1 > RateLimiter.windowMs (RateLimiter.config rl) →
  let locked :=
    (RateLimiter.checkLimit tc id (RateLimiter.recordAttempts (t1 :: ts) id rl)).2 in
  (RateLimiter.checkLimit t id locked).1 =
    {| RateLimiter.isAllowed := true; RateLimiter.retryAfter := None;
       RateLimiter.attemptsRemaining :=
         Some (RateLimiter.maxAttempts (RateLimiter.config rl) - 1) |}
  ∧ RateLimiter.attempts (RateLimiter.checkLimit t id locked).2 !! id = None.
Proof.
  intros Hnew Hlen Hall Hwin Hblock Hout locked.
  destruct (triggered_state rl id t1 ts tc Hnew Hlen Hall Hwin) as (_ & Hcfg & Hrec).
  fold locked in Hcfg, Hrec.
  unfold RateLimiter.checkLimit. rewrite Hrec, Hcfg.
  unfold RateLimiter.currently_blocked.
  cbn [RateLimiter.blockedUntil RateLimiter.firstAttemptTime].
  destruct (Z.gtb_spec (tc + RateLimiter.blockDurationMs (RateLimiter.config rl)) t);
    [lia|].
  rewrite andb_false_r.
  destruct (Z.gtb_spec (t - t1) (RateLimiter.windowMs (RateLimiter.config rl))); [|lia].
  split; [reflexivity|]. simpl. apply lookup_delete_eq.
Qed.

Lemma lockout_ends_witness :
  let locked :=
    (RateLimiter.checkLimit 6000 "ana@example.org"
       (RateLimiter.recordAttempts [1000; 2000; 3000; 4000; 5000] "ana@example.org"
          RateLimiter.authRateLimiter)).2 in
  (RateLimiter.checkLimit 906000 "ana@example.org" locked).1 =
    {| RateLimiter.isAllowed := true; RateLimiter.retryAfter := None;
       RateLimiter.attemptsRemaining := Some (5 - 1) |}
  ∧ RateLimiter.attempts (RateLimiter.checkLimit 906000 "ana@example.org" locked).2
      !! "ana@example.org" = None.
Proof.
  apply (lockout_ends RateLimiter.authRateLimiter "ana@example.org"
           1000 [2000; 3000; 4000; 5000] 6000 906000).
  - reflexivity.
  - reflexivity.
  - repeat constructor; simpl; lia.
  - simpl; lia.
  - simpl; lia.
  - simpl; lia.
Defined.

(** X6.  A lockout that runs out while the window of the first attempt is
    still open is renewed by the next check: that check denies again and
    moves [blockedUntil] to its own time plus [blockDurationMs], although
    nothing was recorded since. *)
Theorem lockout_renewed_inside_window
    (rl : RateLimiter.t) (id : string) (t1 : Z) (ts : list Z) (tc t : Z) :
  RateLimiter.starts_new_window t1 rl (RateLimiter.attempts rl !! id) = true →
  Z.of_nat (length (t1 :: ts)) = RateLimiter.maxAttempts (RateLimiter.config rl) →
  Forall (λ t, t - t1 ≤ RateLimiter.windowMs (RateLimiter.config rl)) ts →
  tc - t1 ≤ RateLimiter.windowMs (RateLimiter.config rl) →
  tc + RateLimiter.blockDurationMs (RateLimiter.config rl) ≤ t →
  t - t1 ≤ RateLimiter.windowMs (RateLimiter.config rl) →
  let locked :=
    (RateLimiter.checkLimit tc id (RateLimiter.recordAttempts (t1 :: ts) id rl)).2 in
  RateLimiter.isAllowed (RateLimiter.checkLimit t id locked).1 = false
  ∧ RateLimiter.attempts (RateLimiter.checkLimit t id locked).2 !! id =
      Some {| RateLimiter.count := RateLimiter.maxAttempts (RateLimiter.config rl);
              RateLimiter.firstAttemptTime := t1;
              RateLimiter.blockedUntil :=
                Some (t + RateLimiter.blockDurationMs (RateLimiter.config rl)) |}.
Proof.
  intros Hnew Hlen Hall Hwin Hblock Hin locked.
  destruct (triggered_state rl id t1 ts tc Hnew Hlen Hall Hwin) as (_ & Hcfg & Hrec).
  fold locked in Hcfg, Hrec.
  assert (Hnb : RateLimiter.currently_blocked
                  {| RateLimiter.count := RateLimiter.maxAttempts (RateLimiter.config rl);
                     RateLimiter.firstAttemptTime := t1;
                     RateLimiter.blockedUntil :=
                       Some (tc + RateLimiter.blockDurationMs (RateLimiter.config rl)) |}
                  t = false).
  { unfold RateLimiter.currently_blocked. cbn [RateLimiter.blockedUntil].
    destruct (Z.gtb_spec (tc + RateLimiter.blockDurationMs (RateLimiter.config rl)) t);
      [lia|]. apply andb_false_r. }
  pose proof (RateLimiterFacts.checkLimit_triggers locked id _ t Hrec Hnb) as Htrig.
  rewrite Hcfg in Htrig. cbn [RateLimiter.count RateLimiter.firstAttemptTime] in Htrig.
  specialize (Htrig Hin (Z.le_refl _)). rewrite Htrig.
  split; [reflexivity|]. simpl. apply lookup_insert_eq.
Qed.

Lemma lockout_renewed_inside_window_witness :
  let locked :=
    (RateLimiter.checkLimit 3000 "ana@example.org"
       (RateLimiter.recordAttempts [0; 1000; 2000] "ana@example.org"
          short_block_limiter)).2 in
  RateLimiter.isAllowed (RateLimiter.checkLimit 63000 "ana@example.org" locked).1 = false
  ∧ RateLimiter.attempts (RateLimiter.checkLimit 63000 "ana@example.org" locked).2
      !! "ana@example.org" =
      Some {| RateLimiter.count := 3; RateLimiter.firstAttemptTime := 0;
              RateLimiter.blockedUntil := Some (63000 + 60000) |}.
Proof.
  apply (lockout_renewed_inside_window short_block_limiter "ana@example.org"
           0 [1000; 2000] 3000 63000).
  - reflexivity.
  - reflexivity.
  - repeat constructor; simpl; lia.
  - simpl; lia.
  - simpl; lia.
  - simpl; lia.
Defined.

(** ** Exponential backoff *)

Lemma two_power_5 : (Qpower (inject_Z 2) 5 == inject_Z 32)%Q.
Proof. reflexivity. Qed.

Lemma backoff_small (n : Z) :
  1 ≤ n ≤ 5 →
  (getExponentialBackoff n == inject_Z (1000 * 2 ^ (n - 1)))%Q.
Proof.
  intros Hn.
  assert (Hcases : n = 1 ∨ n = 2 ∨ n = 3 ∨ n = 4 ∨ n = 5) by lia.
  destruct Hcases as [->|[->|[->|[->| ->]]]]; reflexivity.
Qed.

Lemma backoff_capped (n : Z) :
  6 ≤ n → (getExponentialBackoff n == inject_Z 30000)%Q.
Proof.
  intros Hn. unfold getExponentialBackoff. cbv zeta.
  apply Q.min_r.
  assert (Hpow : (Qpower (inject_Z 2) 5 <= Qpower (inject_Z 2) (n - 1))%Q)
    by (apply Qpower_le_compat_l; [lia|discriminate]).
  rewrite two_power_5 in Hpow.
  apply Qle_trans with (inject_Z 1000 * inject_Z 32)%Q; [discriminate|].
  apply Qmult_le_l; [reflexivity|exact Hpow].
Qed.

(** X7.  [getExponentialBackoff]: the delay is never above 30 000 ms and
    is positive for any attempt count from zero up (500 ms for zero); it
    is 1000, 2000, 4000, 8000, 16 000 ms for 1 to 5 attempts and
    30 000 ms from the sixth on; and it never decreases with the number of
    attempts. *)
Theorem getExponentialBackoff_bounds :
  (∀ n, (getExponentialBackoff n <= inject_Z 30000)%Q)
  ∧ (∀ n, 0 ≤ n → (0 < getExponentialBackoff n)%Q)
  ∧ (getExponentialBackoff 0 == inject_Z 500)%Q
  ∧ (∀ n, 1 ≤ n ≤ 5 → (getExponentialBackoff n == inject_Z (1000 * 2 ^ (n - 1)))%Q)
  ∧ (∀ n, 6 ≤ n → (getExponentialBackoff n == inject_Z 30000)%Q)
  ∧ (∀ n m, n ≤ m → (getExponentialBackoff n <= getExponentialBackoff m)%Q).
Proof.
  split; [|split; [|split; [reflexivity|split; [exact backoff_small
                                              |split; [exact backoff_capped|]]]]].
  - intros n. unfold getExponentialBackoff. cbv zeta. apply Q.le_min_r.
  - intros n _. unfold getExponentialBackoff. cbv zeta.
    apply Q.min_glb_lt; [|reflexivity].
    apply Qmult_lt_0_compat; [reflexivity|].
    apply Qpower_0_lt. reflexivity.
  - intros n m Hnm. unfold getExponentialBackoff. cbv zeta.
    apply Q.min_le_compat_r.
    apply Qmult_le_l; [reflexivity|].
    apply Qpower_le_compat_l; [lia|discriminate].
Qed.

Lemma getExponentialBackoff_bounds_witness :
  (0 < getExponentialBackoff 3)%Q
  ∧ (getExponentialBackoff 3 == inject_Z 4000)%Q
  ∧ (getExponentialBackoff 9 == inject_Z 30000)%Q
  ∧ (getExponentialBackoff 3 <= getExponentialBackoff 9)%Q.
Proof.
  destruct getExponentialBackoff_bounds as (_ & Hpos & _ & Hsmall & Hcap & Hmono).
  split; [apply Hpos; lia|].
  split; [apply (Hsmall 3); lia|].
  split; [apply Hcap; lia|apply Hmono; lia].
Defined.

(** ** Token storage *)

(** X8.  Token storage round trip: after [setTokens(access, refresh)] the
    two getters return exactly that pair and change nothing; the cached
    user is not touched; a second [setTokens] overwrites both; and after
    [clear()] both getters return [null]. *)
Theorem storage_tokens_round_trip (access refresh : string) (w : World) :
  let w1 := (storage_setTokens access refresh w).2 in
  storage_getAccessToken w1 = (Returned (Some access), w1)
  ∧ storage_getRefreshToken w1 = (Returned (Some refresh), w1)
  ∧ localStorage w1 !! STORAGE_KEYS.USER = localStorage w !! STORAGE_KEYS.USER
  ∧ (∀ access' refresh',
       let w2 := (storage_setTokens access' refresh' w1).2 in
       storage_getAccessToken w2 = (Returned (Some access'), w2)
       ∧ storage_getRefreshToken w2 = (Returned (Some refresh'), w2))
  ∧ (let w3 := (storage_clear w1).2 in
     storage_getAccessToken w3 = (Returned None, w3)
     ∧ storage_getRefreshToken w3 = (Returned None, w3)).
Proof.
  assert (Hget : ∀ a r w0,
            let w' := (storage_setTokens a r w0).2 in
            storage_getAccessToken w' = (Returned (Some a), w')
            ∧ storage_getRefreshToken w' = (Returned (Some r), w')).
  { intros a r w0. unfold storage_getAccessToken, storage_getRefreshToken. simpl.
    rewrite lookup_insert_ne by done. rewrite !lookup_insert_eq. auto. }
  cbv zeta. split; [apply Hget|]. split; [apply Hget|]. split.
  { simpl. rewrite !lookup_insert_ne by done. reflexivity. }
  split; [intros a' r'; apply Hget|].
  destruct (storage_clear_cleared (storage_setTokens access refresh w).2) as (Ha & Hr & _).
  unfold storage_getAccessToken, storage_getRefreshToken. rewrite Ha, Hr. auto.
Qed.

(** X9.  Cached user round trip: when [JSON.parse] inverts
    [JSON.stringify] on a user (whose text is not empty), [getUser()]
    after [setUser(user)] returns that user and changes nothing; the
    stored tokens are not touched by [setUser]. *)
Theorem getUser_after_setUser `{Platform} (user : User) (w : World) :
  JSON_parse (JSON_stringify user) = Some user →
  JSON_stringify user ≠ "" →
  let w1 := (storage_setUser user w).2 in
  getUser w1 = (Returned (Some user), w1)
  ∧ localStorage w1 !! STORAGE_KEYS.ACCESS_TOKEN =
      localStorage w !! STORAGE_KEYS.ACCESS_TOKEN
  ∧ localStorage w1 !! STORAGE_KEYS.REFRESH_TOKEN =
      localStorage w !! STORAGE_KEYS.REFRESH_TOKEN.
Proof.
  intros Hparse Hne. cbv zeta. split.
  - unfold getUser, storage_getUser. simpl. rewrite lookup_insert_eq.
    rewrite (truthy_some _ Hne). simpl. rewrite Hparse. reflexivity.
  - simpl. rewrite !lookup_insert_ne by done. auto.
Qed.

Lemma getUser_after_setUser_witness :
  let w1 := (@storage_setUser strict_platform "{username: ana}" w_fresh_token).2 in
  @getUser strict_platform w1 = (Returned (Some "{username: ana}"), w1)
  ∧ localStorage w1 !! STORAGE_KEYS.ACCESS_TOKEN =
      localStorage w_fresh_token !! STORAGE_KEYS.ACCESS_TOKEN
  ∧ localStorage w1 !! STORAGE_KEYS.REFRESH_TOKEN =
      localStorage w_fresh_token !! STORAGE_KEYS.REFRESH_TOKEN.
Proof.
  apply (@getUser_after_setUser strict_platform "{username: ana}" w_fresh_token).
  - reflexivity.
  - discriminate.
Defined.

(** X10.  [getUser()] fails safe: with no user entry (or an empty one) it
    returns [null] and changes nothing; with an entry that [JSON.parse]
    rejects it returns [null] and removes that entry only, leaving tokens,
    session and limiter as they are, so that the next [getUser()] finds
    nothing and changes nothing. *)
Theorem getUser_purges_corrupt_entry `{Platform} (w : World) :
  (truthy_str (localStorage w !! STORAGE_KEYS.USER) = false →
   getUser w = (Returned None, w))
  ∧ (∀ s, localStorage w !! STORAGE_KEYS.USER = Some s → s ≠ "" →
       JSON_parse s = None →
       ∃ w1,
         getUser w = (Returned None, w1)
         ∧ localStorage w1 = delete STORAGE_KEYS.USER (localStorage w)
         ∧ localStorage w1 !! STORAGE_KEYS.ACCESS_TOKEN =
             localStorage w !! STORAGE_KEYS.ACCESS_TOKEN
         ∧ localStorage w1 !! STORAGE_KEYS.REFRESH_TOKEN =
             localStorage w !! STORAGE_KEYS.REFRESH_TOKEN
         ∧ session w1 = session w ∧ limiter w1 = limiter w ∧ trace w1 = trace w
         ∧ getUser w1 = (Returned None, w1)).
Proof.
  split.
  - intros Hno. unfold getUser, storage_getUser. rewrite Hno. reflexivity.
  - intros s Hs Hne Hbad.
    unfold getUser, storage_getUser. rewrite Hs, (truthy_some s Hne). simpl.
    rewrite Hbad. eexists. split; [reflexivity|]. simpl.
    split; [reflexivity|]. rewrite !lookup_delete_ne by done.
    split; [reflexivity|]. split; [reflexivity|].
    split; [reflexivity|]. split; [reflexivity|]. split; [reflexivity|].
    rewrite lookup_delete_eq. reflexivity.
Qed.

Lemma getUser_purges_corrupt_entry_witness :
  ∃ w1,
    @getUser strict_platform w_corrupt_user = (Returned None, w1)
    ∧ localStorage w1 = delete STORAGE_KEYS.USER (localStorage w_corrupt_user)
    ∧ localStorage w1 !! STORAGE_KEYS.ACCESS_TOKEN =
        localStorage w_corrupt_user !! STORAGE_KEYS.ACCESS_TOKEN
    ∧ localStorage w1 !! STORAGE_KEYS.REFRESH_TOKEN =
        localStorage w_corrupt_user !! STORAGE_KEYS.REFRESH_TOKEN
    ∧ session w1 = session w_corrupt_user ∧ limiter w1 = limiter w_corrupt_user
    ∧ trace w1 = trace w_corrupt_user
    ∧ @getUser strict_platform w1 = (Returned None, w1).
Proof.
  apply (proj2 (@getUser_purges_corrupt_entry strict_platform w_corrupt_user) "<html>").
  - reflexivity.
  - discriminate.
  - reflexivity.
Defined.

(** ** Token validity *)

Lemma isTokenValid_true `{Platform} (token : option string) (now : Z) :
  isTokenValid token now = true ↔
  ∃ s e, token = Some s ∧ s ≠ ""
         ∧ jwtDecode s = Some {| exp := Some e |} ∧ now < e * 1000.
Proof.
  unfold isTokenValid, truthy_str. split.
  - destruct token as [s|]; [|discriminate].
    destruct (String.eqb_spec s ""); [discriminate|]. simpl.
    destruct (jwtDecode s) as [[[e|]]|] eqn:Hdec; try discriminate.
    intros Hgt. exists s, e.
    destruct (Z.gtb_spec (e * 1000) now); [auto|discriminate].
  - intros (s & e & -> & Hne & Hdec & Hlt).
    destruct (String.eqb_spec s ""); [contradiction|]. simpl. rewrite Hdec.
    destruct (Z.gtb_spec (e * 1000) now); [reflexivity|lia].
Qed.

(** X11.  [isTokenValid] answers true exactly for a non-empty token that
    decodes with an [exp] claim JavaScript takes for a number [e] (a
    number, or a value it coerces to one, such as a numeric string) whose
    [e * 1000] lies strictly in the future; a missing, empty or
    undecodable token and a payload whose [exp * 1000] is NaN (no [exp]
    claim, or one that is not taken for a number) are invalid.  A token
    valid at some time is valid at every earlier time.  The store starts
    with [isLogged] true exactly when the stored refresh token is valid,
    and with [isLoading] false and no [confirmEmailToken]. *)
Theorem isTokenValid_characterised `{Platform} (now : Z) :
  (∀ token,
     isTokenValid token now = true ↔
     ∃ s e, token = Some s ∧ s ≠ ""
            ∧ jwtDecode s = Some {| exp := Some e |} ∧ now < e * 1000)
  ∧ (∀ token earlier,
       earlier ≤ now → isTokenValid token now = true →
       isTokenValid token earlier = true)
  ∧ (∀ ls,
       (isLogged (initial_session ls now) = true ↔
        ∃ s e, ls !! STORAGE_KEYS.REFRESH_TOKEN = Some s ∧ s ≠ ""
               ∧ jwtDecode s = Some {| exp := Some e |} ∧ now < e * 1000)
       ∧ isLoading (initial_session ls now) = false
       ∧ confirmEmailToken (initial_session ls now) = None).
Proof.
  split; [intros token; apply isTokenValid_true|]. split.
  - intros token earlier Hle Hvalid.
    apply isTokenValid_true in Hvalid as (s & e & Ht & Hne & Hdec & Hlt).
    apply isTokenValid_true. exists s, e. repeat split; auto. lia.
  - intros ls. split; [|split; reflexivity].
    unfold initial_session. cbn [isLogged]. apply isTokenValid_true.
Qed.

Lemma isTokenValid_characterised_witness :
  @isTokenValid sample_platform (Some "jwt-exp-5000") 1000000 = true
  ∧ @isTokenValid sample_platform (Some "jwt-exp-5000") 999 = true
  ∧ isLogged (@initial_session sample_platform
                (storage_of "jwt-exp-1200" "jwt-exp-9000") 1000000) = true.
Proof.
  destruct (@isTokenValid_characterised sample_platform 1000000) as (Hiff & Hmono & Hinit).
  assert (Hv : @isTokenValid sample_platform (Some "jwt-exp-5000") 1000000 = true).
  { apply Hiff. exists "jwt-exp-5000", 5000.
    split; [reflexivity|]. split; [discriminate|]. split; [reflexivity|lia]. }
  split; [exact Hv|]. split; [apply (Hmono _ 999); [lia|exact Hv]|].
  apply (proj1 (Hinit _)). exists "jwt-exp-9000", 9000.
  split; [reflexivity|]. split; [discriminate|]. split; [reflexivity|lia].
Defined.

(** X12.  [isTokenExpiringSoon] answers false in two cases only: an [exp]
    claim that JavaScript takes for a number [e] with more than
    [TOKEN_REFRESH_THRESHOLD_MS] left ([e * 1000 - now] above it), or a
    payload whose [exp * 1000] is NaN (no [exp] claim, or one that is not
    taken for a number; [null] is taken for 0 and is not such a case).
    In the second case the token is not valid either, yet
    [getAccessToken] hands it out unchanged, without a refresh, whatever
    the clock says. *)
Theorem token_without_exp_never_refreshed `{Platform} (tok : string) :
  (∀ now,
     isTokenExpiringSoon tok now = false ↔
     (∃ e, jwtDecode tok = Some {| exp := Some e |}
           ∧ e * 1000 - now > TOKEN_REFRESH_THRESHOLD_MS)
     ∨ jwtDecode tok = Some {| exp := None |})
  ∧ (jwtDecode tok = Some {| exp := None |} → tok ≠ "" →
     ∀ w x,
       localStorage w !! STORAGE_KEYS.ACCESS_TOKEN = Some tok →
       isTokenValid (Some tok) (clock w) = false
       ∧ getAccessToken x w = (Returned (Some tok), w)).
Proof.
  split.
  - intros now. unfold isTokenExpiringSoon.
    destruct (jwtDecode tok) as [[[e|]]|] eqn:Hdec.
    + destruct (Z.leb_spec (e * 1000 - now) TOKEN_REFRESH_THRESHOLD_MS); split.
      * discriminate.
      * intros [(e' & He' & Hfar)|Hno]; [|discriminate].
        inversion He'; subst e'. lia.
      * intros _. left. exists e. split; [reflexivity|lia].
      * reflexivity.
    + split; [intros _; right; reflexivity|reflexivity].
    + split; [discriminate|]. intros [(e' & He' & _)|Hno]; discriminate.
  - intros Hdec Hne w x Hacc. split.
    + unfold isTokenValid. rewrite (truthy_some tok Hne). simpl. rewrite Hdec.
      reflexivity.
    + apply getAccessToken_fresh; [exact Hacc|exact Hne|].
      unfold isTokenExpiringSoon. rewrite Hdec. reflexivity.
Qed.

Lemma token_without_exp_never_refreshed_witness :
  @isTokenValid sample_platform (Some "jwt-without-exp") (clock w_token_without_exp) = false
  ∧ @getAccessToken sample_platform refresh_fails w_token_without_exp =
      (Returned (Some "jwt-without-exp"), w_token_without_exp).
Proof.
  apply (proj2 (@token_without_exp_never_refreshed sample_platform "jwt-without-exp")
           eq_refl ltac:(discriminate) w_token_without_exp refresh_fails).
  reflexivity.
Defined.

(** X13.  A stored access token that does not decode counts as invalid and
    as expiring soon, so [getAccessToken] never hands it out as it is: the
    result is either [undefined] or the access token of a refresh answer,
    and without a refresh token no refresh request is made. *)
Theorem undecodable_token_never_returned `{Platform}
    (tok : string) (w : World) (x : Exchange TokenResponse) :
  localStorage w !! STORAGE_KEYS.ACCESS_TOKEN = Some tok →
  jwtDecode tok = None →
  isTokenValid (Some tok) (clock w) = false
  ∧ isTokenExpiringSoon tok (clock w) = true
  ∧ ∃ r w1 new,
      getAccessToken x w = (Returned r, w1)
      ∧ extends w w1 new
      ∧ (r = None
         ∨ ∃ d, reply x = Resolve d ∧ r = Some (tr_access d)
                ∧ truthy_str (localStorage w !! STORAGE_KEYS.REFRESH_TOKEN) = true)
      ∧ (truthy_str (localStorage w !! STORAGE_KEYS.REFRESH_TOKEN) = false →
         count_events (is_post_to API_ROUTES.refresh) new = 0%nat).
Proof.
  intros Hacc Hdec.
  assert (Hsoon : isTokenExpiringSoon tok (clock w) = true)
    by (unfold isTokenExpiringSoon; rewrite Hdec; reflexivity).
  split.
  { unfold isTokenValid. destruct (negb _); [reflexivity|]. simpl. rewrite Hdec.
    reflexivity. }
  split; [exact Hsoon|].
  unfold getAccessToken, bind at 1 2, storage_getAccessToken, storage_getRefreshToken.
  rewrite Hacc.
  destruct (truthy_str (Some tok)) eqn:Htok; cbn [negb].
  2: { eexists _, _, []. split; [reflexivity|]. split; [reflexivity|].
       split; [left; reflexivity|reflexivity]. }
  unfold bind at 1, Date_now. change (default "" (Some tok)) with tok.
  rewrite Hsoon. cbn [negb].
  destruct (truthy_str (localStorage w !! STORAGE_KEYS.REFRESH_TOKEN)) eqn:Href;
    cbn [negb].
  - unfold try_catch, bind at 1.
    destruct (reply x) as [d|err] eqn:Hreply.
    + rewrite (post_resolved _ _ x d _ Hreply). destruct w as [s ls rl c t dt]. cbn.
      eexists _, _, [_]. split; [reflexivity|]. split; [reflexivity|].
      split; [right; exists d; auto|discriminate].
    + rewrite (post_rejected _ _ x err _ Hreply). destruct w as [s ls rl c t dt].
      destruct (forces_logout err); cbn;
        (eexists _, _, _; split; [reflexivity|]; split; [solve_extends|];
         split; [left; reflexivity|discriminate]).
  - destruct w as [s ls rl c t dt]; cbn.
    eexists _, _, _. split; [reflexivity|]. split; [solve_extends|].
    split; [left; reflexivity|reflexivity].
Qed.

Lemma undecodable_token_never_returned_witness :
  @isTokenValid sample_platform (Some "not-a-jwt") (clock w_garbled_token) = false
  ∧ @isTokenExpiringSoon sample_platform "not-a-jwt" (clock w_garbled_token) = true
  ∧ ∃ r w1 new,
      @getAccessToken sample_platform refresh_ok w_garbled_token = (Returned r, w1)
      ∧ extends w_garbled_token w1 new
      ∧ (r = None
         ∨ ∃ d, reply refresh_ok = Resolve d ∧ r = Some (tr_access d)
                ∧ truthy_str (localStorage w_garbled_token !! STORAGE_KEYS.REFRESH_TOKEN)
                  = true)
      ∧ (truthy_str (localStorage w_garbled_token !! STORAGE_KEYS.REFRESH_TOKEN) = false →
         count_events (is_post_to API_ROUTES.refresh) new = 0%nat).
Proof.
  apply (@undecodable_token_never_returned sample_platform "not-a-jwt"
           w_garbled_token refresh_ok).
  - reflexivity.
  - reflexivity.
Defined.

(** ** Session operations: what the rate limiter and failures leave alone *)

(** X14.  An operation the rate limiter refuses stays local: [logIn],
    [confirmEmail] and [resendConfirmationEmail] return ['error'], [false]
    and ['error'] after the check and one "too many attempts" toast;
    no request is sent, no attempt is recorded, and session, storage and
    clock are as before. *)
Theorem rate_limited_operations_stay_local `{Platform} (w : World) :
  (∀ credentials x_login x_resend,
     RateLimiter.isAllowed
       (RateLimiter.checkLimit (clock w) (email credentials) (limiter w)).1 = false →
     ∃ w1, logIn credentials x_login x_resend w = (Returned error, w1)
           ∧ refused_locally "login" (email credentials) w w1)
  ∧ (∀ code x,
       RateLimiter.isAllowed
         (RateLimiter.checkLimit (clock w) (verify_key code) (limiter w)).1 = false →
       ∃ w1, confirmEmail code x w = (Returned false, w1)
             ∧ refused_locally "verification" (verify_key code) w w1)
  ∧ (∀ token x,
       RateLimiter.isAllowed
         (RateLimiter.checkLimit (clock w) (resend_key token) (limiter w)).1 = false →
       ∃ w1, resendConfirmationEmail token x w = (Returned resend_error, w1)
             ∧ refused_locally "resend" (resend_key token) w w1).
Proof.
  destruct w as [s ls rl c t dt]. cbn [clock limiter].
  split; [|split].
  - intros credentials x_login x_resend Hdenied.
    unfold logIn, bind at 1, limiter_checkLimit, refused_locally. cbn [clock limiter].
    destruct (RateLimiter.checkLimit c (email credentials) rl) as [chk rl1] eqn:Hchk.
    cbn [fst snd] in *. cbn. rewrite Hdenied. cbn.
    eexists. split; [reflexivity|]. repeat split.
  - intros code x Hdenied.
    unfold confirmEmail, bind at 1, limiter_checkLimit, refused_locally.
    cbn [clock limiter].
    destruct (RateLimiter.checkLimit c (verify_key code) rl) as [chk rl1] eqn:Hchk.
    cbn [fst snd] in *. cbn -[verify_key]. rewrite Hdenied. cbn -[verify_key].
    eexists. split; [reflexivity|]. repeat split.
  - intros token x Hdenied.
    unfold resendConfirmationEmail, bind at 1, limiter_checkLimit, refused_locally.
    cbn [clock limiter].
    destruct (RateLimiter.checkLimit c (resend_key token) rl) as [chk rl1] eqn:Hchk.
    cbn [fst snd] in *. cbn -[resend_key]. rewrite Hdenied. cbn -[resend_key].
    eexists. split; [reflexivity|]. repeat split.
Qed.

Lemma rate_limited_operations_stay_local_witness :
  ∃ w1,
    @logIn sample_platform ana login_ok resend_sent_ok
      (world_of logged_out ∅ blocked_limiter 1000000) = (Returned error, w1)
    ∧ refused_locally "login" "ana@example.org"
        (world_of logged_out ∅ blocked_limiter 1000000) w1.
Proof.
  apply (proj1 (@rate_limited_operations_stay_local sample_platform
                  (world_of logged_out ∅ blocked_limiter 1000000))
           ana login_ok resend_sent_ok).
  reflexivity.
Defined.








(** ** Repeated failed logins *)

Lemma logIn_refused `{Platform}
    (credentials : LoginRequest)
    (x_login : Exchange LoginResponse) (x_resend : Exchange ResendResponse) (w : World) :
  RateLimiter.isAllowed
    (RateLimiter.checkLimit (clock w) (email credentials) (limiter w)).1 = false →
  ∃ w1, logIn credentials x_login x_resend w = (Returned error, w1)
        ∧ refused_locally "login" (email credentials) w w1.
Proof.
  destruct w as [s ls rl c t dt]. cbn [clock limiter]. intros Hdenied.
  unfold logIn, bind at 1, limiter_checkLimit, refused_locally. cbn [clock limiter].
  destruct (RateLimiter.checkLimit c (email credentials) rl) as [chk rl1] eqn:Hchk.
  cbn [fst snd] in *. cbn. rewrite Hdenied. cbn.
  eexists. split; [reflexivity|]. repeat split.
Qed.

Ltac plain_leaf :=
  eexists _, _; split; [reflexivity|];
  split; [discriminate|]; split; [reflexivity|]; split; reflexivity.

(** A plain failed login, as the limiter and the clock see it. *)
Lemma logIn_plain_failure `{Platform}
    (credentials : LoginRequest)
    (x_login : Exchange LoginResponse) (x_resend : Exchange ResendResponse) (w : World) :
  RateLimiter.isAllowed
    (RateLimiter.checkLimit (clock w) (email credentials) (limiter w)).1 = true →
  plain_login_failure credentials x_login →
  ∃ r w1,
    logIn credentials x_login x_resend w = (Returned r, w1)
    ∧ r ≠ success
    ∧ limiter w1 =
        RateLimiter.recordAttempt (clock w + elapsed x_login) (email credentials)
          (RateLimiter.checkLimit (clock w) (email credentials) (limiter w)).2
    ∧ clock w1 = clock w + elapsed x_login
    ∧ localStorage w1 = localStorage w.
Proof.
  destruct w as [s ls rl c t dt]. cbn [clock limiter localStorage].
  intros Hallowed (err & Hreply & Hplain).
  unfold logIn, bind at 1, limiter_checkLimit. cbn [clock limiter].
  destruct (RateLimiter.checkLimit c (email credentials) rl) as [chk rl1] eqn:Hchk.
  cbn [fst snd] in *. cbn -[logIn_classify post]. rewrite Hallowed.
  cbn -[logIn_classify post].
  unfold try_catch, bind at 1.
  rewrite (post_rejected _ _ x_login err _ Hreply).
  destruct (forces_logout err); cbn -[logIn_classify];
    (destruct (truthy_str (googlecode credentials)) eqn:Hgoogle; [plain_leaf|]);
    (destruct Hplain as [Hcode|Hnotoken]; [discriminate|]);
    (destruct (error_data err) as [ed|]; [|plain_leaf]);
    change (truthy_str (first (e_token ed)) = false) in Hnotoken;
    unfold logIn_classify; rewrite Hnotoken;
    (destruct (str_is (str_or (first (e_type ed)) (first (e_message ed)))
                "two_fa_failed");
     [cbn -[str_or]; plain_leaf|]);
    (destruct (truthy_str (str_or (first (e_type ed)) (first (e_message ed)))
               && includes knownErrors
                    (default "" (str_or (first (e_type ed)) (first (e_message ed)))))
       eqn:Hknown;
     cbn -[str_or auth_message_or_error as_AuthResult includes]; [|plain_leaf]);
    (eexists _, _; split; [reflexivity|];
     split; [|split; [reflexivity|split; reflexivity]];
     apply andb_true_iff in Hknown as [_ Hin];
     unfold includes, knownErrors in Hin; cbn [existsb] in Hin;
     unfold as_AuthResult;
     (destruct (String.eqb _ "wrong_data"); [discriminate|]);
     (destruct (String.eqb _ "reset_psw"); [discriminate|]);
     (destruct (String.eqb _ "account_block"); [discriminate|]);
     destruct (String.eqb _ "invalid"); discriminate).
Qed.

Lemma total_elapsed_nonneg {A} (xs : list (Exchange A)) :
  Forall (λ y, 0 ≤ elapsed y) xs → 0 ≤ total_elapsed xs.
Proof.
  induction 1 as [|y ys Hy _ IH]; unfold total_elapsed in *; simpl; lia.
Qed.

(** Plain failures inside an open window only bump the counter and move
    the clock. *)
Lemma logIn_each_counts `{Platform}
    (credentials : LoginRequest) (x_resend : Exchange ResendResponse)
    (xs : list (Exchange LoginResponse)) :
  ∀ (w : World) (cnt t1 : Z),
    RateLimiter.attempts (limiter w) !! email credentials =
      Some {| RateLimiter.count := cnt; RateLimiter.firstAttemptTime := t1;
              RateLimiter.blockedUntil := None |} →
    clock w - t1 + total_elapsed xs ≤ RateLimiter.windowMs (RateLimiter.config (limiter w)) →
    cnt + Z.of_nat (length xs) ≤ RateLimiter.maxAttempts (RateLimiter.config (limiter w)) →
    Forall (plain_login_failure credentials) xs →
    Forall (λ y, 0 ≤ elapsed y) xs →
    ∃ rs w1,
      logIn_each credentials xs x_resend w = (Returned rs, w1)
      ∧ length rs = length xs
      ∧ Forall (λ r, r ≠ success) rs
      ∧ RateLimiter.attempts (limiter w1) !! email credentials =
          Some {| RateLimiter.count := cnt + Z.of_nat (length xs);
                  RateLimiter.firstAttemptTime := t1;
                  RateLimiter.blockedUntil := None |}
      ∧ RateLimiter.config (limiter w1) = RateLimiter.config (limiter w)
      ∧ clock w1 = clock w + total_elapsed xs.
Proof.
  induction xs as [|x xs IH]; intros w cnt t1 Hrec Hwin Hcnt Hplain Hnn.
  - exists [], w. unfold total_elapsed. simpl. rewrite !Z.add_0_r.
    repeat split; [constructor|exact Hrec].
  - apply Forall_cons in Hplain as [Hx Hplain].
    apply Forall_cons in Hnn as [Hx0 Hnn].
    pose proof (total_elapsed_nonneg xs Hnn) as Hrest.
    change (total_elapsed (x :: xs)) with (elapsed x + total_elapsed xs) in *.
    simpl length in Hcnt.
    assert (Hcheck : RateLimiter.checkLimit (clock w) (email credentials) (limiter w) =
              ({| RateLimiter.isAllowed := true; RateLimiter.retryAfter := None;
                  RateLimiter.attemptsRemaining :=
                    Some (RateLimiter.maxAttempts (RateLimiter.config (limiter w))
                          - cnt - 1) |}, limiter w)).
    { unfold RateLimiter.checkLimit. rewrite Hrec. cbn.
      destruct (Z.gtb_spec (clock w - t1)
                  (RateLimiter.windowMs (RateLimiter.config (limiter w)))); [lia|].
      destruct (Z.geb_spec cnt
                  (RateLimiter.maxAttempts (RateLimiter.config (limiter w)))); [lia|].
      reflexivity. }
    destruct (logIn_plain_failure credentials x x_resend w) as
      (r & w1 & Hrun & Hr & Hlim & Hclock & _);
      [rewrite Hcheck; reflexivity|exact Hx|].
    rewrite Hcheck in Hlim. cbn [snd] in Hlim.
    assert (Hrec1 : RateLimiter.attempts (limiter w1) !! email credentials =
              Some {| RateLimiter.count := cnt + 1; RateLimiter.firstAttemptTime := t1;
                      RateLimiter.blockedUntil := None |}).
    { rewrite Hlim. unfold RateLimiter.recordAttempt, RateLimiter.starts_new_window.
      rewrite Hrec. cbn.
      destruct (Z.gtb_spec (clock w + elapsed x - t1)
                  (RateLimiter.windowMs (RateLimiter.config (limiter w)))); [lia|].
      cbn. apply lookup_insert_eq. }
    assert (Hcfg1 : RateLimiter.config (limiter w1) = RateLimiter.config (limiter w))
      by (rewrite Hlim; apply RateLimiterFacts.config_recordAttempt).
    destruct (IH w1 (cnt + 1) t1 Hrec1) as (rs & w2 & Hrun2 & Hlen & Hrs & Hrec2 & Hcfg2 & Hclock2);
      [rewrite Hcfg1, Hclock; lia | rewrite Hcfg1; lia | exact Hplain | exact Hnn |].
    exists (r :: rs), w2.
    split.
    { cbn [logIn_each]. unfold bind at 1. rewrite Hrun.
      unfold bind at 1. rewrite Hrun2. reflexivity. }
    split; [simpl; congruence|]. split; [constructor; assumption|].
    split.
    { rewrite Hrec2. do 2 f_equal. simpl length. lia. }
    split; [congruence|]. rewrite Hclock2, Hclock. lia.
Qed.

(** X16.  Brute force is cut off: starting with no record for the email,
    [maxAttempts] plain failed logins in a row (the time in flight after
    the first failure staying within [windowMs]) are each let through and
    none returns ['success']; the next [logIn] is refused without any
    request, and that check latches the block for [blockDurationMs]. *)
Theorem repeated_failures_lock_out `{Platform}
    (credentials : LoginRequest) (x : Exchange LoginResponse)
    (xs : list (Exchange LoginResponse)) (x_resend : Exchange ResendResponse)
    (x_next : Exchange LoginResponse) (w : World) :
  RateLimiter.attempts (limiter w) !! email credentials = None →
  Z.of_nat (length (x :: xs)) = RateLimiter.maxAttempts (RateLimiter.config (limiter w)) →
  Forall (plain_login_failure credentials) (x :: xs) →
  Forall (λ y, 0 ≤ elapsed y) xs →
  total_elapsed xs ≤ RateLimiter.windowMs (RateLimiter.config (limiter w)) →
  ∃ rs w1 w2,
    logIn_each credentials (x :: xs) x_resend w = (Returned rs, w1)
    ∧ length rs = length (x :: xs)
    ∧ Forall (λ r, r ≠ success) rs
    ∧ logIn credentials x_next x_resend w1 = (Returned error, w2)
    ∧ refused_locally "login" (email credentials) w1 w2
    ∧ RateLimiter.attempts (limiter w2) !! email credentials =
        Some {| RateLimiter.count := RateLimiter.maxAttempts (RateLimiter.config (limiter w));
                RateLimiter.firstAttemptTime := clock w + elapsed x;
                RateLimiter.blockedUntil :=
                  Some (clock w1
                        + RateLimiter.blockDurationMs (RateLimiter.config (limiter w))) |}.
Proof.
  intros Hnone Hlen Hplain Hnn Hwin.
  apply Forall_cons in Hplain as [Hx Hplain].
  assert (Hcheck : RateLimiter.checkLimit (clock w) (email credentials) (limiter w) =
            ({| RateLimiter.isAllowed := true; RateLimiter.retryAfter := None;
                RateLimiter.attemptsRemaining :=
                  Some (RateLimiter.maxAttempts (RateLimiter.config (limiter w)) - 1) |},
             limiter w))
    by (unfold RateLimiter.checkLimit; rewrite Hnone; reflexivity).
  destruct (logIn_plain_failure credentials x x_resend w) as
    (r & w0 & Hrun & Hr & Hlim & Hclock & _);
    [rewrite Hcheck; reflexivity|exact Hx|].
  rewrite Hcheck in Hlim. cbn [snd] in Hlim.
  assert (Hrec0 : RateLimiter.attempts (limiter w0) !! email credentials =
            Some {| RateLimiter.count := 1;
                    RateLimiter.firstAttemptTime := clock w + elapsed x;
                    RateLimiter.blockedUntil := None |}).
  { rewrite Hlim. unfold RateLimiter.recordAttempt. rewrite Hnone. cbn.
    apply lookup_insert_eq. }
  assert (Hcfg0 : RateLimiter.config (limiter w0) = RateLimiter.config (limiter w))
    by (rewrite Hlim; apply RateLimiterFacts.config_recordAttempt).
  simpl length in Hlen.
  destruct (logIn_each_counts credentials x_resend xs w0 1 (clock w + elapsed x) Hrec0)
    as (rs & w1 & Hrun1 & Hlen1 & Hrs & Hrec1 & Hcfg1 & Hclock1);
    [rewrite Hcfg0, Hclock; lia | rewrite Hcfg0; lia | exact Hplain | exact Hnn |].
  assert (Hfull : 1 + Z.of_nat (length xs) =
                  RateLimiter.maxAttempts (RateLimiter.config (limiter w))) by lia.
  rewrite Hfull in Hrec1.
  pose proof (RateLimiterFacts.checkLimit_triggers (limiter w1) (email credentials)
                _ (clock w1) Hrec1 eq_refl) as Htrig.
  cbn [RateLimiter.count RateLimiter.firstAttemptTime] in Htrig.
  rewrite Hcfg1, Hcfg0 in Htrig.
  specialize (Htrig ltac:(rewrite Hclock1, Hclock; lia) (Z.le_refl _)).
  destruct (logIn_refused credentials x_next x_resend w1) as (w2 & Hrun2 & Hrefused);
    [rewrite Htrig; reflexivity|].
  exists (r :: rs), w1, w2.
  split.
  { cbn [logIn_each]. unfold bind at 1. rewrite Hrun.
    unfold bind at 1. rewrite Hrun1. reflexivity. }
  split; [simpl; congruence|]. split; [constructor; assumption|].
  split; [exact Hrun2|]. split; [exact Hrefused|].
  destruct Hrefused as (_ & Hlim2 & _). rewrite Hlim2, Htrig. simpl.
  apply lookup_insert_eq.
Qed.

Lemma repeated_failures_lock_out_witness :
  ∃ rs w1 w2,
    @logIn_each sample_platform ana
      (login_rejected "wrong_data" ::
       [login_rejected "wrong_data"; login_rejected "wrong_data";
        login_rejected "wrong_data"; login_rejected "wrong_data"])
      resend_sent_ok w_no_token = (Returned rs, w1)
    ∧ length rs = 5%nat
    ∧ Forall (λ r, r ≠ success) rs
    ∧ @logIn sample_platform ana login_ok resend_sent_ok w1 = (Returned error, w2)
    ∧ refused_locally "login" (email ana) w1 w2
    ∧ RateLimiter.attempts (limiter w2) !! email ana =
        Some {| RateLimiter.count :=
                  RateLimiter.maxAttempts (RateLimiter.config (limiter w_no_token));
                RateLimiter.firstAttemptTime :=
                  clock w_no_token + elapsed (login_rejected "wrong_data");
                RateLimiter.blockedUntil :=
                  Some (clock w1
                        + RateLimiter.blockDurationMs
                            (RateLimiter.config (limiter w_no_token))) |}.
Proof.
  apply (@repeated_failures_lock_out sample_platform ana (login_rejected "wrong_data")
           [login_rejected "wrong_data"; login_rejected "wrong_data";
            login_rejected "wrong_data"; login_rejected "wrong_data"]
           resend_sent_ok login_ok w_no_token).
  - reflexivity.
  - reflexivity.
  - repeat constructor; (eexists; split; [reflexivity|right; reflexivity]).
  - repeat constructor; simpl; lia.
  - vm_compute. discriminate.
Defined.

(** ** Email confirmation *)

Ltac solve_lookup :=
  repeat first [rewrite lookup_insert_eq | rewrite lookup_insert_ne by done];
  reflexivity.

Lemma confirmEmail_allowed `{Platform}
    (code : string) (x : Exchange ConfirmEmailResponse) (w : World) :
  RateLimiter.isAllowed
    (RateLimiter.checkLimit (clock w) (verify_key code) (limiter w)).1 = true →
  confirmEmail code x w =
    (set (loading true) ;;
     toast toast_dismiss ;;
     try_finally
       (try_catch
          (data <- post API_ROUTES.confirmEmail (ConfirmBody code) x ;;
           limiter_reset (verify_key code) ;;
           set {| set_isLogged := None; set_isLoading := None;
                  set_confirmEmailToken := Some None |} ;;
           (if truthy_str (ce_access data) && truthy_str (ce_refresh data) then
              storage_setTokens (default "" (ce_access data))
                (default "" (ce_refresh data)) ;;
              match ce_user data with
              | Some user =>
                  storage_setUser user ;;
                  set {| set_isLogged := Some true; set_isLoading := Some false;
                         set_confirmEmailToken := None |} ;;
                  toast (toast_success (Text (auth_message "email_confirmed_and_logged_in")))
              | None =>
                  logger_warn "No user data in confirmation response. Setting logged in but user may need to fetch profile." ;;
                  set {| set_isLogged := Some true; set_isLoading := Some false;
                         set_confirmEmailToken := None |} ;;
                  toast (toast_success (Text (auth_message "email_confirmed_and_logged_in")))
              end
            else
              logger_warn "No tokens in confirmation response" ;;
              toast (toast_success (Text (auth_message "email_confirmed")))) ;;
           ret true)
          (fun _ =>
             limiter_recordAttempt (verify_key code) ;;
             logger_error "Email confirmation failed" ;;
             toast (toast_error (Text (auth_message "error"))) ;;
             ret false))
       (set (loading false)))
      (emit (EvCheckLimit (verify_key code))
         (with_limiter w
            (RateLimiter.checkLimit (clock w) (verify_key code) (limiter w)).2)).2.
Proof.
  intros Hallowed. unfold confirmEmail, bind at 1, limiter_checkLimit.
  destruct (RateLimiter.checkLimit (clock w) (verify_key code) (limiter w))
    as [chk rl1] eqn:Hchk.
  cbn [fst snd] in *. unfold bind at 1. cbn [emit]. unfold ret at 1.
  rewrite Hallowed. reflexivity.
Qed.

(** X17.  [confirmEmail], once let through by the limiter:
    - an answer with both tokens non-empty returns [true], stores the
      pair (and the user when the answer has one; otherwise the cached
      user stays), sets [isLogged], clears [confirmEmailToken] and removes
      the limiter entry of the code;
    - an answer lacking either token returns [true] but leaves storage
      and [isLogged] as they were, clearing [confirmEmailToken] and the
      limiter entry;
    - a rejection returns [false] and leaves storage, [isLogged] and
      [confirmEmailToken] as they were; the limiter then holds a record
      for the code that counts one attempt more, made when the request
      was answered, than the record the check left; a rejection that is a
      401 with a logout code has also started a [logOut()], which is left
      behind.
    In all three [isLoading] is false when [confirmEmail] returns. *)
Theorem confirmEmail_outcomes `{Platform}
    (code : string) (x : Exchange ConfirmEmailResponse) (w : World) :
  RateLimiter.isAllowed
    (RateLimiter.checkLimit (clock w) (verify_key code) (limiter w)).1 = true →
  (∀ d a r,
     reply x = Resolve d →
     ce_access d = Some a → a ≠ "" → ce_refresh d = Some r → r ≠ "" →
     ∃ w1,
       confirmEmail code x w = (Returned true, w1)
       ∧ localStorage w1 !! STORAGE_KEYS.ACCESS_TOKEN = Some a
       ∧ localStorage w1 !! STORAGE_KEYS.REFRESH_TOKEN = Some r
       ∧ localStorage w1 !! STORAGE_KEYS.USER =
           match ce_user d with
           | Some user => Some (JSON_stringify user)
           | None => localStorage w !! STORAGE_KEYS.USER
           end
       ∧ session w1 =
           {| isLogged := true; isLoading := false; confirmEmailToken := None |}
       ∧ RateLimiter.attempts (limiter w1) !! verify_key code = None)
  ∧ (∀ d,
       reply x = Resolve d →
       truthy_str (ce_access d) && truthy_str (ce_refresh d) = false →
       ∃ w1,
         confirmEmail code x w = (Returned true, w1)
         ∧ localStorage w1 = localStorage w
         ∧ session w1 =
             {| isLogged := isLogged (session w); isLoading := false;
                confirmEmailToken := None |}
         ∧ RateLimiter.attempts (limiter w1) !! verify_key code = None)
  ∧ (∀ err,
       reply x = Reject err →
       ∃ w1,
         confirmEmail code x w = (Returned false, w1)
         ∧ localStorage w1 = localStorage w
         ∧ session w1 =
             {| isLogged := isLogged (session w); isLoading := false;
                confirmEmailToken := confirmEmailToken (session w) |}
         ∧ limiter w1 =
             RateLimiter.recordAttempt (clock w + elapsed x) (verify_key code)
               (RateLimiter.checkLimit (clock w) (verify_key code) (limiter w)).2
         ∧ attempt_recorded (clock w + elapsed x) (verify_key code)
             (RateLimiter.checkLimit (clock w) (verify_key code) (limiter w)).2
             (limiter w1)
         ∧ detached w1 = ((if forces_logout err then 1 else 0) + detached w)%nat).
Proof.
  intros Hallowed. rewrite (confirmEmail_allowed code x w Hallowed).
  destruct w as [s ls rl c t dt]. cbn [clock limiter localStorage session detached].
  cbn [clock limiter] in Hallowed.
  destruct (RateLimiter.checkLimit c (verify_key code) rl) as [chk rl1] eqn:Hchk.
  cbn [fst snd] in *.
  unfold try_finally, try_catch, bind. cbn -[verify_key post].
  split; [|split].
  - intros d a r Hreply Ha Hane Hr Hrne.
    rewrite (post_resolved _ _ x d _ Hreply). cbn -[verify_key truthy_str].
    rewrite Ha, Hr, (truthy_some a Hane), (truthy_some r Hrne).
    cbn -[verify_key].
    destruct (ce_user d) as [user|]; cbn -[verify_key];
      (eexists; split; [reflexivity|]; cbn -[verify_key];
       split; [solve_lookup|]; split; [solve_lookup|]; split; [solve_lookup|];
       split; [reflexivity|apply lookup_delete_eq]).
  - intros d Hreply Hno.
    rewrite (post_resolved _ _ x d _ Hreply). cbn -[verify_key truthy_str].
    rewrite Hno.
    cbn -[verify_key]. eexists. split; [reflexivity|]. cbn -[verify_key].
    repeat split. apply lookup_delete_eq.
  - intros err Hreply.
    rewrite (post_rejected _ _ x err _ Hreply).
    pose proof (RateLimiterFacts.recordAttempt_recorded (c + elapsed x) (verify_key code)
                  rl1) as Hrec.
    destruct (forces_logout err); cbn -[verify_key];
      (eexists; split; [reflexivity|]; split; [reflexivity|];
       split; [reflexivity|]; split; [reflexivity|]; split; [exact Hrec|reflexivity]).
Qed.

Lemma confirmEmail_outcomes_witness :
  (∃ w1,
    @confirmEmail sample_platform "493812" confirm_with_tokens w_awaiting_confirmation =
      (Returned true, w1)
    ∧ localStorage w1 !! STORAGE_KEYS.ACCESS_TOKEN = Some "jwt-exp-5000"
    ∧ localStorage w1 !! STORAGE_KEYS.REFRESH_TOKEN = Some "jwt-exp-9000"
    ∧ localStorage w1 !! STORAGE_KEYS.USER =
        localStorage w_awaiting_confirmation !! STORAGE_KEYS.USER
    ∧ session w1 =
        {| isLogged := true; isLoading := false; confirmEmailToken := None |}
    ∧ RateLimiter.attempts (limiter w1) !! verify_key "493812" = None)
  ∧ (∃ w1,
       @confirmEmail sample_platform "493812" confirm_rejected w_awaiting_confirmation =
         (Returned false, w1)
       ∧ session w1 = session w_awaiting_confirmation
       ∧ RateLimiter.attempts (limiter w1) !! verify_key "493812" =
           Some {| RateLimiter.count := 1; RateLimiter.firstAttemptTime := 1000090;
                   RateLimiter.blockedUntil := None |}
       ∧ detached w1 = 0%nat).
Proof.
  split.
  - apply (proj1 (@confirmEmail_outcomes sample_platform "493812" confirm_with_tokens
                    w_awaiting_confirmation eq_refl)
             (@Build_ConfirmEmailResponse sample_platform "ok"
                (Some "jwt-exp-5000") (Some "jwt-exp-9000") None)
             "jwt-exp-5000" "jwt-exp-9000").
    + reflexivity.
    + reflexivity.
    + discriminate.
    + reflexivity.
    + discriminate.
  - destruct (proj2 (proj2 (@confirmEmail_outcomes sample_platform "493812"
                              confirm_rejected w_awaiting_confirmation eq_refl))
                network_failure eq_refl)
      as (w1 & Hrun & _ & Hs & Hlim & _ & Hdt).
    exists w1. split; [exact Hrun|]. split; [exact Hs|].
    split; [rewrite Hlim; reflexivity|exact Hdt].
Defined.

(** ** Registration and password reset *)

Ltac account_leaf r :=
  eexists r, _, _; split; [reflexivity|]; split; [solve_extends|];
  split; [repeat split|]; split; [reflexivity|]; split; [reflexivity|];
  split; [reflexivity|];
  first [ split; [intros _; eexists; reflexivity|reflexivity]
        | split; [discriminate|intros (u & Hu); discriminate Hu] ].

Lemma requestPasswordReset_frame (d : ResetPasswordRequest) (x : Exchange unit) (w : World) :
  ∃ r w1 new,
    requestPasswordReset d x w = (Returned r, w1)
    ∧ extends w w1 new
    ∧ auth_state_untouched w w1
    ∧ isLoading (session w1) = false
    ∧ List.filter is_post new =
        (if starts_logout x then [EvPost API_ROUTES.logout NoBody] else [])
        ++ [EvPost API_ROUTES.resetPassword (ResetBody d)]
    ∧ detached w1 = ((if starts_logout x then 1 else 0) + detached w)%nat
    ∧ (r = true ↔ ∃ u, reply x = Resolve u).
Proof.
  destruct w as [s ls rl c t dt].
  unfold requestPasswordReset, try_finally, try_catch, bind, auth_state_untouched,
    starts_logout.
  cbn -[post].
  destruct (reply x) as [u|err] eqn:Hreply.
  - rewrite (post_resolved _ _ x u _ Hreply). cbn. account_leaf true.
  - rewrite (post_rejected _ _ x err _ Hreply).
    destruct (forces_logout err); cbn;
      destruct (present (error_data err ≫= e_email)); cbn; account_leaf false.
Qed.

Lemma resetPassword_frame (d : ResetPasswordConfirmRequest) (x : Exchange unit) (w : World) :
  ∃ r w1 new,
    resetPassword d x w = (Returned r, w1)
    ∧ extends w w1 new
    ∧ auth_state_untouched w w1
    ∧ isLoading (session w1) = false
    ∧ List.filter is_post new =
        (if starts_logout x then [EvPost API_ROUTES.logout NoBody] else [])
        ++ [EvPost API_ROUTES.resetPasswordConfirm (ResetConfirmBody d)]
    ∧ detached w1 = ((if starts_logout x then 1 else 0) + detached w)%nat
    ∧ (r = true ↔ ∃ u, reply x = Resolve u).
Proof.
  destruct w as [s ls rl c t dt].
  unfold resetPassword, try_finally, try_catch, bind, auth_state_untouched,
    starts_logout.
  cbn -[post].
  destruct (reply x) as [u|err] eqn:Hreply.
  - rewrite (post_resolved _ _ x u _ Hreply). cbn. account_leaf true.
  - rewrite (post_rejected _ _ x err _ Hreply).
    destruct (forces_logout err); cbn;
      destruct (present (error_data err ≫= e_uid) || present (error_data err ≫= e_token));
      cbn; account_leaf false.
Qed.

Lemma register_frame (d : SignupRequest) (x : Exchange unit) (w : World) :
  password1 d = password2 d →
  ∃ r w1 new,
    register d x w = (Returned r, w1)
    ∧ extends w w1 new
    ∧ auth_state_untouched w w1
    ∧ isLoading (session w1) = false
    ∧ List.filter is_post new =
        (if starts_logout x then [EvPost API_ROUTES.logout NoBody] else [])
        ++ [EvPost API_ROUTES.signup (SignupBody d)]
    ∧ detached w1 = ((if starts_logout x then 1 else 0) + detached w)%nat
    ∧ (r = true ↔ ∃ u, reply x = Resolve u).
Proof.
  intros Hpw. destruct w as [s ls rl c t dt].
  unfold register, auth_state_untouched, starts_logout.
  destruct (String.eqb_spec (password1 d) (password2 d)); [|contradiction].
  cbn [negb]. unfold try_finally, try_catch, bind. cbn -[post].
  destruct (reply x) as [u|err] eqn:Hreply.
  - rewrite (post_resolved _ _ x u _ Hreply). cbn. account_leaf true.
  - rewrite (post_rejected _ _ x err _ Hreply).
    destruct (forces_logout err); cbn;
      (destruct (present (error_data err ≫= e_email)); cbn; [account_leaf false|]);
      destruct (present (error_data err ≫= e_non_field_errors)); cbn;
      account_leaf false.
Qed.

Lemma register_mismatch (d : SignupRequest) (x : Exchange unit) (w : World) :
  password1 d ≠ password2 d →
  ∃ w1,
    register d x w = (Returned false, w1)
    ∧ trace w1 =
        EvToast (toast_error (Text (auth_message "passwords_mismatch"))) :: trace w
    ∧ session w1 = session w
    ∧ localStorage w1 = localStorage w
    ∧ limiter w1 = limiter w
    ∧ detached w1 = detached w.
Proof.
  intros Hpw. destruct w as [s ls rl c t dt]. unfold register.
  destruct (String.eqb_spec (password1 d) (password2 d)); [contradiction|].
  eexists. split; [reflexivity|]. repeat split.
Qed.

(** X18.  [register], [requestPasswordReset] and [resetPassword] always
    return and never sign anyone in or out themselves: when they return,
    storage, limiter, [isLogged] and [confirmEmailToken] are what they
    were and [isLoading] is false.  Each sends one request, to its own
    route and with its argument as body, and returns [true] exactly when
    that request resolves.  The only other request is the one of the
    [logOut()] that the response interceptor starts, and leaves behind,
    when the rejection is a 401 with a logout code.  [register] with two
    different passwords does nothing but show the mismatch toast and
    returns [false]. *)
Theorem account_operations_frame (w : World) :
  (∀ d x,
     password1 d = password2 d →
     ∃ r w1 new,
       register d x w = (Returned r, w1)
       ∧ extends w w1 new
       ∧ auth_state_untouched w w1
       ∧ isLoading (session w1) = false
       ∧ List.filter is_post new =
           (if starts_logout x then [EvPost API_ROUTES.logout NoBody] else [])
           ++ [EvPost API_ROUTES.signup (SignupBody d)]
       ∧ detached w1 = ((if starts_logout x then 1 else 0) + detached w)%nat
       ∧ (r = true ↔ ∃ u, reply x = Resolve u))
  ∧ (∀ d x,
       password1 d ≠ password2 d →
       ∃ w1,
         register d x w = (Returned false, w1)
         ∧ trace w1 =
             EvToast (toast_error (Text (auth_message "passwords_mismatch"))) :: trace w
         ∧ session w1 = session w
         ∧ localStorage w1 = localStorage w
         ∧ limiter w1 = limiter w
         ∧ detached w1 = detached w)
  ∧ (∀ d x, ∃ r w1 new,
       requestPasswordReset d x w = (Returned r, w1)
       ∧ extends w w1 new
       ∧ auth_state_untouched w w1
       ∧ isLoading (session w1) = false
       ∧ List.filter is_post new =
           (if starts_logout x then [EvPost API_ROUTES.logout NoBody] else [])
           ++ [EvPost API_ROUTES.resetPassword (ResetBody d)]
       ∧ detached w1 = ((if starts_logout x then 1 else 0) + detached w)%nat
       ∧ (r = true ↔ ∃ u, reply x = Resolve u))
  ∧ (∀ d x, ∃ r w1 new,
       resetPassword d x w = (Returned r, w1)
       ∧ extends w w1 new
       ∧ auth_state_untouched w w1
       ∧ isLoading (session w1) = false
       ∧ List.filter is_post new =
           (if starts_logout x then [EvPost API_ROUTES.logout NoBody] else [])
           ++ [EvPost API_ROUTES.resetPasswordConfirm (ResetConfirmBody d)]
       ∧ detached w1 = ((if starts_logout x then 1 else 0) + detached w)%nat
       ∧ (r = true ↔ ∃ u, reply x = Resolve u)).
Proof.
  split; [intros; apply register_frame; assumption|].
  split; [intros; apply register_mismatch; assumption|].
  split; [intros; apply requestPasswordReset_frame|].
  intros; apply resetPassword_frame.
Qed.

Lemma account_operations_frame_witness :
  (∃ r w1,
     register signup_matching plain_ok w_no_token = (Returned r, w1)
     ∧ auth_state_untouched w_no_token w1
     ∧ r = true)
  ∧ (∃ w1,
       register signup_mismatch plain_ok w_no_token = (Returned false, w1)
       ∧ session w1 = session w_no_token).
Proof.
  destruct (account_operations_frame w_no_token) as (Hreg & Hmis & _).
  split.
  - destruct (Hreg signup_matching plain_ok eq_refl)
      as (r & w1 & new & Hrun & _ & Hkept & _ & _ & _ & Hr).
    exists r, w1. split; [exact Hrun|]. split; [exact Hkept|].
    apply Hr. exists tt. reflexivity.
  - destruct (Hmis signup_mismatch plain_ok ltac:(discriminate))
      as (w1 & Hrun & _ & Hs & _).
    exists w1. split; [exact Hrun|exact Hs].
Defined.
(** ** The intercepted client *)

Ltac api_leaf :=
  eexists _, _; split; [reflexivity|]; split; [solve_extends|];
  repeat split; try reflexivity; try discriminate.

(** One submission and no more, for a request to an open route or made
    without a stored access token. *)
Lemma api_no_token_once `{Platform}
    (fuel : nat) (srv : Server) (k : nat) (request : RequestConfig) (w : World) :
  includes NO_AUTH_REQUIRED_API_ROUTES (default "" (url request)) = true
  ∨ truthy_str (localStorage w !! STORAGE_KEYS.ACCESS_TOKEN) = false →
  ∃ w1 new,
    api (S fuel) srv k request w = (settled (answer srv k request) request, w1)
    ∧ extends w w1 new
    ∧ List.filter is_wire new = [EvWire request]
    ∧ List.filter is_post new =
        (if logs_out (answer srv k request)
         then [EvPost API_ROUTES.logout NoBody] else [])
    ∧ localStorage w1 = localStorage w
    ∧ clock w1 = clock w + took (answer srv k request)
    ∧ (logs_out (answer srv k request) = false →
       session w1 = session w ∧ detached w1 = detached w)
    ∧ (logs_out (answer srv k request) = true → detached w1 = S (detached w))
    ∧ limiter w1 = limiter w
    ∧ isLogged (session w1) = isLogged (session w)
    ∧ confirmEmailToken (session w1) = confirmEmailToken (session w).
Proof.
  intros Hcase. destruct w as [s ls rl c t dt]. cbn [localStorage] in Hcase.
  rewrite api_step.
  assert (Hsent : requestInterceptor request (refreshes srv (2 * k))
                    {| session := s; localStorage := ls; limiter := rl;
                       clock := c; trace := t; detached := dt |}
                  = (Returned request,
                     {| session := s; localStorage := ls; limiter := rl;
                        clock := c; trace := t; detached := dt |})).
  { unfold requestInterceptor.
    destruct (includes NO_AUTH_REQUIRED_API_ROUTES (default "" (url request))) eqn:Hpub;
      [reflexivity|].
    destruct Hcase as [Hcase|Htok]; [discriminate|].
    unfold bind, getAccessToken, bind, storage_getAccessToken, storage_getRefreshToken.
    cbn [localStorage]. rewrite Htok. reflexivity. }
  unfold bind at 1. rewrite Hsent.
  unfold settled, logs_out, bind, emit, advance, with_clock.
  cbn [session localStorage limiter clock trace detached].
  destruct (outcome (answer srv k request)) as [payload|resp]; [api_leaf|].
  unfold responseRejected. cbn [response config].
  destruct resp as [resp|]; [|api_leaf].
  unfold is_forced_logout.
  destruct (Z.eqb_spec (status resp) 503) as [H503|_].
  { destruct (Z.eqb_spec (status resp) 401) as [H401|_]; [lia|].
    cbn [andb]. api_leaf. }
  destruct (status resp =? 401); cbn [andb]; [|api_leaf].
  destruct (includes LOGOUT_ERROR_CODES (errorCode resp)); [api_leaf|].
  unfold shouldAttemptRefresh.
  destruct (includes NO_AUTH_REQUIRED_API_ROUTES (default "" (url request))) eqn:Hpub;
    cbn [negb andb]; [api_leaf|].
  destruct (str_is (url request) API_ROUTES.refresh); cbn [negb]; [api_leaf|].
  destruct Hcase as [Hcase|Htok]; [discriminate|].
  unfold try_catch, bind, getAccessToken, bind, storage_getAccessToken,
    storage_getRefreshToken.
  cbn [localStorage]. rewrite Htok. cbn [negb]. api_leaf.
Qed.

(** X19.  A call through [api] to one of the [NO_AUTH_REQUIRED_API_ROUTES],
    or made while no access token is stored, reaches the wire exactly once
    and unchanged (no [Authorization] header is added), is never
    resubmitted and never refreshes a token: the caller gets the answer
    as it is, whatever the status.  Storage is left alone; the only other
    request is the logout request when the answer is a 401 with one of
    the [LOGOUT_ERROR_CODES]. *)
Theorem api_without_token_single_submission `{Platform}
    (fuel : nat) (srv : Server) (k : nat) (request : RequestConfig) (w : World) :
  includes NO_AUTH_REQUIRED_API_ROUTES (default "" (url request)) = true
  ∨ truthy_str (localStorage w !! STORAGE_KEYS.ACCESS_TOKEN) = false →
  ∃ w1 new,
    api (S fuel) srv k request w = (settled (answer srv k request) request, w1)
    ∧ extends w w1 new
    ∧ List.filter is_wire new = [EvWire request]
    ∧ List.filter is_post new =
        (if logs_out (answer srv k request)
         then [EvPost API_ROUTES.logout NoBody] else [])
    ∧ localStorage w1 = localStorage w
    ∧ clock w1 = clock w + took (answer srv k request)
    ∧ (logs_out (answer srv k request) = false →
       session w1 = session w ∧ detached w1 = detached w)
    ∧ (logs_out (answer srv k request) = true → detached w1 = S (detached w)).
Proof.
  intros Hcase.
  destruct (api_no_token_once fuel srv k request w Hcase)
    as (w1 & new & Hrun & Hext & Hwire & Hpost & Hls & Hck & Hquiet & Hout & _).
  exists w1, new. repeat split; first [assumption|apply Hquiet; assumption].
Qed.

Lemma api_without_token_single_submission_witness :
  ∃ w1 new,
    api (H := sample_platform) 1 maintenance 0 post_login w_fresh_token =
      (settled (answer maintenance 0 post_login) post_login, w1)
    ∧ extends w_fresh_token w1 new
    ∧ List.filter is_wire new = [EvWire post_login].
Proof.
  destruct (api_without_token_single_submission (H := sample_platform)
              0 maintenance 0 post_login w_fresh_token)
    as (w1 & new & Hrun & Hext & Hwire & _).
  - left. reflexivity.
  - exists w1, new. repeat split; assumption.
Defined.

Lemma truthy_inv (r : option string) :
  truthy_str r = true → ∃ tok, r = Some tok ∧ tok ≠ "".
Proof.
  destruct r as [tok|]; [|discriminate]. cbn. intros Htok. exists tok.
  split; [reflexivity|]. intros ->. discriminate.
Qed.

Lemma getAccessToken_token_is_stored `{Platform} (x : Exchange TokenResponse) (w : World) :
  ∃ r w1,
    getAccessToken x w = (Returned r, w1)
    ∧ (truthy_str r = true →
       ∃ tok, r = Some tok ∧ tok ≠ ""
              ∧ localStorage w1 !! STORAGE_KEYS.ACCESS_TOKEN = Some tok).
Proof.
  unfold getAccessToken, bind at 1 2, storage_getAccessToken, storage_getRefreshToken.
  destruct (truthy_str (localStorage w !! STORAGE_KEYS.ACCESS_TOKEN)) eqn:Hacc; cbn [negb].
  2: { eexists _, _. split; [reflexivity|]. discriminate. }
  unfold bind at 1, Date_now.
  destruct (isTokenExpiringSoon _ (clock w)); cbn [negb].
  2: { eexists _, _. split; [reflexivity|]. intros _.
       destruct (truthy_inv _ Hacc) as (tok & Htok & Hne).
       exists tok. rewrite Htok. auto. }
  destruct (truthy_str (localStorage w !! STORAGE_KEYS.REFRESH_TOKEN)); cbn [negb].
  - unfold try_catch, bind at 1 2.
    destruct (reply x) as [d|err] eqn:Hreply.
    + rewrite (post_resolved _ _ x d _ Hreply).
      destruct w as [s ls rl c t dt]. cbn -[STORAGE_KEYS.ACCESS_TOKEN STORAGE_KEYS.REFRESH_TOKEN].
      eexists _, _. split; [reflexivity|]. intros Htruthy.
      destruct (truthy_inv _ Htruthy) as (tok & Htok & Hne).
      exists tok. split; [exact Htok|]. split; [exact Hne|].
      injection Htok as <-. cbn. solve_lookup.
    + rewrite (post_rejected _ _ x err _ Hreply).
      destruct w as [s ls rl c t dt]. destruct (forces_logout err); cbn;
      eexists _, _; (split; [reflexivity|]); discriminate.
  - destruct w as [s ls rl c t dt]. cbn.
    eexists _, _. split; [reflexivity|]. discriminate.
Qed.

(** X20.  The request interceptor never rejects and never touches the URL
    or the body.  A request to one of the [NO_AUTH_REQUIRED_API_ROUTES]
    goes out as it came, with no effect at all.  Any other request either
    goes out as it came, or carries [Bearer tok] where [tok] is non-empty
    and is the access token that storage holds at that moment (after a
    refresh, the one just stored). *)
Theorem requestInterceptor_never_rejects `{Platform}
    (request : RequestConfig) (x : Exchange TokenResponse) (w : World) :
  ∃ sent w1,
    requestInterceptor request x w = (Returned sent, w1)
    ∧ url sent = url request
    ∧ body sent = body request
    ∧ (sent = request
       ∨ ∃ tok, tok ≠ ""
                ∧ Authorization sent = Some ("Bearer " +:+ tok)
                ∧ localStorage w1 !! STORAGE_KEYS.ACCESS_TOKEN = Some tok)
    ∧ (includes NO_AUTH_REQUIRED_API_ROUTES (default "" (url request)) = true →
       sent = request ∧ w1 = w).
Proof.
  unfold requestInterceptor.
  destruct (includes NO_AUTH_REQUIRED_API_ROUTES (default "" (url request))).
  { exists request, w. repeat split; auto. }
  destruct (getAccessToken_token_is_stored x w) as (r & w1 & Hrun & Hstored).
  unfold bind. rewrite Hrun.
  destruct (truthy_str r) eqn:Htruthy.
  - destruct (Hstored eq_refl) as (tok & -> & Hne & Hlook).
    eexists _, w1. split; [reflexivity|]. split; [reflexivity|]. split; [reflexivity|].
    split; [|discriminate]. right. exists tok. repeat split; assumption.
  - exists request, w1. split; [reflexivity|]. split; [reflexivity|].
    split; [reflexivity|]. split; [left; reflexivity|discriminate].
Qed.

(** One submission and no more, for a request made with a fresh access
    token whose answer is not a 401 without a logout code. *)
Lemma api_fresh_once `{Platform}
    (fuel : nat) (srv : Server) (k : nat) (request : RequestConfig) (w : World)
    (tok : string) :
  includes NO_AUTH_REQUIRED_API_ROUTES (default "" (url request)) = false →
  localStorage w !! STORAGE_KEYS.ACCESS_TOKEN = Some tok →
  tok ≠ "" →
  isTokenExpiringSoon tok (clock w) = false →
  asks_again (answer srv k (with_bearer request tok)) = false →
  ∃ w1 new,
    api (S fuel) srv k request w =
      (settled (answer srv k (with_bearer request tok)) (with_bearer request tok), w1)
    ∧ extends w w1 new
    ∧ List.filter is_wire new = [EvWire (with_bearer request tok)]
    ∧ List.filter is_post new =
        (if logs_out (answer srv k (with_bearer request tok))
         then [EvPost API_ROUTES.logout NoBody] else [])
    ∧ localStorage w1 = localStorage w
    ∧ clock w1 = clock w + took (answer srv k (with_bearer request tok))
    ∧ (logs_out (answer srv k (with_bearer request tok)) = false →
       session w1 = session w ∧ detached w1 = detached w)
    ∧ (logs_out (answer srv k (with_bearer request tok)) = true →
       detached w1 = S (detached w))
    ∧ limiter w1 = limiter w
    ∧ isLogged (session w1) = isLogged (session w)
    ∧ confirmEmailToken (session w1) = confirmEmailToken (session w).
Proof.
  intros Hprot Hacc Hne Hfresh Hsettles.
  rewrite api_step.
  assert (Hsent : requestInterceptor request (refreshes srv (2 * k)) w
                  = (Returned (with_bearer request tok), w)).
  { unfold requestInterceptor. rewrite Hprot. unfold bind.
    rewrite (getAccessToken_fresh _ w tok Hacc Hne Hfresh).
    rewrite (truthy_some tok Hne). reflexivity. }
  unfold bind at 1. rewrite Hsent. clear Hsent Hacc Hfresh.
  destruct w as [s ls rl c t dt].
  revert Hsettles.
  unfold settled, logs_out, asks_again, bind, emit, advance, with_clock.
  cbn [session localStorage limiter clock trace detached].
  destruct (outcome (answer srv k (with_bearer request tok))) as [payload|resp];
    [intros _; api_leaf|].
  unfold responseRejected. cbn [response config].
  destruct resp as [resp|]; [|intros _; api_leaf].
  unfold is_forced_logout, is_plain_401.
  destruct (Z.eqb_spec (status resp) 503) as [H503|_].
  { destruct (Z.eqb_spec (status resp) 401) as [H401|_]; [lia|].
    cbn [andb]. intros _. api_leaf. }
  destruct (status resp =? 401); cbn [andb]; [|intros _; api_leaf].
  destruct (includes LOGOUT_ERROR_CODES (errorCode resp)); cbn [negb];
    [intros _; api_leaf|discriminate].
Qed.

(** X21.  A call through [api] to a protected route, made with a stored
    access token that is not about to expire, goes out once with that
    token as bearer.  Unless the answer is a 401 without one of the
    [LOGOUT_ERROR_CODES], the caller gets that answer as it is (a 503 and
    a network failure included): nothing is resubmitted, no token is
    refreshed and storage is left alone; a 401 with one of the
    [LOGOUT_ERROR_CODES] starts a logout and is still handed to the
    caller. *)
Theorem api_fresh_token_single_submission `{Platform}
    (fuel : nat) (srv : Server) (k : nat) (request : RequestConfig) (w : World)
    (tok : string) :
  includes NO_AUTH_REQUIRED_API_ROUTES (default "" (url request)) = false →
  localStorage w !! STORAGE_KEYS.ACCESS_TOKEN = Some tok →
  tok ≠ "" →
  isTokenExpiringSoon tok (clock w) = false →
  asks_again (answer srv k (with_bearer request tok)) = false →
  ∃ w1 new,
    api (S fuel) srv k request w =
      (settled (answer srv k (with_bearer request tok)) (with_bearer request tok), w1)
    ∧ extends w w1 new
    ∧ List.filter is_wire new = [EvWire (with_bearer request tok)]
    ∧ List.filter is_post new =
        (if logs_out (answer srv k (with_bearer request tok))
         then [EvPost API_ROUTES.logout NoBody] else [])
    ∧ localStorage w1 = localStorage w
    ∧ clock w1 = clock w + took (answer srv k (with_bearer request tok))
    ∧ (logs_out (answer srv k (with_bearer request tok)) = false →
       session w1 = session w ∧ detached w1 = detached w).
Proof.
  intros Hprot Hacc Hne Hfresh Hsettles.
  destruct (api_fresh_once fuel srv k request w tok Hprot Hacc Hne Hfresh Hsettles)
    as (w1 & new & Hrun & Hext & Hwire & Hpost & Hls & Hck & Hquiet & _).
  exists w1, new. repeat split; first [assumption|apply Hquiet; assumption].
Qed.

Lemma api_fresh_token_single_submission_witness :
  ∃ w1,
    api (H := sample_platform) 1 maintenance 0 get_profile w_fresh_token =
      (settled (answer maintenance 0 (with_bearer get_profile "jwt-exp-5000"))
         (with_bearer get_profile "jwt-exp-5000"), w1)
    ∧ localStorage w1 = localStorage w_fresh_token.
Proof.
  destruct (api_fresh_token_single_submission (H := sample_platform)
              0 maintenance 0 get_profile w_fresh_token "jwt-exp-5000")
    as (w1 & new & Hrun & _ & _ & _ & Hls & _).
  - reflexivity.
  - reflexivity.
  - discriminate.
  - vm_compute. reflexivity.
  - reflexivity.
  - exists w1. split; assumption.
Defined.

(** X22.  The rejection handler of the response interceptor has two
    outcomes only.  Either it rejects with the very error it was given,
    or it hands the original request back to the client with [Bearer tok]
    as header, where [tok] is non-empty and is the access token storage
    holds at that moment.  The second happens only for a 401 without one
    of the [LOGOUT_ERROR_CODES] on a route that is neither in
    [NO_AUTH_REQUIRED_API_ROUTES] nor the refresh route; a failed refresh
    never replaces the error the caller sees. *)
Theorem responseRejected_outcomes `{Platform}
    (resubmit : RequestConfig → M string) (x : Exchange TokenResponse)
    (error : AxiosError) (w : World) :
  (∃ w1, responseRejected resubmit x error w = (Thrown error, w1))
  ∨ (∃ originalRequest tok w1,
       config error = Some originalRequest
       ∧ is_plain_401 (response error) = true
       ∧ shouldAttemptRefresh originalRequest = true
       ∧ tok ≠ ""
       ∧ localStorage w1 !! STORAGE_KEYS.ACCESS_TOKEN = Some tok
       ∧ responseRejected resubmit x error w =
           resubmit (with_bearer originalRequest tok) w1).
Proof.
  unfold responseRejected.
  destruct (response error) as [resp|]; [|left; eexists; reflexivity].
  destruct (config error) as [req|]; [|left; eexists; reflexivity].
  destruct (Z.eqb_spec (status resp) 503) as [H503|_]; [left; eexists; reflexivity|].
  unfold is_plain_401.
  destruct (status resp =? 401); [|left; eexists; reflexivity].
  destruct (includes LOGOUT_ERROR_CODES (errorCode resp)).
  { left. unfold bind. destruct (logOut_detached w) as [[u|e|] w1] eqn:Hout;
      try (eexists; reflexivity).
    - destruct w as [s ls rl c t dt]. cbn in Hout. discriminate.
    - destruct w as [s ls rl c t dt]. cbn in Hout. discriminate. }
  destruct (shouldAttemptRefresh req) eqn:Hshould; [|left; eexists; reflexivity].
  destruct (getAccessToken_token_is_stored x w) as (r & w1 & Hrun & Hstored).
  unfold bind, try_catch. rewrite Hrun.
  destruct (truthy_str r) eqn:Htruthy.
  - destruct (Hstored eq_refl) as (tok & -> & Hne & Hlook).
    right. exists req, tok, w1. repeat split; first [assumption|reflexivity].
  - left. eexists. reflexivity.
Qed.

(** ** The logger's threshold *)

Lemma indexOf_levels_bounds (l : Logger.LogLevel) :
  0 ≤ Logger.indexOf Logger.levels l ≤ 4.
Proof. destruct l; vm_compute; split; discriminate. Qed.

(** X23.  What reaches the console.  A disabled logger prints nothing;
    an enabled one always prints errors, whatever its level; and a
    logger that prints at one level prints at every level above it in
    the order debug, log, info, warn, error.  The exported [logger] has
    level ['error']: in a production build it prints nothing until
    [enable()] is called, and from then on (as in a development build)
    it prints errors and nothing else. *)
Theorem shouldLog_threshold :
  (∀ cfg l, Logger.shouldLog (Logger.disable cfg) l = false)
  ∧ (∀ cfg, Logger.shouldLog cfg Logger.error = Logger.enabled cfg)
  ∧ (∀ cfg a b,
       Logger.indexOf Logger.levels a ≤ Logger.indexOf Logger.levels b →
       Logger.shouldLog cfg a = true → Logger.shouldLog cfg b = true)
  ∧ (∀ l, Logger.shouldLog (Logger.logger false) l = false)
  ∧ (∀ DEV l, Logger.shouldLog (Logger.enable (Logger.logger DEV)) l = true
              ↔ l = Logger.error)
  ∧ (∀ l, Logger.shouldLog (Logger.logger true) l = true ↔ l = Logger.error).
Proof.
  split; [reflexivity|].
  split.
  { intros [en lv]; destruct en; [|reflexivity]. unfold Logger.shouldLog. cbn [Logger.enabled negb Logger.level].
    pose proof (indexOf_levels_bounds lv) as Hb.
    change (Logger.indexOf Logger.levels Logger.error) with 4. lia. }
  split.
  { intros [en lv] a b Hab; destruct en; unfold Logger.shouldLog;
      cbn [Logger.enabled negb Logger.level]; [|discriminate]. lia. }
  split; [reflexivity|].
  split.
  - intros DEV l. destruct l; vm_compute; split; congruence.
  - intros l. destruct l; vm_compute; split; congruence.
Qed.


(** ** The route guard *)

Lemma logOut_returned `{Platform} (fuel : nat) (srv : Server) (w w1 : World) :
  logOut fuel srv w = (Returned tt, w1) → storage_cleared w1 ∧ signed_out w1.
Proof.
  intros Hrun.
  destruct (logOut_settled fuel srv w) as (w1' & rest & Hrun' & _ & Hst & Hout).
  { rewrite Hrun. discriminate. }
  rewrite Hrun in Hrun'. injection Hrun' as <-. split; assumption.
Qed.

(** X24.  [ProtectedRoute] renders the child routes exactly when the
    session says [isLogged], and the spinner exactly when it is loading
    and not logged in; it redirects only when asked to, and then to
    [redirectPath], the login route by default.  Against the store: if
    [logOut] returns, then at that moment a guarded route shows the
    redirect or the prompt, never the children and never the spinner;
    while the logout request is still in flight a logged-in user still
    sees the children. *)
Theorem ProtectedRoute_follows_session `{Platform} :
  (∀ props s, ProtectedRoute props s = Outlet ↔ isLogged s = true)
  ∧ (∀ props s, ProtectedRoute props s = LoadingSpinner
                ↔ isLoading s = true ∧ isLogged s = false)
  ∧ (∀ props s to, ProtectedRoute props s = NavigateTo to →
       redirectToLogin props = Some true
       ∧ to = default ROUTES.login (redirectPath props))
  ∧ (∀ props fuel srv w w1,
       logOut fuel srv w = (Returned tt, w1) →
       ProtectedRoute props (session w1) =
         (if default false (redirectToLogin props)
          then NavigateTo (default ROUTES.login (redirectPath props))
          else AuthPrompt (default "Authentication Required" (title props))
                          (default "Please log in to access this page."
                             (message props))))
  ∧ (∀ props w, isLogged (session w) = true →
       ∃ w1, logOut_start w = (Returned tt, w1)
             ∧ ProtectedRoute props (session w1) = Outlet).
Proof.
  split.
  { intros props [lg ld tk]. unfold ProtectedRoute. cbn [isLogged isLoading].
    destruct lg, ld; cbn [andb negb];
      try destruct (default false (redirectToLogin props));
      split; congruence. }
  split.
  { intros props [lg ld tk]. unfold ProtectedRoute. cbn [isLogged isLoading].
    destruct lg, ld; cbn [andb negb];
      try destruct (default false (redirectToLogin props));
      (split; [intros Hv; first [discriminate Hv|split; reflexivity]
              |intros [? ?]; congruence]). }
  split.
  { intros props [lg ld tk] to. unfold ProtectedRoute. cbn [isLogged isLoading].
    destruct lg, ld; cbn [andb negb]; try discriminate;
      destruct (redirectToLogin props) as [[]|]; cbn; try discriminate;
      intros [= <-]; split; reflexivity. }
  split.
  { intros props fuel srv w w1 Hrun.
    destruct (logOut_returned fuel srv w w1 Hrun) as (_ & Hlg & Hld & _).
    unfold ProtectedRoute. rewrite Hlg, Hld. reflexivity. }
  intros props w Hlogged. destruct w as [s ls rl c t dt].
  eexists. split; [reflexivity|].
  destruct s as [lg ld tk]. cbn in Hlogged. subst lg. reflexivity.
Qed.

Lemma ProtectedRoute_follows_session_witness :
  ProtectedRoute {| redirectPath := None; title := None; message := None;
                    redirectToLogin := Some true |}
    (session (@logOut sample_platform 1 accepting w_fresh_token).2)
  = NavigateTo ROUTES.login
  ∧ ∃ w1, logOut_start w_fresh_token = (Returned tt, w1)
          ∧ ProtectedRoute {| redirectPath := None; title := None; message := None;
                              redirectToLogin := Some true |} (session w1) = Outlet.
Proof.
  destruct (@ProtectedRoute_follows_session sample_platform)
    as (_ & _ & _ & Hout & Hstart).
  split.
  - exact (Hout {| redirectPath := None; title := None; message := None;
                   redirectToLogin := Some true |}
             1%nat accepting w_fresh_token
             (@logOut sample_platform 1 accepting w_fresh_token).2 eq_refl).
  - apply Hstart. reflexivity.
Defined.

(** ** After a logout *)

Lemma cleared_no_token `{Platform} (x : Exchange TokenResponse) (w : World) :
  localStorage w !! STORAGE_KEYS.ACCESS_TOKEN = None →
  getAccessToken x w = (Returned None, w).
Proof.
  intros Hacc.
  unfold getAccessToken, bind, storage_getAccessToken, storage_getRefreshToken.
  rewrite Hacc. reflexivity.
Qed.

(** X25.  If [logOut] returns, then at that moment, whatever the logout
    request did, nothing of the session is left to the rest of the
    program: [getAccessToken] answers [undefined] without a request and
    without any effect, [getUser] answers [null], the request interceptor
    sends every request as it came (no [Authorization] header is added),
    and a page reload starts from the very state the store is in. *)
Theorem logOut_leaves_nothing_behind `{Platform}
    (fuel : nat) (srv : Server) (w w1 : World) :
  logOut fuel srv w = (Returned tt, w1) →
  (∀ x_refresh, getAccessToken x_refresh w1 = (Returned None, w1))
  ∧ getUser w1 = (Returned None, w1)
  ∧ (∀ request x_refresh,
       requestInterceptor request x_refresh w1 = (Returned request, w1))
  ∧ (∀ now, initial_session (localStorage w1) now = session w1).
Proof.
  intros Hrun.
  destruct (logOut_returned fuel srv w w1 Hrun) as (Hst & Hout).
  destruct Hst as (Hacc & Href & Husr).
  split; [intros x'; apply cleared_no_token; exact Hacc|].
  split.
  { unfold getUser, storage_getUser. rewrite Husr. reflexivity. }
  split.
  { intros request x'. unfold requestInterceptor.
    destruct (includes NO_AUTH_REQUIRED_API_ROUTES (default "" (url request)));
      [reflexivity|].
    unfold bind. rewrite (cleared_no_token x' w1 Hacc). reflexivity. }
  intros now. unfold initial_session. rewrite Href.
  destruct Hout as (Hlg & Hld & Htk).
  destruct (session w1) as [lg ld tk]. cbn in *. subst. reflexivity.
Qed.

Lemma logOut_leaves_nothing_behind_witness :
  @logOut sample_platform 1 accepting w_fresh_token =
    (Returned tt, (@logOut sample_platform 1 accepting w_fresh_token).2)
  ∧ @getUser sample_platform (@logOut sample_platform 1 accepting w_fresh_token).2 =
      (Returned None, (@logOut sample_platform 1 accepting w_fresh_token).2)
  ∧ ∀ x_refresh,
      @getAccessToken sample_platform x_refresh
        (@logOut sample_platform 1 accepting w_fresh_token).2 =
        (Returned None, (@logOut sample_platform 1 accepting w_fresh_token).2).
Proof.
  split; [reflexivity|].
  destruct (@logOut_leaves_nothing_behind sample_platform 1 accepting w_fresh_token
              (@logOut sample_platform 1 accepting w_fresh_token).2 eq_refl)
    as (Htok & Husr & _).
  split; [exact Husr|exact Htok].
Defined.

(** ** After a login *)

(** X26.  A successful [logIn] leaves a session the rest of the program
    can use at once.  If the access token received is not about to expire
    when the login request settles, [getAccessToken] hands out that very
    token without any request, the request interceptor sends it as bearer
    on protected routes, guarded routes render their children, and
    [getUser] gives back the user received (provided parsing undoes the
    serialisation of that user). *)
Theorem logIn_then_session_usable `{Platform}
    (credentials : LoginRequest) (d : LoginResponse)
    (x_login : Exchange LoginResponse) (x_resend : Exchange ResendResponse) (w : World) :
  RateLimiter.isAllowed
    (RateLimiter.checkLimit (clock w) (email credentials) (limiter w)).1 = true →
  reply x_login = Resolve d →
  lr_access d ≠ "" →
  isTokenExpiringSoon (lr_access d) (clock w + elapsed x_login) = false →
  JSON_stringify (lr_user d) ≠ "" →
  JSON_parse (JSON_stringify (lr_user d)) = Some (lr_user d) →
  ∃ w1,
    logIn credentials x_login x_resend w = (Returned success, w1)
    ∧ (∀ x, getAccessToken x w1 = (Returned (Some (lr_access d)), w1))
    ∧ getUser w1 = (Returned (Some (lr_user d)), w1)
    ∧ (∀ props, ProtectedRoute props (session w1) = Outlet)
    ∧ (∀ request x,
         includes NO_AUTH_REQUIRED_API_ROUTES (default "" (url request)) = false →
         requestInterceptor request x w1 =
           (Returned (with_bearer request (lr_access d)), w1)).
Proof.
  destruct w as [s ls rl c t dt]. cbn [clock limiter localStorage].
  intros Hallowed Hreply Htok Hfresh Hser Hparse.
  unfold logIn, bind at 1, limiter_checkLimit. cbn [clock limiter].
  destruct (RateLimiter.checkLimit c (email credentials) rl) as [chk rl1] eqn:Hchk.
  cbn [fst snd] in *. cbn -[post]. rewrite Hallowed. cbn -[post].
  unfold try_catch, bind at 1.
  rewrite (post_resolved _ _ x_login d _ Hreply). cbn.
  eexists. split; [reflexivity|].
  pose proof (storage_after_login ls (lr_access d) (lr_refresh d)
                (JSON_stringify (lr_user d))) as (Ha & Hr & Hu).
  cbn zeta in Ha, Hr, Hu.
  assert (Htoken : ∀ x w1,
            localStorage w1 = <[STORAGE_KEYS.USER := JSON_stringify (lr_user d)]>
                                (<[STORAGE_KEYS.REFRESH_TOKEN := lr_refresh d]>
                                   (<[STORAGE_KEYS.ACCESS_TOKEN := lr_access d]> ls)) →
            clock w1 = c + elapsed x_login →
            getAccessToken x w1 = (Returned (Some (lr_access d)), w1)).
  { intros x w1 Hls Hclock. apply getAccessToken_fresh.
    - rewrite Hls. exact Ha.
    - exact Htok.
    - rewrite Hclock. exact Hfresh. }
  split; [intros x; apply Htoken; reflexivity|].
  split.
  { unfold getUser, storage_getUser. cbn [localStorage].
    rewrite Hu. rewrite (truthy_some _ Hser). cbn [negb].
    change (default "" (Some (JSON_stringify (lr_user d))))
      with (JSON_stringify (lr_user d)).
    rewrite Hparse. reflexivity. }
  split; [reflexivity|].
  intros request x Hprot.
  change (includes NO_AUTH_REQUIRED_API_ROUTES (default "" (url request)) = false)
    in Hprot.
  unfold requestInterceptor. rewrite Hprot.
  unfold bind. rewrite Htoken by reflexivity.
  rewrite (truthy_some _ Htok). reflexivity.
Qed.

Lemma logIn_then_session_usable_witness :
  ∃ w1,
    @logIn sample_platform ana login_ok resend_sent_ok w_two_failures =
      (Returned success, w1)
    ∧ (∀ x, @getAccessToken sample_platform x w1 = (Returned (Some "jwt-exp-5000"), w1))
    ∧ @getUser sample_platform w1 = (Returned (Some "{username: ana}"), w1).
Proof.
  destruct (@logIn_then_session_usable sample_platform ana
              (@Build_LoginResponse sample_platform
                 "jwt-exp-5000" "jwt-exp-9000" "{username: ana}")
              login_ok resend_sent_ok w_two_failures)
    as (w1 & Hrun & Htok & Husr & _).
  - reflexivity.
  - reflexivity.
  - discriminate.
  - reflexivity.
  - discriminate.
  - reflexivity.
  - exists w1. repeat split; assumption.
Defined.

(** ** Calls to protected routes *)

Lemma logOut_start_keeps (w : World) :
  limiter (logOut_start w).2 = limiter w
  ∧ isLogged (session (logOut_start w).2) = isLogged (session w).
Proof. destruct w as [s ls rl c t dt]. split; reflexivity. Qed.

(** X27.  When [logOut] does return.  With no access token stored, or
    with one that is not about to expire and a backend that does not
    answer the logout request with a 401 without a logout code, [logOut]
    returns after one submission of the logout request (with the stored
    token as bearer when there is one), whether the backend accepts it,
    refuses it or cannot be reached: the three storage keys are removed
    and the session is signed out.  The only [logOut()] left behind is
    the one the response interceptor starts on a 401 with a logout
    code. *)
Theorem logOut_completes `{Platform}
    (fuel : nat) (srv : Server) (w : World) (sent : RequestConfig) :
  (truthy_str (localStorage w !! STORAGE_KEYS.ACCESS_TOKEN) = false
   ∧ sent = logout_request)
  ∨ (∃ tok, localStorage w !! STORAGE_KEYS.ACCESS_TOKEN = Some tok
            ∧ tok ≠ ""
            ∧ isTokenExpiringSoon tok (clock w) = false
            ∧ sent = with_bearer logout_request tok
            ∧ asks_again (answer srv 0 sent) = false) →
  ∃ w1 new,
    logOut (S fuel) srv w = (Returned tt, w1)
    ∧ extends w w1 new
    ∧ List.filter is_wire new = [EvWire sent]
    ∧ List.filter is_post new =
        (if logs_out (answer srv 0 sent) then [EvPost API_ROUTES.logout NoBody] else [])
        ++ [EvPost API_ROUTES.logout NoBody]
    ∧ storage_cleared w1
    ∧ signed_out w1
    ∧ limiter w1 = limiter w
    ∧ clock w1 = clock w + took (answer srv 0 sent)
    ∧ detached w1 = ((if logs_out (answer srv 0 sent) then 1 else 0) + detached w)%nat.
Proof.
  intros Hcase.
  destruct (logOut_start_returns w) as (_ & Htr0 & _ & Hls0 & Hck0 & Hdt0).
  destruct (logOut_start_keeps w) as (Hrl0 & _).
  assert (Hapi : ∃ wa new,
            api (S fuel) srv 0 logout_request (logOut_start w).2 =
              (settled (answer srv 0 sent) sent, wa)
            ∧ extends (logOut_start w).2 wa new
            ∧ List.filter is_wire new = [EvWire sent]
            ∧ List.filter is_post new =
                (if logs_out (answer srv 0 sent)
                 then [EvPost API_ROUTES.logout NoBody] else [])
            ∧ clock wa = clock w + took (answer srv 0 sent)
            ∧ limiter wa = limiter w
            ∧ detached wa =
                ((if logs_out (answer srv 0 sent) then 1 else 0) + detached w)%nat).
  { destruct Hcase as [(Hnone & ->)|(tok & Hacc & Hne & Hfresh & -> & Hagain)].
    - destruct (api_no_token_once fuel srv 0%nat logout_request (logOut_start w).2)
        as (wa & new & Hrun & Hext & Hwire & Hpost & _ & Hck & Hquiet & Hout & Hrl & _).
      { right. rewrite Hls0. exact Hnone. }
      exists wa, new. repeat split; try assumption.
      destruct (logs_out (answer srv 0 logout_request)).
      + rewrite Hout by reflexivity. rewrite Hdt0. reflexivity.
      + destruct Hquiet as (_ & ->); [reflexivity|]. exact Hdt0.
    - destruct (api_fresh_once fuel srv 0%nat logout_request (logOut_start w).2 tok)
        as (wa & new & Hrun & Hext & Hwire & Hpost & _ & Hck & Hquiet & Hout & Hrl & _).
      { reflexivity. }
      { rewrite Hls0. exact Hacc. }
      { exact Hne. }
      { rewrite Hck0. exact Hfresh. }
      { exact Hagain. }
      exists wa, new. repeat split; try assumption.
      destruct (logs_out (answer srv 0 (with_bearer logout_request tok))).
      + rewrite Hout by reflexivity. rewrite Hdt0. reflexivity.
      + destruct Hquiet as (_ & ->); [reflexivity|]. exact Hdt0. }
  destruct Hapi as (wa & new & Hrun & Hext & Hwire & Hpost & Hck & Hrl & Hdt).
  rewrite logOut_unfold, Hrun. unfold settled.
  unfold extends in Hext. rewrite Htr0 in Hext.
  destruct wa as [sa lsa rla ca ta dta]. cbn [trace clock limiter detached] in *.
  subst ta.
  destruct (outcome (answer srv 0 sent)) as [payload|resp].
  - eexists _, (_ :: new ++ [_; _; _]). split; [reflexivity|].
    split. { unfold extends. cbn. rewrite <- app_assoc. reflexivity. }
    split. { cbn. rewrite List.filter_app, Hwire. reflexivity. }
    split. { cbn. rewrite List.filter_app, Hpost. reflexivity. }
    split.
    { apply (storage_clear_cleared
               {| session := sa; localStorage := lsa; limiter := rla; clock := ca;
                  trace := new ++ started_from (session w) ++ trace w;
                  detached := dta |}). }
    split; [repeat split|]. repeat split; assumption.
  - eexists _, (_ :: _ :: new ++ [_; _; _]). split; [reflexivity|].
    split. { unfold extends. cbn. rewrite <- app_assoc. reflexivity. }
    split. { cbn. rewrite List.filter_app, Hwire. reflexivity. }
    split. { cbn. rewrite List.filter_app, Hpost. reflexivity. }
    split.
    { apply (storage_clear_cleared
               {| session := sa; localStorage := lsa; limiter := rla; clock := ca;
                  trace := EvLog "error" "Logout request failed"
                           :: new ++ started_from (session w) ++ trace w;
                  detached := dta |}). }
    split; [repeat split|]. repeat split; assumption.
Qed.

Lemma logOut_completes_witness :
  ∃ w1,
    @logOut sample_platform 1 unreachable w_fresh_token = (Returned tt, w1)
    ∧ storage_cleared w1
    ∧ signed_out w1
    ∧ detached w1 = 0%nat.
Proof.
  destruct (@logOut_completes sample_platform 0 unreachable w_fresh_token
              (with_bearer logout_request "jwt-exp-5000"))
    as (w1 & new & Hrun & _ & _ & _ & Hst & Hout & _ & _ & Hdt).
  - right. exists "jwt-exp-5000". split; [reflexivity|]. split; [discriminate|].
    split; [vm_compute; reflexivity|]. split; reflexivity.
  - exists w1. repeat split; first [assumption|apply Hst|apply Hout].
Defined.

(** X28.  [changePassword] goes through the intercepted client to a
    protected route.  With a stored access token that is not about to
    expire, and a backend that does not answer with a 401 without a
    logout code, it returns after one submission, with that token as
    bearer and the argument as body: [true] exactly when the backend
    accepts the request.  Storage, limiter, [isLogged] and
    [confirmEmailToken] are what they were and [isLoading] is false; the
    only [logOut()] left behind is the one the response interceptor
    starts on a 401 with a logout code. *)
Theorem changePassword_settles `{Platform}
    (fuel : nat) (srv : Server) (data : ChangePasswordRequest) (w : World)
    (tok : string) :
  localStorage w !! STORAGE_KEYS.ACCESS_TOKEN = Some tok →
  tok ≠ "" →
  isTokenExpiringSoon tok (clock w) = false →
  asks_again (answer srv 0 (with_bearer (changePassword_request data) tok)) = false →
  ∃ r w1 new,
    changePassword (S fuel) srv data w = (Returned r, w1)
    ∧ extends w w1 new
    ∧ List.filter is_wire new = [EvWire (with_bearer (changePassword_request data) tok)]
    ∧ List.filter is_post new =
        (if logs_out (answer srv 0 (with_bearer (changePassword_request data) tok))
         then [EvPost API_ROUTES.logout NoBody] else [])
        ++ [EvPost API_ROUTES.changePassword (ChangePasswordBody data)]
    ∧ auth_state_untouched w w1
    ∧ isLoading (session w1) = false
    ∧ detached w1 =
        ((if logs_out (answer srv 0 (with_bearer (changePassword_request data) tok))
          then 1 else 0) + detached w)%nat
    ∧ (r = true ↔
       ∃ payload,
         outcome (answer srv 0 (with_bearer (changePassword_request data) tok))
         = Ok payload).
Proof.
  intros Hacc Hne Hfresh Hagain.
  destruct w as [s ls rl c t dt]. cbn [localStorage clock] in Hacc, Hfresh.
  unfold changePassword, try_finally, try_catch, bind.
  cbn -[api changePassword_request].
  match goal with |- context [api (S fuel) srv 0 (changePassword_request data) ?w0] =>
    destruct (api_fresh_once fuel srv 0%nat (changePassword_request data) w0 tok)
      as (wa & new & Hrun & Hext & Hwire & Hpost & Hls & _ & Hquiet & Hout & Hrl
          & Hlg & Htk);
      [reflexivity|exact Hacc|exact Hne|exact Hfresh|exact Hagain|]
  end.
  rewrite Hrun. unfold settled, auth_state_untouched.
  unfold extends in Hext.
  destruct wa as [sa lsa rla ca ta dta].
  cbn [trace localStorage limiter session detached isLogged confirmEmailToken
       merge loading set_isLogged set_isLoading set_confirmEmailToken] in *.
  subst ta.
  assert (Hdt : dta =
            ((if logs_out (answer srv 0 (with_bearer (changePassword_request data) tok))
              then 1 else 0) + dt)%nat).
  { destruct (logs_out (answer srv 0 (with_bearer (changePassword_request data) tok))).
    - apply Hout. reflexivity.
    - apply Hquiet. reflexivity. }
  destruct (outcome (answer srv 0 (with_bearer (changePassword_request data) tok)))
    as [payload|resp]; cbn.
  - eexists true, _, (_ :: _ :: new ++ [_; _; _]). split; [reflexivity|].
    split. { unfold extends. cbn. rewrite <- app_assoc. reflexivity. }
    split. { cbn. rewrite List.filter_app, Hwire. reflexivity. }
    split. { cbn. rewrite List.filter_app, Hpost. reflexivity. }
    split. { cbn. repeat split; assumption. }
    split; [reflexivity|]. split; [exact Hdt|].
    split; [intros _; eexists; reflexivity|reflexivity].
  - eexists false, _, (_ :: _ :: new ++ [_; _; _]). split; [reflexivity|].
    split. { unfold extends. cbn. rewrite <- app_assoc. reflexivity. }
    split. { cbn. rewrite List.filter_app, Hwire. reflexivity. }
    split. { cbn. rewrite List.filter_app, Hpost. reflexivity. }
    split. { cbn. repeat split; assumption. }
    split; [reflexivity|]. split; [exact Hdt|].
    split; [discriminate|intros (payload & Hp); discriminate Hp].
Qed.

Lemma changePassword_settles_witness :
  ∃ w1,
    @changePassword sample_platform 1 accepting new_secret w_fresh_token =
      (Returned true, w1)
    ∧ auth_state_untouched w_fresh_token w1
    ∧ isLoading (session w1) = false
    ∧ detached w1 = 0%nat.
Proof.
  destruct (@changePassword_settles sample_platform 0 accepting new_secret
              w_fresh_token "jwt-exp-5000")
    as (r & w1 & new & Hrun & _ & _ & _ & Hkept & Hld & Hdt & Hr).
  - reflexivity.
  - discriminate.
  - vm_compute. reflexivity.
  - reflexivity.
  - exists w1. replace r with true in Hrun.
    + repeat split; first [assumption|apply Hkept].
    + symmetry. apply Hr. exists "". reflexivity.
Defined.

(** ** A logout that cannot finish *)


